(** * einops_rearrange: a shallow embedding of [parser.py] and [funcs.py]

    The development follows the source modules and what they rely on:
    - [Py]      : Python exceptions and results ([raise], [try]/[except]);
    - [PyStr]   : the [str] methods the code calls ([in], [count],
                  [replace], [split], [strip], [isspace], [isalnum], ...);
    - [Parser]  : [parser.py], class [ParsedExpression];
    - [PySeq]   : indexing, slicing, [range], [list.index], dictionaries;
    - [Np]      : the fragment of numpy the code relies on ([np.prod],
                  integer scalar [%] and [//], [reshape], [transpose]);
    - [Funcs]   : [funcs.py], [_get_shape_dict], [_compute_output_shape]
                  and [rearrange].
    The properties come after the definitions, grouped by subject.

    Characters are code points 0..255 ([ascii]); sizes are [Z], in the
    range of numpy's [int64] wherever numpy computes with them;
    dictionaries keyed by axis names are [gmap string _] and sets of names
    [gset string]. *)

From Stdlib Require Import ZArith List Ascii String Bool Lia.
From stdpp Require Import base decidable option list gmap strings fin_maps.

Import ListNotations.
Local Open Scope string_scope.
Local Open Scope list_scope.
Local Open Scope Z_scope.

(* ===================================================================== *)
(** * Python: exceptions and results                                      *)
(* ===================================================================== *)

Module Py.

(** [ValueError]s that can occur, by the operation that raises them. *)
Inductive value_error : Type :=
| TooManyValuesToUnpack (expected got : nat)  (* [a, b = xs] with [len xs > 2] *)
| NotEnoughValuesToUnpack (expected got : nat)
| ReshapeSizeMismatch (size : Z) (newshape : list Z)
| ReshapeSeveralUnknown
| TransposeAxesDontMatch
| TransposeAxisOutOfBounds (axis : Z) (ndim : nat)
| TransposeRepeatedAxis
| NotInList.                                  (* [xs.index(x)], [x] absent *)

(** The messages of [EinopsError], one constructor per [raise] site. *)
Inductive einops_msg : Type :=
| PatternMustContainArrow
| ExpressionCannotBeEmpty
| MultipleEllipsis
| InvalidCharacter (c : ascii)
| EllipsisInsideParenthesis
| EmptyAxisName
| AxisNameStartsWithNumber (name : string)
| InvalidAxisName (name : string)
| NestedParentheses
| UnmatchedClosingParenthesis
| EmptyParentheses
| UnclosedParenthesis
| PatternRequiresFewerDimensions
| PatternRequiresMoreDimensions
| InconsistentSize (axis : string) (got expected : Z)
| ShapeMismatchProduct (item : list string) (product total : Z)
| CannotDivide (total known : Z)
| CannotInferMultipleUnknown (item : list string)
| PatternHasMoreDimensionsThanTensor
| CannotInferSizes (e : value_error)
| UnknownDimensions (names : gset string)
| UnknownDimension (name : string)
| UnknownDimensionKey (key : string)
| CannotReshape (size : Z) (final : list Z)
| ShapeMismatch (e : value_error).

(** Exceptions: the program's own [EinopsError] and the built-in ones that
    the operations it uses can raise. *)
Inductive exn : Type :=
| EinopsError (m : einops_msg)
| ValueError (e : value_error)
| IndexError
| KeyError (key : string)
| UnboundLocalError (var : string)
| ZeroDivisionError.   (* Python's own [%] and [//] with a zero divisor *)

Inductive result (A : Type) : Type :=
| Ok (a : A)
| Raise (e : exn).
Arguments Ok {A} a.
Arguments Raise {A} e.

Definition bind {A B} (r : result A) (k : A -> result B) : result B :=
  match r with
  | Ok a => k a
  | Raise e => Raise e
  end.

(** [try: r  except <class> as e: raise h e]; [h] is the identity on the
    exceptions the [except] clause does not match. *)
Definition try_except {A} (r : result A) (h : exn -> exn) : result A :=
  match r with
  | Ok a => Ok a
  | Raise e => Raise (h e)
  end.

Definition is_einops_error (e : exn) : bool :=
  match e with EinopsError _ => true | _ => false end.

End Py.
Export Py.

Notation "'do' x <- e ; k" := (bind e (fun x => k))
  (at level 10, x pattern, e at level 100, k at level 200).

(* ===================================================================== *)
(** * Python: characters and strings                                      *)
(* ===================================================================== *)

Module PyStr.

Definition code (c : ascii) : N := N_of_ascii c.

Definition between (lo hi : N) (c : ascii) : bool :=
  (N.leb lo (code c) && N.leb (code c) hi)%bool.

(** [str.isspace] on one character (Unicode White_Space / bidi WS, B, S). *)
Definition isspace (c : ascii) : bool :=
  (between 9 13 c || between 28 32 c || N.eqb (code c) 133
   || N.eqb (code c) 160)%bool.

(** [str.isdigit] on one character: decimal digits and the superscript
    digits of Latin-1. *)
Definition isdigit (c : ascii) : bool :=
  (between 48 57 c || N.eqb (code c) 178 || N.eqb (code c) 179
   || N.eqb (code c) 185)%bool.

Definition isalpha (c : ascii) : bool :=
  (between 65 90 c || between 97 122 c || N.eqb (code c) 170
   || N.eqb (code c) 181 || N.eqb (code c) 186 || between 192 214 c
   || between 216 246 c || between 248 255 c)%bool.

(** [str.isalnum]: alphabetic, decimal, digit or numeric. *)
Definition isalnum (c : ascii) : bool :=
  (isalpha c || isdigit c || between 188 190 c)%bool.

(** [c in s] for a one-character [c]. *)
Fixpoint char_in (c : ascii) (s : string) : bool :=
  match s with
  | EmptyString => false
  | String d r => (Ascii.eqb c d || char_in c r)%bool
  end.

Fixpoint str_all (p : ascii -> bool) (s : string) : bool :=
  match s with
  | EmptyString => true
  | String c r => (p c && str_all p r)%bool
  end.

Definition is_empty (s : string) : bool :=
  match s with EmptyString => true | _ => false end.

(** [s.isspace()]: at least one character and all of them whitespace. *)
Definition str_isspace (s : string) : bool :=
  (negb (is_empty s) && str_all isspace s)%bool.

(** [sub in s]. *)
Fixpoint str_contains (sub s : string) : bool :=
  if String.prefix sub s then true
  else match s with
       | EmptyString => false
       | String _ r => str_contains sub r
       end.

(** [s.count(sub)] for a non-empty [sub]: non-overlapping occurrences,
    scanning from the left. [skip] is the number of characters of the last
    match still to be passed over. *)
Fixpoint count_from (sub : string) (skip : nat) (s : string) : nat :=
  match s with
  | EmptyString => O
  | String _ r =>
      match skip with
      | S k => count_from sub k r
      | O => if String.prefix sub s
             then S (count_from sub (Nat.pred (String.length sub)) r)
             else count_from sub O r
      end
  end.
Definition str_count (s sub : string) : nat := count_from sub O s.

(** [s.replace(old, new)] for a non-empty [old]. *)
Fixpoint replace_from (old new : string) (skip : nat) (s : string) : string :=
  match s with
  | EmptyString => EmptyString
  | String c r =>
      match skip with
      | S k => replace_from old new k r
      | O => if String.prefix old s
             then new +:+ replace_from old new (Nat.pred (String.length old)) r
             else String c (replace_from old new O r)
      end
  end.
Definition str_replace (s old new : string) : string := replace_from old new O s.

(** [s.split(sep)] for a non-empty [sep]; [cur] is the piece being read. *)
Fixpoint split_from (sep : string) (skip : nat) (cur : string) (s : string)
  : list string :=
  match s with
  | EmptyString => [cur]
  | String c r =>
      match skip with
      | S k => split_from sep k cur r
      | O => if String.prefix sep s
             then cur :: split_from sep (Nat.pred (String.length sep)) EmptyString r
             else split_from sep O (cur +:+ String c EmptyString) r
      end
  end.
Definition str_split (s sep : string) : list string :=
  split_from sep O EmptyString s.

Fixpoint lstrip (s : string) : string :=
  match s with
  | EmptyString => EmptyString
  | String c r => if isspace c then lstrip r else s
  end.

Fixpoint rstrip (s : string) : string :=
  match s with
  | EmptyString => EmptyString
  | String c r =>
      let r' := rstrip r in
      if (is_empty r' && isspace c)%bool then EmptyString else String c r'
  end.

(** [s.strip()]. *)
Definition str_strip (s : string) : string := rstrip (lstrip s).

End PyStr.
Export PyStr.

(* ===================================================================== *)
(** * parser.py                                                           *)
(* ===================================================================== *)

Module Parser.

(** An element of [composition]: a Python list of axis names, or the string
    ["_ellipsis_"] (the only string the parser ever appends). *)
Inductive comp_item : Type :=
| Axes (names : list string)
| EllipsisItem.

#[global] Instance comp_item_eq_dec : EqDecision comp_item.
Proof. solve_decision. Defined.

Definition is_list (i : comp_item) : bool :=
  match i with Axes _ => true | EllipsisItem => false end.

(** The attributes of a [ParsedExpression] object. *)
Record ParsedExpression : Type := mkParsed {
  has_ellipsis : bool;
  identifiers : gset string;
  composition : list comp_item;
  actual_dim_count : Z
}.

(** The tokenizer loop ([for char in expression]); [tokens] and
    [current_token] are the loop's two variables. *)
Fixpoint tokenize (expression : string) (tokens : list string)
         (current_token : string) : result (list string * string) :=
  match expression with
  | EmptyString => Ok (tokens, current_token)
  | String char rest =>
      if negb (isalnum char || char_in char "() _." || isspace char)
      then Raise (EinopsError (InvalidCharacter char))
      else if char_in char "() " then
        let tokens1 :=
          if negb (is_empty current_token) then tokens ++ [current_token]
          else tokens in
        let tokens2 :=
          if negb (Ascii.eqb char " ") then tokens1 ++ [String char EmptyString]
          else tokens1 in
        tokenize rest tokens2 EmptyString
      else tokenize rest tokens (current_token +:+ String char EmptyString)
  end.

Definition tokens_of (expression : string) : result (list string) :=
  do (tokens, current_token) <- tokenize expression [] EmptyString;
  Ok (if negb (is_empty current_token) then tokens ++ [current_token]
      else tokens).

(** The variables of the token loop: the local [bracket_group] and the
    three attributes it updates. *)
Record pstate : Type := mkPState {
  bracket_group : option (list string);
  st_identifiers : gset string;
  st_composition : list comp_item;
  st_actual_dim_count : Z
}.

Definition first_isdigit (name : string) : bool :=
  match name with
  | EmptyString => false
  | String c _ => isdigit c
  end.

(** The nested function [add_axis_name]. *)
Definition add_axis_name (name : string) (st : pstate) : result pstate :=
  if String.eqb name "_ellipsis_" then
    match bracket_group st with
    | Some _ => Raise (EinopsError EllipsisInsideParenthesis)
    | None =>
        Ok (mkPState None (st_identifiers st)
                     (st_composition st ++ [EllipsisItem])
                     (st_actual_dim_count st))
    end
  else if is_empty name then Raise (EinopsError EmptyAxisName)
  else if first_isdigit name then
    Raise (EinopsError (AxisNameStartsWithNumber name))
  else if negb (str_all (fun c => isalnum c || Ascii.eqb c "_")%bool name) then
    Raise (EinopsError (InvalidAxisName name))
  else
    match bracket_group st with
    | Some g =>
        Ok (mkPState (Some (g ++ [name])) ({[name]} ∪ st_identifiers st)
                     (st_composition st) (st_actual_dim_count st))
    | None =>
        Ok (mkPState None ({[name]} ∪ st_identifiers st)
                     (st_composition st ++ [Axes [name]])
                     (st_actual_dim_count st))
    end.

(** One iteration of [for token in tokens]. *)
Definition process_token (token : string) (st : pstate) : result pstate :=
  if String.eqb token "(" then
    match bracket_group st with
    | Some _ => Raise (EinopsError NestedParentheses)
    | None => Ok (mkPState (Some []) (st_identifiers st) (st_composition st)
                           (st_actual_dim_count st))
    end
  else if String.eqb token ")" then
    match bracket_group st with
    | None => Raise (EinopsError UnmatchedClosingParenthesis)
    | Some [] => Raise (EinopsError EmptyParentheses)
    | Some g => Ok (mkPState None (st_identifiers st)
                             (st_composition st ++ [Axes g])
                             (st_actual_dim_count st + 1))
    end
  else
    do st1 <- add_axis_name token st;
    Ok (match bracket_group st1 with
        | None => mkPState None (st_identifiers st1) (st_composition st1)
                           (st_actual_dim_count st1 + 1)
        | Some _ => st1
        end).

Fixpoint process_tokens (tokens : list string) (st : pstate) : result pstate :=
  match tokens with
  | [] => Ok st
  | token :: rest =>
      do st1 <- process_token token st;
      process_tokens rest st1
  end.

(** [ParsedExpression.__init__]. *)
Definition parse (expression : string) : result ParsedExpression :=
  if (is_empty expression || str_isspace expression)%bool
  then Raise (EinopsError ExpressionCannotBeEmpty)
  else
    do (expression1, ell) <-
       (if str_contains "..." expression then
          if (1 <? str_count expression "...")%nat
          then Raise (EinopsError MultipleEllipsis)
          else Ok (str_replace expression "..." "_ellipsis_", true)
        else Ok (expression, false));
    do tokens <- tokens_of expression1;
    do st <- process_tokens tokens (mkPState None ∅ [] 0);
    match bracket_group st with
    | Some _ => Raise (EinopsError UnclosedParenthesis)
    | None => Ok (mkParsed ell (st_identifiers st) (st_composition st)
                           (st_actual_dim_count st))
    end.

End Parser.
Export Parser.

(* ===================================================================== *)
(** * Python: sequences                                                   *)
(* ===================================================================== *)

Module PySeq.

(** [xs[i]] for a Python integer [i]: negative indices count from the end,
    anything outside [-len, len) raises [IndexError]. *)
Definition py_index {A} (xs : list A) (i : Z) : result A :=
  let n := Z.of_nat (length xs) in
  let j := if i <? 0 then i + n else i in
  if (j <? 0) || (n <=? j) then Raise IndexError
  else match xs !! Z.to_nat j with
       | Some x => Ok x
       | None => Raise IndexError
       end.

(** The bound of a slice, normalised as [slice.indices] does (step 1). *)
Definition clamp_bound (n i : Z) : Z :=
  if i <? 0 then Z.max (i + n) 0 else Z.min i n.

(** [xs[lo:hi]]. *)
Definition py_slice {A} (xs : list A) (lo hi : Z) : list A :=
  let n := Z.of_nat (length xs) in
  let lo' := clamp_bound n lo in
  let hi' := clamp_bound n hi in
  take (Z.to_nat (hi' - lo')) (drop (Z.to_nat lo') xs).

(** [list(range(lo, hi))]. *)
Definition py_range (lo hi : Z) : list Z :=
  map (fun k => lo + Z.of_nat k) (seq 0 (Z.to_nat (hi - lo))).

(** [d[k]] on a dictionary keyed by strings. *)
Definition dict_get {V} (d : gmap string V) (k : string) : result V :=
  match d !! k with
  | Some v => Ok v
  | None => Raise (KeyError k)
  end.

(** [k in d]. *)
Definition dict_mem {V} (d : gmap string V) (k : string) : bool :=
  match d !! k with Some _ => true | None => false end.

(** [xs.index(x)]: the first position of [x], [ValueError] when absent. *)
Fixpoint list_index {A} `{EqDecision A} (xs : list A) (x : A) : result nat :=
  match xs with
  | [] => Raise (ValueError NotInList)
  | y :: r => if decide (y = x) then Ok O
              else do i <- list_index r x; Ok (S i)
  end.

(** [a, b = xs]. *)
Definition unpack2 {A} (xs : list A) : result (A * A) :=
  match xs with
  | [a; b] => Ok (a, b)
  | [] | [_] => Raise (ValueError (NotEnoughValuesToUnpack 2 (length xs)))
  | _ => Raise (ValueError (TooManyValuesToUnpack 2 (length xs)))
  end.

(** [[f x for x in xs]] when [f] may raise: the first exception wins. *)
Fixpoint list_comp {A B} (f : A -> result B) (xs : list A) : result (list B) :=
  match xs with
  | [] => Ok []
  | x :: r => do y <- f x; do ys <- list_comp f r; Ok (y :: ys)
  end.

End PySeq.
Export PySeq.

(* ===================================================================== *)
(** * numpy: integer scalars and arrays                                   *)
(* ===================================================================== *)

Module Np.

(** Two's complement wrap-around of the 64-bit integer scalar [np.int64]. *)
Definition wrap64 (z : Z) : Z := (z + 2 ^ 63) mod 2 ^ 64 - 2 ^ 63.

Definition product (xs : list Z) : Z := fold_right Z.mul 1 xs.

(** [np.prod(tuple)] on integers of the [int64] range: the product is
    accumulated in [int64] and wraps around silently (for the empty tuple
    numpy answers the float [1.0], which compares as the integer 1). *)
Definition np_prod (xs : list Z) : Z := wrap64 (product xs).

(** [x % y] when [y] is a numpy integer scalar: floored remainder; a zero
    divisor yields 0 (numpy only emits a [RuntimeWarning]). *)
Definition np_mod (x y : Z) : Z := if y =? 0 then 0 else x mod y.

(** [x // y] when [y] is a numpy integer scalar: floored quotient; a zero
    divisor yields 0 (numpy only emits a [RuntimeWarning]). *)
Definition np_floordiv (x y : Z) : Z := if y =? 0 then 0 else x / y.

Section Arrays.
Context {A : Type}.

(** An array by its [shape] and its elements in row-major (C) order. *)
Record ndarray : Type := mkArray {
  shape : list nat;
  data : list A
}.

Definition size_of (sh : list nat) : nat := fold_right Nat.mul 1%nat sh.

(** The arrays numpy can build: as many elements as the shape says. *)
Definition wf (t : ndarray) : Prop := length (data t) = size_of (shape t).

(** [tensor.shape] as Python integers. *)
Definition shapeZ (t : ndarray) : list Z := map Z.of_nat (shape t).

(** [len(tensor.shape)]. *)
Definition ndim (t : ndarray) : Z := Z.of_nat (length (shape t)).

(** Row-major strides, in elements. *)
Fixpoint strides (sh : list nat) : list nat :=
  match sh with
  | [] => []
  | _ :: r => size_of r :: strides r
  end.

(** All multi-indices of a shape, in row-major order. *)
Fixpoint indices (sh : list nat) : list (list nat) :=
  match sh with
  | [] => [[]]
  | n :: r => flat_map (fun i => map (cons i) (indices r)) (seq 0 n)
  end.

(** The offset of a multi-index under given strides. *)
Fixpoint offset (idx st : list nat) : nat :=
  match idx, st with
  | i :: idx', s :: st' => (i * s + offset idx' st')%nat
  | _, _ => 0%nat
  end.

(** How [reshape] completes the requested shape (numpy's
    [_fix_unknown_dimension]): one negative entry is inferred from the
    element count, two are an error, and the counts must agree. *)
Definition fix_unknown_dimension (newshape : list Z) (size : nat)
  : result (list nat) :=
  let unknown := List.filter (fun d => d <? 0) newshape in
  let known := product (List.filter (fun d => negb (d <? 0)) newshape) in
  match unknown with
  | [] =>
      if known =? Z.of_nat size then Ok (map Z.to_nat newshape)
      else Raise (ValueError (ReshapeSizeMismatch (Z.of_nat size) newshape))
  | [_] =>
      if (known =? 0) || negb (Z.of_nat size mod known =? 0)
      then Raise (ValueError (ReshapeSizeMismatch (Z.of_nat size) newshape))
      else Ok (map (fun d => if d <? 0 then Z.to_nat (Z.of_nat size / known)
                             else Z.to_nat d) newshape)
  | _ => Raise (ValueError ReshapeSeveralUnknown)
  end.

(** [tensor.reshape(newshape)]: same elements in the same row-major order. *)
Definition reshape (t : ndarray) (newshape : list Z) : result ndarray :=
  do sh <- fix_unknown_dimension newshape (size_of (shape t));
  Ok (mkArray sh (data t)).

(** An axis of [transpose], normalised: negative axes count from the end. *)
Definition normalize_axis (n : nat) (a : Z) : result nat :=
  if (a <? - Z.of_nat n) || (Z.of_nat n <=? a)
  then Raise (ValueError (TransposeAxisOutOfBounds a n))
  else Ok (Z.to_nat (if a <? 0 then a + Z.of_nat n else a)).

Fixpoint has_dup (xs : list nat) : bool :=
  match xs with
  | [] => false
  | x :: r => (bool_decide (x ∈ r) || has_dup r)%bool
  end.

(** [tensor.transpose(axes)]: the axes must be a permutation of
    [0 .. ndim-1]; output axis [k] is input axis [axes[k]], i.e. shape and
    strides are permuted and the elements read out in row-major order. *)
Definition transpose (t : ndarray) (axes : list Z) : result ndarray :=
  let n := length (shape t) in
  if negb (length axes =? n)%nat
  then Raise (ValueError TransposeAxesDontMatch)
  else
    do perm <- list_comp (normalize_axis n) axes;
    if has_dup perm then Raise (ValueError TransposeRepeatedAxis)
    else
      let sh := map (fun a => nth a (shape t) 0%nat) perm in
      let st := map (fun a => nth a (strides (shape t)) 0%nat) perm in
      Ok (mkArray sh (omap (fun idx => data t !! offset idx st) (indices sh))).

End Arrays.
Arguments ndarray A : clear implicits.

End Np.
Export Np.

(* ===================================================================== *)
(** * funcs.py                                                            *)
(* ===================================================================== *)

Module Funcs.

Section Funcs.
Context {A : Type}.
Implicit Types (tensor : ndarray A) (shape_dict named_sizes : gmap string Z).

(** [sum(1 for x in composition[composition.index("_ellipsis_")+1:]
         if isinstance(x, list))]. *)
Definition lists_after_ellipsis (comp : list comp_item) : result Z :=
  do i <- list_index comp EllipsisItem;
  Ok (Z.of_nat (length (List.filter is_list (drop (S i) comp)))).

(** A multi-axis group of [_get_shape_dict] (lines 32-46). *)
Definition resolve_group (item : list string) (total_size : Z) shape_dict
  : result (gmap string Z) :=
  let unknown_dims := List.filter (fun dim => negb (dict_mem shape_dict dim)) item in
  match unknown_dims with
  | [] =>
      do sizes <- list_comp (dict_get shape_dict) item;
      let product := np_prod sizes in
      if negb (product =? total_size)
      then Raise (EinopsError (ShapeMismatchProduct item product total_size))
      else Ok shape_dict
  | [unknown] =>
      do known_dims <-
         list_comp (dict_get shape_dict) (List.filter (dict_mem shape_dict) item);
      let known_product := np_prod known_dims in
      if negb (np_mod total_size known_product =? 0)
      then Raise (EinopsError (CannotDivide total_size known_product))
      else Ok (<[unknown := np_floordiv total_size known_product]> shape_dict)
  | _ => Raise (EinopsError (CannotInferMultipleUnknown item))
  end.

(** One iteration of the loop of [_get_shape_dict]; the loop variables are
    [shape_dict] and [current_dim]. *)
Definition shape_step tensor (comp : list comp_item) (item : comp_item)
           (st : gmap string Z * Z) : result (gmap string Z * Z) :=
  let (shape_dict, current_dim) := st in
  match item with
  | Axes item =>
      do total_size <- py_index (shapeZ tensor) current_dim;
      match item with
      | [axis_name] =>
          match shape_dict !! axis_name with
          | None => Ok (<[axis_name := total_size]> shape_dict, current_dim + 1)
          | Some known =>
              if negb (known =? total_size)
              then Raise (EinopsError (InconsistentSize axis_name total_size known))
              else Ok (shape_dict, current_dim + 1)
          end
      | _ =>
          do shape_dict1 <- resolve_group item total_size shape_dict;
          Ok (shape_dict1, current_dim + 1)
      end
  | EllipsisItem =>
      do remaining_dims <- lists_after_ellipsis comp;
      let ellipsis_dims := ndim tensor - current_dim - remaining_dims in
      if ellipsis_dims <? 0
      then Raise (EinopsError PatternHasMoreDimensionsThanTensor)
      else Ok (shape_dict, current_dim + ellipsis_dims)
  end.

Fixpoint shape_loop tensor (comp items : list comp_item)
         (st : gmap string Z * Z) : result (gmap string Z * Z) :=
  match items with
  | [] => Ok st
  | item :: rest =>
      do st1 <- shape_step tensor comp item st;
      shape_loop tensor comp rest st1
  end.

Definition _get_shape_dict tensor (source_parsed : ParsedExpression)
           named_sizes : result (gmap string Z) :=
  do (shape_dict, _) <-
     shape_loop tensor (composition source_parsed)
                (composition source_parsed) (named_sizes, 0);
  Ok shape_dict.

(** The variables of the first loop of [_compute_output_shape];
    [ellipsis_dims] is unbound until an ellipsis has been met. *)
Record src_state : Type := mkSrc {
  intermediate_shape : list Z;
  source_positions : gmap string Z;
  current_dim : Z;
  ellipsis_dims : option (list Z)
}.

(** [intermediate_shape.append(shape_dict[axis]);
     source_positions[axis] = current_dim; current_dim += 1]. *)
Definition place_axis shape_dict (axis : string) (st : src_state)
  : result src_state :=
  do size <- dict_get shape_dict axis;
  Ok (mkSrc (intermediate_shape st ++ [size])
            (<[axis := current_dim st]> (source_positions st))
            (current_dim st + 1) (ellipsis_dims st)).

Fixpoint place_axes shape_dict (item : list string) (st : src_state)
  : result src_state :=
  match item with
  | [] => Ok st
  | axis :: rest =>
      do st1 <- place_axis shape_dict axis st;
      place_axes shape_dict rest st1
  end.

Definition source_step tensor (comp : list comp_item) shape_dict
           (item : comp_item) (st : src_state) : result src_state :=
  match item with
  | Axes [axis] => place_axis shape_dict axis st
  | Axes item => place_axes shape_dict item st
  | EllipsisItem =>
      let ellipsis_start := current_dim st in
      do remaining <- lists_after_ellipsis comp;
      let ellipsis_end := ndim tensor - remaining in
      Ok (mkSrc (intermediate_shape st
                   ++ py_slice (shapeZ tensor) ellipsis_start ellipsis_end)
                (source_positions st) ellipsis_end
                (Some (py_range ellipsis_start ellipsis_end)))
  end.

Fixpoint source_loop tensor (comp : list comp_item) shape_dict
         (items : list comp_item) (st : src_state) : result src_state :=
  match items with
  | [] => Ok st
  | item :: rest =>
      do st1 <- source_step tensor comp shape_dict item st;
      source_loop tensor comp shape_dict rest st1
  end.

(** One iteration of the second loop; the loop variables are [final_shape]
    and [permutation]. *)
Definition target_step tensor shape_dict (src : src_state) (item : comp_item)
           (st : list Z * list Z) : result (list Z * list Z) :=
  let (final_shape, permutation) := st in
  match item with
  | Axes [axis] =>
      if negb (dict_mem shape_dict axis)
      then Raise (EinopsError (UnknownDimension axis))
      else
        do size <- dict_get shape_dict axis;
        do pos <- dict_get (source_positions src) axis;
        Ok (final_shape ++ [size], permutation ++ [pos])
  | Axes item =>
      do sizes <- list_comp (dict_get shape_dict) item;
      let size := np_prod sizes in
      do positions <- list_comp (dict_get (source_positions src)) item;
      Ok (final_shape ++ [size], permutation ++ positions)
  | EllipsisItem =>
      match ellipsis_dims src with
      | None => Raise (UnboundLocalError "ellipsis_dims")
      | Some dims =>
          do sizes <- list_comp (py_index (shapeZ tensor)) dims;
          Ok (final_shape ++ sizes, permutation ++ dims)
      end
  end.

Fixpoint target_loop tensor shape_dict (src : src_state)
         (items : list comp_item) (st : list Z * list Z)
  : result (list Z * list Z) :=
  match items with
  | [] => Ok st
  | item :: rest =>
      do st1 <- target_step tensor shape_dict src item st;
      target_loop tensor shape_dict src rest st1
  end.

(** Returns [(intermediate_shape, final_shape, permutation)]. *)
Definition _compute_output_shape tensor (target_parsed source_parsed : ParsedExpression)
           shape_dict : result (list Z * list Z * list Z) :=
  do src <- source_loop tensor (composition source_parsed) shape_dict
                        (composition source_parsed) (mkSrc [] ∅ 0 None);
  do (final_shape, permutation) <-
     target_loop tensor shape_dict src (composition target_parsed) ([], []);
  if negb (np_prod (intermediate_shape src) =? np_prod final_shape)
  then Raise (EinopsError (CannotReshape (np_prod (intermediate_shape src))
                                         final_shape))
  else Ok (intermediate_shape src, final_shape, permutation).

(** [except ValueError as e: raise EinopsError("Cannot infer sizes: ...")]. *)
Definition on_infer_error (e : exn) : exn :=
  match e with
  | ValueError v => EinopsError (CannotInferSizes v)
  | _ => e
  end.

(** [except KeyError as e: raise EinopsError("Unknown dimension: ...")]. *)
Definition on_key_error (e : exn) : exn :=
  match e with
  | KeyError k => EinopsError (UnknownDimensionKey k)
  | _ => e
  end.

(** [except ValueError as e: raise EinopsError("Shape Mismatch: ...")]. *)
Definition on_shape_error (e : exn) : exn :=
  match e with
  | ValueError v => EinopsError (ShapeMismatch v)
  | _ => e
  end.

(** Lines 130-163 of [rearrange]: everything up to and including the call
    of [_compute_output_shape]. *)
Definition rearrange_plan tensor (pattern : string) named_sizes
  : result (list Z * list Z * list Z) :=
  if negb (str_contains "->" pattern)
  then Raise (EinopsError PatternMustContainArrow)
  else
    do (source, target) <- unpack2 (str_split pattern "->");
    do source_parsed <- parse (str_strip source);
    do target_parsed <- parse (str_strip target);
    let source_dims := actual_dim_count source_parsed in
    let source_dims :=
      if has_ellipsis source_parsed
      then source_dims + (ndim tensor - source_dims)
      else source_dims in
    if negb (source_dims =? ndim tensor) then
      if source_dims <? ndim tensor
      then Raise (EinopsError PatternRequiresFewerDimensions)
      else Raise (EinopsError PatternRequiresMoreDimensions)
    else
      do shape_dict <-
         try_except (_get_shape_dict tensor source_parsed named_sizes)
                    on_infer_error;
      let target_identifiers := identifiers target_parsed ∖ {["..."]} in
      let source_identifiers := identifiers source_parsed ∖ {["..."]} in
      let unknown_dims := target_identifiers ∖ source_identifiers in
      if negb (bool_decide (unknown_dims = ∅))
      then Raise (EinopsError (UnknownDimensions unknown_dims))
      else
        try_except
          (_compute_output_shape tensor target_parsed source_parsed shape_dict)
          on_key_error.

(** Lines 165-171 of [rearrange]: the reshape/transpose calls. *)
Definition perform tensor (plan : list Z * list Z * list Z)
  : result (ndarray A) :=
  let '(intermediate_shape, final_shape, permutation) := plan in
  try_except
    (if bool_decide (permutation
                     = py_range 0 (Z.of_nat (length permutation)))
     then reshape tensor final_shape
     else
       do t1 <- reshape tensor intermediate_shape;
       do t2 <- transpose t1 permutation;
       reshape t2 final_shape)
    on_shape_error.

Definition rearrange tensor (pattern : string) named_sizes
  : result (ndarray A) :=
  do plan <- rearrange_plan tensor pattern named_sizes;
  perform tensor plan.

End Funcs.

(** [np.zeros(shape)] and [np.arange(n).reshape(shape)]. *)
Definition zeros (sh : list nat) : ndarray Z :=
  mkArray sh (repeat 0 (size_of sh)).
Definition arange (sh : list nat) : ndarray Z :=
  mkArray sh (map Z.of_nat (seq 0 (size_of sh))).

End Funcs.
Export Funcs.


(* ===================================================================== *)
(** * Vocabulary of the properties                                        *)
(* ===================================================================== *)

(** The errors of [parser.py]. *)
Definition is_syntax_error (e : exn) : bool :=
  match e with
  | EinopsError m =>
      match m with
      | ExpressionCannotBeEmpty | MultipleEllipsis | InvalidCharacter _
      | EllipsisInsideParenthesis | EmptyAxisName | AxisNameStartsWithNumber _
      | InvalidAxisName _ | NestedParentheses | UnmatchedClosingParenthesis
      | EmptyParentheses | UnclosedParenthesis => true
      | _ => false
      end
  | _ => false
  end.

(** The axis names of a composition. *)
Definition item_names (i : comp_item) : list string :=
  match i with Axes names => names | EllipsisItem => [] end.

Definition comp_names (comp : list comp_item) : list string :=
  flat_map item_names comp.

(** The names recorded so far by the token loop: those of the composition
    and those of the group still open. *)
Definition state_names (st : pstate) : list string :=
  comp_names (st_composition st) ++ default [] (bracket_group st).

Definition names_recorded (st : pstate) : Prop :=
  forall x, x ∈ st_identifiers st <-> In x (state_names st).

(** The sizes of the axes of [item] that are already in the dictionary, in
    the order of [item]: the tuple [known_dims] of the source. *)
Definition known_sizes (shape_dict : gmap string Z) (item : list string)
  : list Z :=
  omap (fun dim => shape_dict !! dim) item.


(** The integers numpy holds as [int64]. *)
Definition in_int64 (z : Z) : Prop := - 2 ^ 63 <= z < 2 ^ 63.

(** The number of groups (Python lists) of a composition. *)
Definition named_groups (comp : list comp_item) : Z :=
  Z.of_nat (length (List.filter is_list comp)).

(** The two errors of the dimension-count check of [rearrange]. *)
Definition is_dimension_count_error (e : exn) : bool :=
  match e with
  | EinopsError PatternRequiresFewerDimensions
  | EinopsError PatternRequiresMoreDimensions => true
  | _ => false
  end.

(** The identifiers of one half of a pattern, as [rearrange] parses it (none
    if the half does not parse), and those of both halves. *)
Definition half_identifiers (half : string) : gset string :=
  match parse (str_strip half) with
  | Ok p => identifiers p
  | Raise _ => ∅
  end.

Definition pattern_identifiers (pattern : string) : gset string :=
  ⋃ (map half_identifiers (str_split pattern "->")).

(** A function applied to the value of a result. *)
Definition on_ok {A B} (f : A -> B) (r : result A) : result B :=
  match r with
  | Ok a => Ok (f a)
  | Raise e => Raise e
  end.

(** The exceptions the loop of [_get_shape_dict] can end with. *)
Definition is_resolver_error (e : exn) : bool :=
  match e with
  | IndexError | KeyError _ | ValueError NotInList => true
  | EinopsError m =>
      match m with
      | InconsistentSize _ _ _ | ShapeMismatchProduct _ _ _ | CannotDivide _ _
      | CannotInferMultipleUnknown _ | PatternHasMoreDimensionsThanTensor => true
      | _ => false
      end
  | _ => false
  end.

(** The three errors about an axis name that is not known. *)
Definition is_unknown_axis_error (e : exn) : bool :=
  match e with
  | EinopsError (UnknownDimensions _) | EinopsError (UnknownDimension _)
  | EinopsError (UnknownDimensionKey _) => true
  | _ => false
  end.

(** Nothing recorded by the first loop of [_compute_output_shape] is
    negative: the running dimension, the positions of the axes and the
    dimensions of the ellipsis. *)
Definition src_nonneg (st : src_state) : Prop :=
  0 <= current_dim st
  /\ (forall x p, source_positions st !! x = Some p -> 0 <= p)
  /\ (forall dims, ellipsis_dims st = Some dims -> Forall (fun p => 0 <= p) dims).

(** What [ParsedExpression] builds from three plain axis names. *)
Definition parsed3 (x y z : string) : ParsedExpression :=
  mkParsed false {[x; y; z]} [Axes [x]; Axes [y]; Axes [z]] 3.

(** What [add_axis_name] accepts as an axis name: not the ellipsis
    placeholder, not empty, not starting with a digit, only alphanumeric
    characters and underscores. *)
Definition valid_axis_name (name : string) : bool :=
  (negb (String.eqb name "_ellipsis_") && negb (is_empty name)
   && negb (first_isdigit name)
   && str_all (fun c => isalnum c || Ascii.eqb c "_") name)%bool.

(** A group of a composition is a non-empty list of valid names. *)
Definition well_formed_item (i : comp_item) : Prop :=
  match i with
  | Axes names => names <> [] /\ Forall (fun n => valid_axis_name n = true) names
  | EllipsisItem => True
  end.

(** The state of the token loop keeps to well-formed groups, and counts one
    dimension per element of the composition. *)
Definition pstate_ok (st : pstate) : Prop :=
  Forall well_formed_item (st_composition st)
  /\ Forall (fun n => valid_axis_name n = true) (default [] (bracket_group st))
  /\ st_actual_dim_count st = Z.of_nat (length (st_composition st)).

(** What a delimiter does to the tokenizer's variables: the pending token,
    if any, is appended to [tokens]. *)
Definition flush (tokens : list string) (current_token : string) : list string :=
  if negb (is_empty current_token) then tokens ++ [current_token] else tokens.

(** The built-in exceptions that [rearrange] lets through. *)
Definition is_builtin_leak (e : exn) : bool :=
  match e with
  | ValueError (TooManyValuesToUnpack _ _) | IndexError
  | UnboundLocalError _ => true
  | _ => false
  end.

(** The errors of [rearrange]'s three guarded regions that no input
    triggers: the two re-raising handlers of lines 150-151 and 162-163, and
    the "Unknown dimension" of line 102. *)
Definition is_dead_error (e : exn) : bool :=
  match e with
  | EinopsError (CannotInferSizes _) | EinopsError (UnknownDimension _)
  | EinopsError (UnknownDimensionKey _) => true
  | _ => false
  end.

(** What the loop of [_get_shape_dict] raises when it runs over the
    composition it was given. *)
Definition is_size_error (e : exn) : bool :=
  match e with
  | IndexError => true
  | EinopsError m =>
      match m with
      | InconsistentSize _ _ _ | ShapeMismatchProduct _ _ _ | CannotDivide _ _
      | CannotInferMultipleUnknown _ | PatternHasMoreDimensionsThanTensor => true
      | _ => false
      end
  | _ => false
  end.

(** What [_compute_output_shape] raises once the identifier check of
    [rearrange] has passed. *)
Definition is_planner_error (e : exn) : bool :=
  match e with
  | IndexError | UnboundLocalError _ | EinopsError (CannotReshape _ _) => true
  | _ => false
  end.

(** Everything recorded by the first loop of [_compute_output_shape] is a
    position of the intermediate shape built so far. *)
Definition src_bounded (st : src_state) : Prop :=
  let len := Z.of_nat (length (intermediate_shape st)) in
  0 <= current_dim st <= len
  /\ (forall x p, source_positions st !! x = Some p -> p < len)
  /\ (forall dims, ellipsis_dims st = Some dims -> Forall (fun p => p < len) dims).

(** The largest offset a multi-index can reach, given each axis as a pair
    (size, stride). *)
Definition max_offset (axes : list (nat * nat)) : nat :=
  fold_right (fun ax acc => (Nat.pred (fst ax) * snd ax + acc)%nat) 0%nat axes.

(** The characters an axis name is made of. *)
Definition is_name_char (c : ascii) : bool := (isalnum c || Ascii.eqb c "_")%bool.

(** The text of a pattern without ellipsis: the names of a group separated
    by single spaces, every group in parentheses, the groups separated by
    single spaces. *)
Fixpoint render_names (names : list string) : string :=
  match names with
  | [] => EmptyString
  | name :: rest =>
      name +:+ match rest with
               | [] => EmptyString
               | _ => " " +:+ render_names rest
               end
  end.

Fixpoint render_groups (groups : list (list string)) : string :=
  match groups with
  | [] => EmptyString
  | names :: rest =>
      "(" +:+ render_names names +:+ ")"
      +:+ match rest with
          | [] => EmptyString
          | _ => " " +:+ render_groups rest
          end
  end.

(** The tokens of that text. *)
Definition group_tokens (groups : list (list string)) : list string :=
  flat_map (fun names => "(" :: names ++ [")"]) groups.

(** At least one group, every group a non-empty list of valid names. *)
Definition well_formed_groups (groups : list (list string)) : Prop :=
  groups <> [] /\ Forall (fun names => well_formed_item (Axes names)) groups.

(** Line 169 of [rearrange], the expression used when the permutation is
    not the identity sequence:
    [tensor.reshape(intermediate_shape).transpose(permutation).reshape(final_shape)]. *)
Definition general_path {A} (tensor : ndarray A)
           (intermediate_shape final_shape permutation : list Z)
  : result (ndarray A) :=
  do t1 <- reshape tensor intermediate_shape;
  do t2 <- transpose t1 permutation;
  reshape t2 final_shape.
(* ===================================================================== *)
(** * Properties of the pattern splitting and of the parser               *)
(* ===================================================================== *)

Section SplitFacts.

Lemma split_from_length sep skip cur s :
  length (split_from sep skip cur s) = S (count_from sep skip s).
Proof.
  revert skip cur.
  induction s as [|c r IH]; intros skip cur; simpl; [reflexivity|].
  destruct skip as [|k]; [|apply IH].
  destruct sep as [|c0 sep0]; simpl.
  - now rewrite IH.
  - destruct (Ascii.ascii_dec c0 c); simpl; [|apply IH].
    destruct (String.prefix sep0 r); simpl; now rewrite IH.
Qed.

Lemma str_contains_cons sub c r :
  str_contains sub (String c r)
  = if String.prefix sub (String c r) then true else str_contains sub r.
Proof. reflexivity. Qed.

Lemma count_from_cons sub c r :
  count_from sub O (String c r)
  = if String.prefix sub (String c r)
    then S (count_from sub (Nat.pred (String.length sub)) r)
    else count_from sub O r.
Proof. reflexivity. Qed.

Lemma count_from_contains sub skip s :
  (0 < count_from sub skip s)%nat -> str_contains sub s = true.
Proof.
  revert skip.
  induction s as [|c r IH]; intros skip; [simpl; lia|].
  rewrite str_contains_cons.
  destruct skip as [|k].
  - rewrite count_from_cons.
    destruct (String.prefix sub (String c r)); [reflexivity | apply IH].
  - change (count_from sub (S k) (String c r)) with (count_from sub k r).
    intros H. rewrite (IH k H). now destruct (String.prefix sub (String c r)).
Qed.

End SplitFacts.

(** ** C3: patterns with more than one arrow *)

(** C3 (the code departs from the claim). A pattern with two or more
    occurrences of ["->"] does not make [rearrange] raise its own
    [EinopsError]: [pattern.split('->')] yields three or more pieces and the
    unpacking [source, target = ...] raises the built-in [ValueError],
    before any parsing, for every tensor and every [named_sizes]. *)
Theorem rearrange_two_arrows_value_error
  {A} (tensor : ndarray A) (pattern : string) (named_sizes : gmap string Z) :
  (2 <= str_count pattern "->")%nat ->
  rearrange tensor pattern named_sizes
  = Raise (ValueError (TooManyValuesToUnpack 2 (S (str_count pattern "->")))).
Proof.
  intros Hcount.
  unfold rearrange, rearrange_plan.
  rewrite (count_from_contains "->" O pattern) by (unfold str_count in Hcount; lia).
  simpl negb. cbv iota.
  pose proof (split_from_length "->" O EmptyString pattern) as Hlen.
  fold (str_split pattern "->") in Hlen. fold (str_count pattern "->") in Hlen.
  destruct (str_split pattern "->") as [|x [|y [|z l]]] eqn:Hs;
    simpl in Hlen; try lia.
  simpl. now rewrite <- Hlen.
Qed.

Lemma rearrange_two_arrows_value_error_witness :
  (2 <= str_count "a -> b -> c" "->")%nat
  /\ rearrange (zeros [2; 3; 4]%nat) "a -> b -> c" ∅
     = Raise (ValueError (TooManyValuesToUnpack 2 3)).
Proof.
  split; [vm_compute; lia|].
  apply (rearrange_two_arrows_value_error (zeros [2; 3; 4]%nat) "a -> b -> c" ∅).
  vm_compute; lia.
Defined.

(* ===================================================================== *)
(** * Properties of the parser                                            *)
(* ===================================================================== *)

Section ParserFacts.

Lemma tokenize_raise expression tokens current e :
  tokenize expression tokens current = Raise e -> is_syntax_error e = true.
Proof.
  revert tokens current.
  induction expression as [|c r IH]; intros tokens current; simpl; [discriminate|].
  repeat case_match; try (intros [= <-]; reflexivity); apply IH.
Qed.

Lemma add_axis_name_raise name st e :
  add_axis_name name st = Raise e -> is_syntax_error e = true.
Proof.
  unfold add_axis_name.
  repeat case_match; try discriminate; intros [= <-]; reflexivity.
Qed.

Lemma process_token_raise token st e :
  process_token token st = Raise e -> is_syntax_error e = true.
Proof.
  unfold process_token.
  destruct (add_axis_name token st) eqn:Hadd; simpl;
    repeat case_match; try discriminate; intros [= <-];
    first [reflexivity | eapply add_axis_name_raise; eassumption].
Qed.

Lemma process_tokens_raise tokens st e :
  process_tokens tokens st = Raise e -> is_syntax_error e = true.
Proof.
  revert st. induction tokens as [|t r IH]; intros st; simpl; [discriminate|].
  destruct (process_token t st) eqn:Ht; simpl.
  - apply IH.
  - intros [= <-]. eapply process_token_raise; eassumption.
Qed.

Lemma parse_raise expression e :
  parse expression = Raise e -> is_syntax_error e = true.
Proof.
  unfold parse, tokens_of.
  destruct (is_empty expression || str_isspace expression)%bool;
    [intros [= <-]; reflexivity|].
  destruct (str_contains "..." expression);
    [destruct (1 <? str_count expression "...")%nat|]; simpl;
    try (intros [= <-]; reflexivity).
  all: match goal with
       | |- context [tokenize ?s [] EmptyString] =>
           destruct (tokenize s [] EmptyString) as [[tokens current]|e0] eqn:Htok
       end; simpl;
       [| intros [= <-]; eapply tokenize_raise; eassumption].
  all: match goal with
       | |- context [process_tokens ?t ?s] =>
           destruct (process_tokens t s) as [st|e0] eqn:Hproc
       end; simpl;
       [| intros [= <-]; eapply process_tokens_raise; eassumption].
  all: destruct (bracket_group st); [intros [= <-]; reflexivity | discriminate].
Qed.

Lemma comp_names_app c1 c2 : comp_names (c1 ++ c2) = comp_names c1 ++ comp_names c2.
Proof. apply flat_map_app. Qed.

Lemma add_axis_name_names name st st1 :
  add_axis_name name st = Ok st1 -> names_recorded st -> names_recorded st1.
Proof.
  unfold add_axis_name, names_recorded, state_names.
  repeat case_match; try discriminate; intros [= <-] Hrec x; simpl in *;
    rewrite ?comp_names_app; simpl; rewrite ?app_nil_r;
    rewrite ?elem_of_union, ?elem_of_singleton, ?Hrec, ?in_app_iff; simpl;
    rewrite ?app_nil_r, ?in_app_iff; simpl; intuition congruence.
Qed.

Lemma process_token_names token st st1 :
  process_token token st = Ok st1 -> names_recorded st -> names_recorded st1.
Proof.
  unfold process_token.
  destruct (String.eqb token "(").
  { destruct (bracket_group st) eqn:Hg; [discriminate|].
    intros [= <-]. unfold names_recorded, state_names. simpl.
    rewrite Hg. exact (fun H => H). }
  destruct (String.eqb token ")").
  { destruct (bracket_group st) as [[|y g]|] eqn:Hg; try discriminate.
    intros [= <-]. unfold names_recorded, state_names. simpl.
    rewrite Hg, comp_names_app. simpl. rewrite !app_nil_r. exact (fun H => H). }
  destruct (add_axis_name token st) as [st2|] eqn:Hadd; simpl; [|discriminate].
  intros [= <-] H. pose proof (add_axis_name_names _ _ _ Hadd H) as H2.
  destruct (bracket_group st2) eqn:Hg; [exact H2|].
  unfold names_recorded, state_names in *. simpl. now rewrite Hg in H2.
Qed.

Lemma process_tokens_names tokens st st1 :
  process_tokens tokens st = Ok st1 -> names_recorded st -> names_recorded st1.
Proof.
  revert st. induction tokens as [|t r IH]; intros st; simpl.
  - now intros [= <-].
  - destruct (process_token t st) eqn:Ht; simpl; [|discriminate].
    intros Hr Hst. eapply IH; [eassumption|].
    eapply process_token_names; eassumption.
Qed.

(** After a successful parse, [identifiers] holds exactly the names that
    occur in [composition]. *)
Lemma parse_identifiers expression p :
  parse expression = Ok p ->
  forall x, x ∈ identifiers p <-> In x (comp_names (composition p)).
Proof.
  unfold parse, tokens_of.
  destruct (is_empty expression || str_isspace expression)%bool; [discriminate|].
  destruct (str_contains "..." expression);
    [destruct (1 <? str_count expression "...")%nat|]; simpl; try discriminate.
  all: match goal with
       | |- context [tokenize ?s [] EmptyString] =>
           destruct (tokenize s [] EmptyString) as [[tokens current]|e0]
       end; simpl; [|discriminate].
  all: match goal with
       | |- context [process_tokens ?t ?s] =>
           destruct (process_tokens t s) as [st|e0] eqn:Hproc
       end; simpl; [|discriminate].
  all: destruct (bracket_group st) eqn:Hg; [discriminate|].
  all: intros [= <-] x; simpl.
  all: apply process_tokens_names in Hproc;
       [| intros y; unfold state_names; simpl; rewrite elem_of_empty; tauto].
  all: specialize (Hproc x); unfold state_names in Hproc;
       rewrite Hg in Hproc; simpl in Hproc; now rewrite app_nil_r in Hproc.
Qed.

End ParserFacts.

(** ** C4: whitespace other than the space character *)

(** C4 (the code departs from the claim). The tokenizer lets every
    whitespace character through its character check but closes a token
    only on ["("], [")"] and the space character: two names separated by any
    other whitespace character (a tab, a newline, ...) form one token, which
    is then rejected as an invalid axis name, whereas the space-separated
    form parses to two singleton groups. *)
Theorem parse_other_whitespace_rejected (c : ascii) :
  isspace c = true -> c <> " "%char ->
  parse (String "a" (String c "b"))
  = Raise (EinopsError (InvalidAxisName (String "a" (String c "b"))))
  /\ parse "a b" = Ok (mkParsed false {["a"; "b"]} [Axes ["a"]; Axes ["b"]] 2).
Proof.
  intros Hs Hc. split; [|vm_compute; reflexivity].
  destruct c as [[] [] [] [] [] [] [] []];
    first [ exfalso; apply Hc; reflexivity
          | vm_compute in Hs; discriminate Hs
          | vm_compute; reflexivity ].
Qed.

Lemma parse_other_whitespace_rejected_witness :
  parse (String "a" (String "009"%char "b"))
  = Raise (EinopsError (InvalidAxisName (String "a" (String "009"%char "b"))))
  /\ parse "a b" = Ok (mkParsed false {["a"; "b"]} [Axes ["a"]; Axes ["b"]] 2).
Proof.
  apply (parse_other_whitespace_rejected "009"%char);
    [vm_compute; reflexivity | discriminate].
Defined.

(** ** C1: exceptions other than [EinopsError] *)

(** C1 (the code departs from the claim). With no named sizes at all,
    [rearrange] lets built-in exceptions through: a source pattern with an
    ellipsis after more groups than the tensor has dimensions indexes
    [tensor.shape] out of range ([IndexError]), and an ellipsis that occurs
    only in the target reads the unassigned local [ellipsis_dims]
    ([UnboundLocalError]). Neither is an [EinopsError]. *)
Theorem rearrange_raises_builtin_exceptions :
  rearrange (zeros [2; 3]%nat) "a b c ... -> a b c" ∅ = Raise IndexError
  /\ rearrange (zeros [2; 3]%nat) "a b -> a ... b" ∅
     = Raise (UnboundLocalError "ellipsis_dims")
  /\ is_einops_error IndexError = false
  /\ is_einops_error (UnboundLocalError "ellipsis_dims") = false.
Proof. repeat split; vm_compute; reflexivity. Qed.

(* ===================================================================== *)
(** * Properties of the shape resolver                                    *)
(* ===================================================================== *)

Section ResolverFacts.

Lemma wrap64_small z : - 2 ^ 63 <= z < 2 ^ 63 -> wrap64 z = z.
Proof.
  intros Hz. unfold wrap64.
  rewrite Z.mod_small by lia. lia.
Qed.


Lemma product_zero xs : In 0 xs -> product xs = 0.
Proof.
  induction xs as [|x xs IH]; simpl; [tauto|].
  intros [->|H]; [reflexivity|]. rewrite IH by assumption. lia.
Qed.

Lemma list_comp_known (shape_dict : gmap string Z) item :
  list_comp (dict_get shape_dict) (List.filter (dict_mem shape_dict) item)
  = Ok (known_sizes shape_dict item).
Proof.
  induction item as [|x item IH]; [reflexivity|].
  unfold known_sizes in *. simpl. unfold dict_mem at 1.
  destruct (shape_dict !! x) as [v|] eqn:Hx; simpl; [|exact IH].
  unfold dict_get at 1. rewrite Hx. simpl. now rewrite IH.
Qed.

Lemma known_sizes_elem (shape_dict : gmap string Z) item x v :
  In x item -> shape_dict !! x = Some v -> In v (known_sizes shape_dict item).
Proof.
  intros Hin Hx. unfold known_sizes.
  apply list_elem_of_In, list_elem_of_omap. exists x.
  split; [now apply list_elem_of_In | exact Hx].
Qed.

End ResolverFacts.

(** ** C7: one unknown axis in a multi-axis group *)




(** ** C10: a zero among the known sizes of a group *)

(** C10, the claim as stated fails: with [a=0] on an array of shape [(6,8)]
    and ["(a b) c -> a b c"] the call does not raise [ZeroDivisionError]; it
    raises the program's own [EinopsError]. *)
Lemma zero_size_is_not_zero_division :
  rearrange (zeros [6; 8]%nat) "(a b) c -> a b c" {["a" := 0]}
  <> Raise ZeroDivisionError
  /\ exists m, rearrange (zeros [6; 8]%nat) "(a b) c -> a b c" {["a" := 0]}
               = Raise (EinopsError m).
Proof.
  split; [vm_compute; discriminate | eexists; vm_compute; reflexivity].
Qed.

(** C10, amended. The values of [named_sizes] are never validated to be
    positive. When a known axis of a multi-axis source group has size 0 (all
    known sizes being in the [int64] range), the known product is a numpy
    integer 0, for which [%] and [//] answer 0 instead of raising: the
    single unknown axis of the group is bound to 0 and the resolver raises
    no error. On shape [(6,8)] with ["(a b) c -> a b c"] and [a=0] the
    resolver returns [{a:0, b:0, c:8}] and the call fails only at the final
    [reshape], whose [ValueError] is wrapped into the "Shape Mismatch"
    [EinopsError]. *)
Theorem zero_known_size_binds_zero :
  (forall item total (shape_dict : gmap string Z) u x,
      List.filter (fun dim => negb (dict_mem shape_dict dim)) item = [u] ->
      Forall in_int64 (known_sizes shape_dict item) ->
      In x item -> shape_dict !! x = Some 0 ->
      resolve_group item total shape_dict = Ok (<[u := 0]> shape_dict))
  /\ (exists src, parse "(a b) c" = Ok src
        /\ _get_shape_dict (zeros [6; 8]%nat) src {["a" := 0]}
           = Ok (<["c" := 8]> (<["b" := 0]> {["a" := 0]})))
  /\ rearrange (zeros [6; 8]%nat) "(a b) c -> a b c" {["a" := 0]}
     = Raise (EinopsError (ShapeMismatch (ReshapeSizeMismatch 48 [0; 0; 8]))).
Proof.
  split; [|split; [eexists; split; [vm_compute; reflexivity|]
                  |]; vm_compute; reflexivity].
  intros item total shape_dict u x Hunk _ Hin Hx.
  unfold resolve_group. rewrite Hunk, list_comp_known. simpl.
  unfold np_prod.
  rewrite (product_zero _ (known_sizes_elem _ _ _ _ Hin Hx)).
  change (wrap64 0) with 0. reflexivity.
Qed.

Lemma zero_known_size_binds_zero_witness :
  resolve_group ["a"; "b"] 6 {["a" := 0]} = Ok (<["b" := 0]> {["a" := 0]}).
Proof.
  apply (proj1 zero_known_size_binds_zero ["a"; "b"] 6 {["a" := 0]} "b" "a").
  - vm_compute; reflexivity.
  - replace (known_sizes {["a" := 0]} ["a"; "b"]) with [0]
      by (vm_compute; reflexivity).
    constructor; [unfold in_int64; lia | constructor].
  - simpl; auto.
  - vm_compute; reflexivity.
Defined.

(* ===================================================================== *)
(** * The resolver against the rank of the tensor                         *)
(* ===================================================================== *)

Section RankFacts.
Context {A : Type}.
Implicit Types (tensor : ndarray A) (shape_dict : gmap string Z).

Lemma syntax_error_not_dimension_count e :
  is_syntax_error e = true -> is_dimension_count_error e = false.
Proof. destruct e as [[]| | | | |]; simpl; congruence. Qed.

Lemma py_index_raise {B} (xs : list B) i e :
  py_index xs i = Raise e -> e = IndexError.
Proof. unfold py_index. repeat case_match; congruence. Qed.

Lemma py_index_ok {B} (xs : list B) i x :
  py_index xs i = Ok x -> - Z.of_nat (length xs) <= i < Z.of_nat (length xs).
Proof. unfold py_index. repeat case_match; try discriminate; lia. Qed.

Lemma list_comp_dict_get_raise {V} (d : gmap string V) xs e :
  list_comp (dict_get d) xs = Raise e -> exists k, e = KeyError k.
Proof.
  induction xs as [|x xs IH]; simpl; [discriminate|].
  unfold dict_get at 1. destruct (d !! x); simpl.
  - destruct (list_comp (dict_get d) xs); simpl; [discriminate|].
    intros [= <-]. now apply IH.
  - intros [= <-]. now exists x.
Qed.

Lemma list_index_raise (comp : list comp_item) x e :
  list_index comp x = Raise e -> e = ValueError NotInList.
Proof.
  induction comp as [|y comp IH]; simpl; [congruence|].
  destruct (decide (y = x)); [discriminate|].
  destruct (list_index comp x); simpl; [discriminate|].
  intros [= <-]. now apply IH.
Qed.

Lemma lists_after_ellipsis_raise comp e :
  lists_after_ellipsis comp = Raise e -> e = ValueError NotInList.
Proof.
  unfold lists_after_ellipsis.
  destruct (list_index comp EllipsisItem) eqn:Hi; simpl; [discriminate|].
  intros [= <-]. eapply list_index_raise; eassumption.
Qed.

(** The position of the first ellipsis of a composition. *)
Lemma list_index_first pre rest :
  ~ In EllipsisItem pre ->
  list_index (pre ++ EllipsisItem :: rest) EllipsisItem = Ok (length pre).
Proof.
  induction pre as [|y pre IH]; simpl; intros Hpre.
  - now destruct (decide (EllipsisItem = EllipsisItem)).
  - destruct (decide (y = EllipsisItem)) as [->|_]; [tauto|].
    rewrite IH by tauto. reflexivity.
Qed.

Lemma drop_past_middle {B} (pre : list B) x rest :
  drop (S (length pre)) (pre ++ x :: rest) = rest.
Proof. induction pre as [|y pre IH]; simpl; [reflexivity | exact IH]. Qed.

Lemma lists_after_ellipsis_first pre rest :
  ~ In EllipsisItem pre ->
  lists_after_ellipsis (pre ++ EllipsisItem :: rest) = Ok (named_groups rest).
Proof.
  intros Hpre. unfold lists_after_ellipsis.
  rewrite list_index_first by assumption. simpl.
  rewrite drop_past_middle. reflexivity.
Qed.

Lemma resolve_group_raise item total shape_dict e :
  resolve_group item total shape_dict = Raise e -> is_resolver_error e = true.
Proof.
  unfold resolve_group.
  destruct (List.filter _ item) as [|u [|u' l]]; try (intros [= <-]; reflexivity).
  - destruct (list_comp (dict_get shape_dict) item) eqn:Hm; simpl.
    + case_match; [intros [= <-]; reflexivity | discriminate].
    + intros [= <-]. apply list_comp_dict_get_raise in Hm as [k ->]. reflexivity.
  - destruct (list_comp (dict_get shape_dict) _) eqn:Hm; simpl.
    + case_match; [intros [= <-]; reflexivity | discriminate].
    + intros [= <-]. apply list_comp_dict_get_raise in Hm as [k ->]. reflexivity.
Qed.

Lemma shape_step_raise tensor comp item st e :
  shape_step tensor comp item st = Raise e -> is_resolver_error e = true.
Proof.
  destruct st as [shape_dict cd]. unfold shape_step.
  destruct item as [item|].
  - destruct (py_index (shapeZ tensor) cd) eqn:Hi; simpl.
    + destruct item as [|x [|y item]].
      * destruct (resolve_group [] a shape_dict) eqn:Hr; simpl; [discriminate|].
        intros [= <-]. eapply resolve_group_raise; eassumption.
      * repeat case_match; try discriminate; intros [= <-]; reflexivity.
      * destruct (resolve_group _ a shape_dict) eqn:Hr; simpl; [discriminate|].
        intros [= <-]. eapply resolve_group_raise; eassumption.
    + intros [= <-]. apply py_index_raise in Hi as ->. reflexivity.
  - destruct (lists_after_ellipsis comp) eqn:Hl; simpl.
    + case_match; [intros [= <-]; reflexivity | discriminate].
    + intros [= <-]. apply lists_after_ellipsis_raise in Hl as ->. reflexivity.
Qed.

Lemma shape_loop_cons tensor comp item items st :
  shape_loop tensor comp (item :: items) st
  = do st1 <- shape_step tensor comp item st; shape_loop tensor comp items st1.
Proof. reflexivity. Qed.

Lemma shape_loop_raise tensor comp items st e :
  shape_loop tensor comp items st = Raise e -> is_resolver_error e = true.
Proof.
  revert st. induction items as [|item items IH]; intros st; simpl; [discriminate|].
  destruct (shape_step tensor comp item st) eqn:Hs; simpl; [apply IH|].
  intros [= <-]. eapply shape_step_raise; eassumption.
Qed.

Lemma resolver_error_not_dimension_count e :
  is_resolver_error e = true ->
  is_dimension_count_error (on_infer_error e) = false.
Proof. destruct e as [[]|[]| | | |]; simpl; congruence. Qed.

Lemma resolver_error_not_unknown_axis e :
  is_resolver_error e = true ->
  is_unknown_axis_error (on_infer_error e) = false.
Proof. destruct e as [[]|[]| | | |]; simpl; congruence. Qed.

(** A step on a group advances [current_dim] by one and needs a dimension
    to read. *)
Lemma shape_step_axes tensor comp item shape_dict cd shape_dict1 cd1 :
  shape_step tensor comp (Axes item) (shape_dict, cd) = Ok (shape_dict1, cd1) ->
  0 <= cd -> cd1 = cd + 1 /\ cd < ndim tensor.
Proof.
  unfold shape_step.
  destruct (py_index (shapeZ tensor) cd) eqn:Hi; simpl; [|discriminate].
  apply py_index_ok in Hi. unfold shapeZ in Hi. rewrite length_map in Hi.
  unfold ndim. intros H Hcd.
  split; [|lia].
  unfold bind in H.
  destruct item as [|x [|y item]];
    repeat (case_match; simpl in *; try discriminate); congruence.
Qed.

(** With more groups than the tensor has dimensions, and the first ellipsis
    (if any) still ahead, the loop of [_get_shape_dict] cannot complete. *)
Lemma shape_loop_too_many_groups tensor comp items pre shape_dict cd :
  comp = pre ++ items -> ~ In EllipsisItem pre ->
  0 <= cd <= ndim tensor -> ndim tensor < cd + named_groups items ->
  exists e, shape_loop tensor comp items (shape_dict, cd) = Raise e.
Proof.
  revert pre shape_dict cd.
  induction items as [|item items IH]; intros pre shape_dict cd Hcomp Hpre Hcd Hmany.
  - unfold named_groups in Hmany. simpl in Hmany. lia.
  - rewrite shape_loop_cons. destruct item as [item|].
    + destruct (shape_step tensor comp (Axes item) (shape_dict, cd))
        as [[d1 cd1]|e] eqn:Hs; simpl; [|eauto].
      apply shape_step_axes in Hs as [-> Hlt]; [|lia].
      apply (IH (pre ++ [Axes item])).
      * rewrite <- app_assoc. exact Hcomp.
      * rewrite in_app_iff. simpl. intros [H|[H|[]]]; [tauto | discriminate].
      * lia.
      * unfold named_groups in *. simpl in Hmany. lia.
    + unfold shape_step. subst comp.
      rewrite lists_after_ellipsis_first by assumption. simpl.
      unfold named_groups in *. simpl in Hmany.
      case_match; [eauto | lia].
Qed.

End RankFacts.

(* ===================================================================== *)
(** * Size hints that name no axis of the pattern                         *)
(* ===================================================================== *)

Section ExtraKey.
Context {A : Type}.
Variables (k : string) (v : Z).
Implicit Types (tensor : ndarray A) (shape_dict : gmap string Z).

Lemma dict_mem_extra shape_dict x :
  x <> k -> dict_mem (<[k := v]> shape_dict) x = dict_mem shape_dict x.
Proof. intros Hx. unfold dict_mem. now rewrite lookup_insert_ne. Qed.

Lemma dict_get_extra shape_dict x :
  x <> k -> dict_get (<[k := v]> shape_dict) x = dict_get shape_dict x.
Proof. intros Hx. unfold dict_get. now rewrite lookup_insert_ne. Qed.

Lemma list_comp_ext {B C} (f g : B -> result C) xs :
  (forall x, In x xs -> f x = g x) -> list_comp f xs = list_comp g xs.
Proof.
  induction xs as [|x xs IH]; intros H; simpl; [reflexivity|].
  rewrite (H x) by (simpl; auto). rewrite IH by (intros; apply H; simpl; auto).
  reflexivity.
Qed.

Lemma list_comp_get_extra shape_dict xs :
  ~ In k xs ->
  list_comp (dict_get (<[k := v]> shape_dict)) xs
  = list_comp (dict_get shape_dict) xs.
Proof.
  intros Hk. apply list_comp_ext. intros x Hx.
  apply dict_get_extra. intros ->. contradiction.
Qed.

Lemma filter_ext_in {B} (f g : B -> bool) xs :
  (forall x, In x xs -> f x = g x) -> List.filter f xs = List.filter g xs.
Proof.
  induction xs as [|x xs IH]; intros H; simpl; [reflexivity|].
  rewrite (H x) by (simpl; auto). rewrite IH by (intros; apply H; simpl; auto).
  reflexivity.
Qed.

Lemma resolve_group_extra item total shape_dict :
  ~ In k item ->
  resolve_group item total (<[k := v]> shape_dict)
  = on_ok (insert k v) (resolve_group item total shape_dict).
Proof.
  intros Hk. unfold resolve_group.
  rewrite list_comp_get_extra by assumption.
  rewrite (filter_ext_in (fun dim => negb (dict_mem (<[k := v]> shape_dict) dim))
                         (fun dim => negb (dict_mem shape_dict dim)))
    by (intros x Hx; rewrite dict_mem_extra; [reflexivity | intros ->; contradiction]).
  rewrite (filter_ext_in (dict_mem (<[k := v]> shape_dict)) (dict_mem shape_dict))
    by (intros x Hx; rewrite dict_mem_extra; [reflexivity | intros ->; contradiction]).
  destruct (List.filter (fun dim => negb (dict_mem shape_dict dim)) item)
    as [|u [|u' l]] eqn:Hunk; [| |reflexivity].
  - destruct (list_comp (dict_get shape_dict) item); simpl; [|reflexivity].
    now case_match.
  - rewrite list_comp_get_extra
      by (intros Hin; apply filter_In in Hin as [Hin _]; contradiction).
    destruct (list_comp (dict_get shape_dict) _); simpl; [|reflexivity].
    case_match; simpl; [reflexivity|].
    assert (Hu : u <> k).
    { intros ->. apply Hk.
      assert (Hin : In k (List.filter (fun dim => negb (dict_mem shape_dict dim)) item))
        by (rewrite Hunk; simpl; auto).
      now apply filter_In in Hin as [Hin _]. }
    now rewrite insert_insert_ne.
Qed.

Lemma shape_step_extra tensor comp item shape_dict cd :
  ~ In k (item_names item) ->
  shape_step tensor comp item (<[k := v]> shape_dict, cd)
  = on_ok (fun st => (<[k := v]> (fst st), snd st))
          (shape_step tensor comp item (shape_dict, cd)).
Proof.
  intros Hk. unfold shape_step. destruct item as [item|]; simpl in Hk.
  - destruct (py_index (shapeZ tensor) cd) as [total|]; simpl; [|reflexivity].
    assert (Hgroup :
      (do d1 <- resolve_group item total (<[k := v]> shape_dict); Ok (d1, cd + 1))
      = on_ok (fun st => (<[k := v]> (fst st), snd st))
              (do d1 <- resolve_group item total shape_dict; Ok (d1, cd + 1))).
    { rewrite resolve_group_extra by assumption.
      now destruct (resolve_group item total shape_dict). }
    destruct item as [|x [|y item]]; try exact Hgroup.
    rewrite lookup_insert_ne by (intros ->; apply Hk; simpl; auto).
    destruct (shape_dict !! x); simpl.
    + now case_match.
    + rewrite insert_insert_ne by (intros ->; apply Hk; simpl; auto).
      reflexivity.
  - destruct (lists_after_ellipsis comp); simpl; [|reflexivity].
    now case_match.
Qed.

Lemma shape_loop_extra tensor comp items shape_dict cd :
  ~ In k (comp_names items) ->
  shape_loop tensor comp items (<[k := v]> shape_dict, cd)
  = on_ok (fun st => (<[k := v]> (fst st), snd st))
          (shape_loop tensor comp items (shape_dict, cd)).
Proof.
  revert shape_dict cd.
  induction items as [|item items IH]; intros shape_dict cd Hk; [reflexivity|].
  unfold comp_names in Hk. simpl in Hk. rewrite in_app_iff in Hk.
  rewrite !shape_loop_cons, shape_step_extra by tauto.
  destruct (shape_step tensor comp item (shape_dict, cd)) as [[d1 cd1]|];
    simpl; [|reflexivity].
  apply IH. unfold comp_names. tauto.
Qed.

Lemma get_shape_dict_extra tensor src named_sizes :
  ~ In k (comp_names (composition src)) ->
  _get_shape_dict tensor src (<[k := v]> named_sizes)
  = on_ok (insert k v) (_get_shape_dict tensor src named_sizes).
Proof.
  intros Hk. unfold _get_shape_dict. rewrite shape_loop_extra by assumption.
  now destruct (shape_loop tensor (composition src) (composition src)
                           (named_sizes, 0)) as [[d1 cd1]|].
Qed.

Lemma place_axes_extra shape_dict item st :
  ~ In k item ->
  place_axes (<[k := v]> shape_dict) item st = place_axes shape_dict item st.
Proof.
  revert st. induction item as [|x item IH]; intros st Hk; [reflexivity|].
  simpl in Hk. cbn [place_axes]. unfold place_axis.
  rewrite dict_get_extra by (intros ->; tauto).
  destruct (dict_get shape_dict x); simpl; [|reflexivity].
  apply IH. tauto.
Qed.

Lemma source_loop_extra tensor comp shape_dict items st :
  ~ In k (comp_names items) ->
  source_loop tensor comp (<[k := v]> shape_dict) items st
  = source_loop tensor comp shape_dict items st.
Proof.
  revert st. induction items as [|item items IH]; intros st Hk; [reflexivity|].
  unfold comp_names in Hk. simpl in Hk. rewrite in_app_iff in Hk.
  assert (Hstep : source_step tensor comp (<[k := v]> shape_dict) item st
                  = source_step tensor comp shape_dict item st).
  { destruct item as [[|x [|y item]]|]; simpl in *; try reflexivity.
    - unfold place_axis. rewrite dict_get_extra by (intros ->; tauto). reflexivity.
    - apply (place_axes_extra shape_dict (x :: y :: item)). simpl. tauto. }
  simpl. rewrite Hstep.
  destruct (source_step tensor comp shape_dict item st); simpl; [|reflexivity].
  apply IH. unfold comp_names. tauto.
Qed.

Lemma target_loop_extra tensor shape_dict src items st :
  ~ In k (comp_names items) ->
  target_loop tensor (<[k := v]> shape_dict) src items st
  = target_loop tensor shape_dict src items st.
Proof.
  revert st. induction items as [|item items IH]; intros st Hk; [reflexivity|].
  unfold comp_names in Hk. simpl in Hk. rewrite in_app_iff in Hk.
  assert (Hstep : target_step tensor (<[k := v]> shape_dict) src item st
                  = target_step tensor shape_dict src item st).
  { destruct st as [final_shape permutation].
    destruct item as [[|x [|y item]]|]; simpl in *; try reflexivity.
    - rewrite dict_mem_extra, dict_get_extra by (intros ->; tauto). reflexivity.
    - rewrite !dict_get_extra by (intros ->; tauto).
      rewrite list_comp_get_extra by tauto. reflexivity. }
  simpl. rewrite Hstep.
  destruct (target_step tensor shape_dict src item st); simpl; [|reflexivity].
  apply IH. unfold comp_names. tauto.
Qed.

Lemma compute_output_shape_extra tensor tgt src shape_dict :
  ~ In k (comp_names (composition src)) ->
  ~ In k (comp_names (composition tgt)) ->
  _compute_output_shape tensor tgt src (<[k := v]> shape_dict)
  = _compute_output_shape tensor tgt src shape_dict.
Proof.
  intros Hs Ht. unfold _compute_output_shape.
  rewrite source_loop_extra by assumption.
  destruct (source_loop _ _ _ _ _) as [st|]; simpl; [|reflexivity].
  rewrite target_loop_extra by assumption. reflexivity.
Qed.

End ExtraKey.

(** ** C8: unused size hints *)

(** C8. Adding to [named_sizes] a key that is an identifier of neither half
    of the pattern, with any value, does not change the result of
    [rearrange]: the same array is returned or the same exception raised. *)
Theorem rearrange_ignores_unused_size
  {A} (tensor : ndarray A) (pattern : string) (named_sizes : gmap string Z)
  (k : string) (v : Z) :
  k ∉ pattern_identifiers pattern ->
  rearrange tensor pattern (<[k := v]> named_sizes)
  = rearrange tensor pattern named_sizes.
Proof.
  intros Hk. unfold rearrange. f_equal.
  unfold rearrange_plan.
  destruct (str_contains "->" pattern); simpl; [|reflexivity].
  unfold pattern_identifiers in Hk.
  destruct (str_split pattern "->") as [|source [|target [|x l]]]; try reflexivity.
  simpl in Hk. unfold half_identifiers in Hk. simpl.
  destruct (parse (str_strip source)) as [src|] eqn:Hsrc; simpl; [|reflexivity].
  destruct (parse (str_strip target)) as [tgt|] eqn:Htgt; simpl; [|reflexivity].
  assert (Hks : ~ In k (comp_names (composition src))).
  { rewrite <- (parse_identifiers _ _ Hsrc). set_solver. }
  assert (Hkt : ~ In k (comp_names (composition tgt))).
  { rewrite <- (parse_identifiers _ _ Htgt). set_solver. }
  rewrite get_shape_dict_extra by assumption.
  destruct (_get_shape_dict tensor src named_sizes) as [shape_dict|];
    simpl; [|reflexivity].
  repeat case_match; try reflexivity.
  all: rewrite compute_output_shape_extra by assumption; reflexivity.
Qed.

Lemma rearrange_ignores_unused_size_witness :
  rearrange (arange [2; 3; 4]%nat) "a b c -> c (a b)" (<["d" := 5]> ∅)
  = rearrange (arange [2; 3; 4]%nat) "a b c -> c (a b)" ∅.
Proof.
  apply (rearrange_ignores_unused_size (arange [2; 3; 4]%nat) "a b c -> c (a b)"
           ∅ "d" 5).
  vm_compute. discriminate.
Defined.

(* ===================================================================== *)
(** * Which names the dictionaries hold                                   *)
(* ===================================================================== *)

Section DomainFacts.
Context {A : Type}.
Implicit Types (tensor : ndarray A) (shape_dict : gmap string Z).

Lemma filter_nil_all {B} (f : B -> bool) xs x :
  List.filter f xs = [] -> In x xs -> f x = false.
Proof.
  intros Hnil Hin. destruct (f x) eqn:Hf; [|reflexivity].
  assert (H : In x (List.filter f xs)) by (apply filter_In; auto).
  rewrite Hnil in H. destruct H.
Qed.

Lemma dict_mem_is_Some {V} (d : gmap string V) x :
  dict_mem d x = true <-> is_Some (d !! x).
Proof.
  unfold dict_mem. destruct (d !! x); split; intros H; eauto; try discriminate.
  now destruct H.
Qed.

Lemma resolve_group_ok_dom item total shape_dict d1 :
  resolve_group item total shape_dict = Ok d1 ->
  (forall x, is_Some (shape_dict !! x) -> is_Some (d1 !! x))
  /\ (forall x, In x item -> is_Some (d1 !! x)).
Proof.
  unfold resolve_group.
  destruct (List.filter _ item) as [|u [|u' l]] eqn:Hunk; [| |discriminate].
  - destruct (list_comp (dict_get shape_dict) item); simpl; [|discriminate].
    case_match; [discriminate|]. intros [= <-]. split; [auto|].
    intros x Hx. apply dict_mem_is_Some.
    pose proof (filter_nil_all _ _ x Hunk Hx) as Hf. simpl in Hf.
    now destruct (dict_mem shape_dict x).
  - destruct (list_comp (dict_get shape_dict) _); simpl; [|discriminate].
    case_match; [discriminate|]. intros [= <-]. split.
    + intros x Hx. rewrite lookup_insert_is_Some. destruct (decide (u = x)); auto.
    + intros x Hx. rewrite lookup_insert_is_Some.
      destruct (decide (u = x)) as [|Hne]; [auto|]. right. split; [assumption|].
      apply dict_mem_is_Some. destruct (dict_mem shape_dict x) eqn:Hm; [reflexivity|].
      assert (Hin : In x (List.filter (fun dim => negb (dict_mem shape_dict dim)) item))
        by (apply filter_In; rewrite Hm; auto).
      rewrite Hunk in Hin. simpl in Hin. destruct Hin as [->|[]]. contradiction.
Qed.

Lemma shape_step_ok_dom tensor comp item shape_dict cd d1 cd1 :
  shape_step tensor comp item (shape_dict, cd) = Ok (d1, cd1) ->
  (forall x, is_Some (shape_dict !! x) -> is_Some (d1 !! x))
  /\ (forall x, In x (item_names item) -> is_Some (d1 !! x)).
Proof.
  unfold shape_step. destruct item as [item|]; simpl.
  - destruct (py_index (shapeZ tensor) cd) as [total|]; simpl; [|discriminate].
    assert (Hgroup :
      (do d2 <- resolve_group item total shape_dict; Ok (d2, cd + 1)) = Ok (d1, cd1) ->
      (forall x, is_Some (shape_dict !! x) -> is_Some (d1 !! x))
      /\ (forall x, In x item -> is_Some (d1 !! x))).
    { destruct (resolve_group item total shape_dict) eqn:Hr; simpl; [|discriminate].
      intros [= <- <-]. eapply resolve_group_ok_dom; eassumption. }
    destruct item as [|x [|y item]]; try exact Hgroup.
    destruct (shape_dict !! x) as [known|] eqn:Hx.
    + case_match; [discriminate|]. intros [= <- <-]. split; [auto|].
      intros z [<-|[]]. rewrite Hx. eauto.
    + intros [= <- <-]. split.
      * intros z Hz. rewrite lookup_insert_is_Some. destruct (decide (x = z)); auto.
      * intros z [<-|[]]. rewrite lookup_insert_eq. eauto.
  - destruct (lists_after_ellipsis comp); simpl; [|discriminate].
    case_match; [discriminate|]. intros [= <- <-]. split; [auto | intros x []].
Qed.

Lemma shape_loop_ok_dom tensor comp items shape_dict cd d1 cd1 :
  shape_loop tensor comp items (shape_dict, cd) = Ok (d1, cd1) ->
  (forall x, is_Some (shape_dict !! x) -> is_Some (d1 !! x))
  /\ (forall x, In x (comp_names items) -> is_Some (d1 !! x)).
Proof.
  revert shape_dict cd.
  induction items as [|item items IH]; intros shape_dict cd.
  - simpl. intros [= <- <-]. split; [auto | intros x []].
  - rewrite shape_loop_cons.
    destruct (shape_step tensor comp item (shape_dict, cd)) as [[d2 cd2]|] eqn:Hs;
      simpl; [|discriminate].
    intros Hl. apply shape_step_ok_dom in Hs as [Hmono Hitem].
    apply IH in Hl as [Hmono' Hitems]. split; [auto|].
    intros x Hx. unfold comp_names in Hx. simpl in Hx.
    apply in_app_iff in Hx as [Hx|Hx]; auto.
Qed.

Lemma get_shape_dict_ok_dom tensor src named_sizes shape_dict :
  _get_shape_dict tensor src named_sizes = Ok shape_dict ->
  forall x, In x (comp_names (composition src)) -> is_Some (shape_dict !! x).
Proof.
  unfold _get_shape_dict.
  destruct (shape_loop tensor _ _ _) as [[d1 cd1]|] eqn:Hl; simpl; [|discriminate].
  intros [= <-]. eapply shape_loop_ok_dom; eassumption.
Qed.

Lemma dict_get_is_Some {V} (d : gmap string V) x :
  is_Some (d !! x) -> exists y, dict_get d x = Ok y.
Proof. intros [y Hy]. exists y. unfold dict_get. now rewrite Hy. Qed.

Lemma list_comp_dict_get_ok {V} (d : gmap string V) xs :
  (forall x, In x xs -> is_Some (d !! x)) ->
  exists ys, list_comp (dict_get d) xs = Ok ys.
Proof.
  induction xs as [|x xs IH]; intros H; simpl; [eauto|].
  destruct (dict_get_is_Some d x) as [y ->]; [apply H; simpl; auto|].
  destruct IH as [ys ->]; [intros; apply H; simpl; auto|].
  simpl. eauto.
Qed.

(** The first loop of [_compute_output_shape], when the dictionary holds the
    names it meets: positions are recorded for all of them and [KeyError]
    cannot occur. *)
Lemma place_axes_present shape_dict item st :
  (forall x, In x item -> is_Some (shape_dict !! x)) ->
  exists st1, place_axes shape_dict item st = Ok st1
    /\ (forall x, is_Some (source_positions st !! x) ->
                  is_Some (source_positions st1 !! x))
    /\ (forall x, In x item -> is_Some (source_positions st1 !! x)).
Proof.
  revert st. induction item as [|x item IH]; intros st H.
  - exists st. simpl. split; [reflexivity|]. split; [auto | intros x []].
  - cbn [place_axes]. unfold place_axis.
    destruct (dict_get_is_Some shape_dict x) as [y ->]; [apply H; simpl; auto|].
    simpl.
    destruct (IH (mkSrc (intermediate_shape st ++ [y])
                        (<[x := current_dim st]> (source_positions st))
                        (current_dim st + 1) (ellipsis_dims st)))
      as [st1 [-> [Hmono Hitem]]]; [intros; apply H; simpl; auto|].
    exists st1. split; [reflexivity|]. simpl in Hmono. split.
    + intros z Hz. apply Hmono. rewrite lookup_insert_is_Some.
      destruct (decide (x = z)); auto.
    + intros z [<-|Hz]; [|auto]. apply Hmono. rewrite lookup_insert_eq. eauto.
Qed.

Lemma source_step_axes shape_dict tensor comp item st :
  source_step tensor comp shape_dict (Axes item) st = place_axes shape_dict item st.
Proof.
  destruct item as [|x [|y item]]; try reflexivity.
  simpl. now destruct (place_axis shape_dict x st).
Qed.

Lemma source_loop_present tensor comp shape_dict items st :
  (forall x, In x (comp_names items) -> is_Some (shape_dict !! x)) ->
  match source_loop tensor comp shape_dict items st with
  | Ok st1 =>
      (forall x, is_Some (source_positions st !! x) ->
                 is_Some (source_positions st1 !! x))
      /\ (forall x, In x (comp_names items) -> is_Some (source_positions st1 !! x))
  | Raise e => e = ValueError NotInList
  end.
Proof.
  revert st. induction items as [|item items IH]; intros st H.
  - simpl. split; [auto | intros x []].
  - unfold comp_names in H. simpl in H. cbn [source_loop].
    destruct item as [item|].
    + rewrite source_step_axes.
      destruct (place_axes_present shape_dict item st) as [st1 [-> [Hmono Hitem]]];
        [intros; apply H, in_app_iff; auto|].
      simpl. specialize (IH st1).
      destruct (source_loop tensor comp shape_dict items st1);
        [|apply IH; intros; apply H, in_app_iff; auto].
      destruct IH as [Hmono' Hitems]; [intros; apply H, in_app_iff; auto|].
      split; [auto|]. intros x Hx. unfold comp_names in Hx. simpl in Hx.
      apply in_app_iff in Hx as [Hx|Hx]; auto.
    + unfold source_step.
      destruct (lists_after_ellipsis comp) eqn:Hl; simpl.
      * match goal with |- context [source_loop _ _ _ _ ?s] => specialize (IH s) end.
        destruct (source_loop tensor comp shape_dict items _);
          [|apply IH; intros; apply H; auto].
        destruct IH as [Hmono' Hitems]; [intros; apply H; auto|].
        split; [auto|]. intros x Hx. apply Hitems. exact Hx.
      * eapply lists_after_ellipsis_raise; eassumption.
Qed.

Lemma target_step_present tensor shape_dict src item st e :
  (forall x, In x (item_names item) ->
             is_Some (shape_dict !! x) /\ is_Some (source_positions src !! x)) ->
  target_step tensor shape_dict src item st = Raise e ->
  is_unknown_axis_error (on_key_error e) = false.
Proof.
  intros H. destruct st as [final_shape permutation]. unfold target_step.
  destruct item as [item|].
  - simpl in H.
    destruct (list_comp_dict_get_ok shape_dict item) as [sizes Hsizes];
      [intros; now apply H|].
    destruct (list_comp_dict_get_ok (source_positions src) item) as [ps Hps];
      [intros; now apply H|].
    destruct item as [|x [|y item]].
    + rewrite Hsizes, Hps. discriminate.
    + destruct (H x) as [Hd Hp]; [simpl; auto|].
      apply dict_mem_is_Some in Hd as Hm. rewrite Hm. simpl.
      destruct (dict_get_is_Some _ _ Hd) as [s ->].
      destruct (dict_get_is_Some _ _ Hp) as [p ->]. discriminate.
    + rewrite Hsizes, Hps. discriminate.
  - destruct (ellipsis_dims src); [|intros [= <-]; reflexivity].
    destruct (list_comp (py_index (shapeZ tensor)) l) eqn:Hc; simpl; [discriminate|].
    intros [= <-]. clear -Hc. revert Hc.
    induction l as [|d l IH]; simpl; [discriminate|].
    destruct (py_index (shapeZ tensor) d) eqn:Hi; simpl.
    + destruct (list_comp (py_index (shapeZ tensor)) l); simpl; [discriminate|].
      intros [= <-]. now apply IH.
    + intros [= <-]. apply py_index_raise in Hi as ->. reflexivity.
Qed.

Lemma target_loop_present tensor shape_dict src items st e :
  (forall x, In x (comp_names items) ->
             is_Some (shape_dict !! x) /\ is_Some (source_positions src !! x)) ->
  target_loop tensor shape_dict src items st = Raise e ->
  is_unknown_axis_error (on_key_error e) = false.
Proof.
  revert st. induction items as [|item items IH]; intros st H; [discriminate|].
  unfold comp_names in H. simpl in H. cbn [target_loop].
  destruct (target_step tensor shape_dict src item st) eqn:Hs; simpl.
  - apply IH. intros; apply H, in_app_iff; auto.
  - intros [= <-]. eapply target_step_present; [|eassumption].
    intros; apply H, in_app_iff; auto.
Qed.

Lemma compute_output_shape_present tensor tgt src shape_dict e :
  (forall x, In x (comp_names (composition src)) -> is_Some (shape_dict !! x)) ->
  (forall x, In x (comp_names (composition tgt)) ->
             In x (comp_names (composition src))) ->
  _compute_output_shape tensor tgt src shape_dict = Raise e ->
  is_unknown_axis_error (on_key_error e) = false.
Proof.
  intros Hsrc Hsub. unfold _compute_output_shape.
  pose proof (source_loop_present tensor (composition src) shape_dict
                (composition src) (mkSrc [] ∅ 0 None) Hsrc) as Hloop.
  destruct (source_loop _ _ _ _ _) as [st|e0]; simpl.
  - destruct Hloop as [_ Hpos].
    destruct (target_loop tensor shape_dict st (composition tgt) ([], []))
      as [[final_shape permutation]|e1] eqn:Ht; simpl.
    + case_match; [intros [= <-]; reflexivity | discriminate].
    + intros [= <-]. eapply target_loop_present; [|eassumption].
      intros x Hx. split; [apply Hsrc | apply Hpos]; auto.
  - intros [= <-]. subst e0. reflexivity.
Qed.

Lemma reshape_raise tensor newshape e :
  reshape tensor newshape = Raise e -> exists v, e = ValueError v.
Proof.
  unfold reshape, fix_unknown_dimension.
  repeat case_match; simpl; try discriminate; intros [= <-]; eauto.
Qed.

Lemma list_comp_normalize_raise n axes e :
  list_comp (normalize_axis n) axes = Raise e -> exists v, e = ValueError v.
Proof.
  induction axes as [|a axes IH]; simpl; [discriminate|].
  unfold normalize_axis at 1. case_match; simpl; [intros [= <-]; eauto|].
  destruct (list_comp (normalize_axis n) axes); simpl; [discriminate|].
  intros [= <-]. now apply IH.
Qed.

Lemma transpose_raise tensor axes e :
  transpose tensor axes = Raise e -> exists v, e = ValueError v.
Proof.
  unfold transpose. case_match; [intros [= <-]; eauto|].
  destruct (list_comp (normalize_axis _) axes) eqn:Hc; simpl.
  - case_match; [intros [= <-]; eauto | discriminate].
  - intros [= <-]. eapply list_comp_normalize_raise; eassumption.
Qed.

Lemma perform_raise tensor plan e :
  perform tensor plan = Raise e -> exists v, e = EinopsError (ShapeMismatch v).
Proof.
  destruct plan as [[inter final] perm]. unfold perform.
  assert (Hwrap : forall r : result (ndarray A),
             (forall e0, r = Raise e0 -> exists v, e0 = ValueError v) ->
             try_except r on_shape_error = Raise e ->
             exists v, e = EinopsError (ShapeMismatch v)).
  { intros r Hr. destruct r as [|e0]; simpl; [discriminate|].
    destruct (Hr e0 eq_refl) as [v ->]. intros [= <-]. eauto. }
  case_match; apply Hwrap.
  - apply reshape_raise.
  - intros e0.
    destruct (reshape tensor inter) as [t1|] eqn:H1; simpl;
      [|intros [= <-]; eapply reshape_raise; eassumption].
    destruct (transpose t1 perm) as [t2|] eqn:H2; simpl;
      [|intros [= <-]; eapply transpose_raise; eassumption].
    apply reshape_raise.
Qed.

End DomainFacts.

(** ** C9: the identifier check is one-directional *)

(** C9. The only identifier check of [rearrange] compares the target's
    identifiers with the source's: whenever the target's identifiers are
    included in the source's, no error about an unknown axis is raised,
    whatever source axes the target leaves out. Such a call can succeed and
    drop the axis (["a b -> a"] on shape [(2,1)] returns shape [(2,)]), or
    fail later in the element-count check (the same pattern on shape
    [(2,3)]). *)
Theorem identifier_check_one_directional :
  (forall {A} (tensor : ndarray A) pattern source target named_sizes src tgt e,
      str_split pattern "->" = [source; target] ->
      parse (str_strip source) = Ok src ->
      parse (str_strip target) = Ok tgt ->
      identifiers tgt ⊆ identifiers src ->
      rearrange tensor pattern named_sizes = Raise e ->
      is_unknown_axis_error e = false)
  /\ (exists r, rearrange (zeros [2; 1]%nat) "a b -> a" ∅ = Ok r
                /\ shape r = [2]%nat)
  /\ rearrange (zeros [2; 3]%nat) "a b -> a" ∅
     = Raise (EinopsError (CannotReshape 6 [2])).
Proof.
  split; [|split; [eexists; split; [vm_compute; reflexivity | reflexivity]
                  | vm_compute; reflexivity]].
  intros A tensor pattern source target named_sizes src tgt e
         Hsplit Hsrc Htgt Hsub.
  unfold rearrange, rearrange_plan.
  destruct (str_contains "->" pattern); simpl; [|intros [= <-]; reflexivity].
  rewrite Hsplit. simpl. rewrite Hsrc, Htgt. simpl.
  match goal with
  | |- context [if negb ?c then _ else _] => destruct (negb c)
  end; [case_match; intros [= <-]; reflexivity|].
  destruct (_get_shape_dict tensor src named_sizes) as [shape_dict|e0] eqn:Hd.
  2:{ simpl. intros [= <-]. apply resolver_error_not_unknown_axis.
      unfold _get_shape_dict in Hd.
      destruct (shape_loop tensor _ _ _) as [[d1 cd1]|e1] eqn:Hl; [discriminate|].
      simpl in Hd. injection Hd as <-. eapply shape_loop_raise; eassumption. }
  simpl.
  assert (Hempty : identifiers tgt ∖ {["..."]} ∖ (identifiers src ∖ {["..."]}) = ∅).
  { apply set_eq. intros x. rewrite !elem_of_difference, elem_of_empty.
    pose proof (Hsub x). tauto. }
  rewrite Hempty. rewrite bool_decide_eq_true_2 by reflexivity. simpl.
  destruct (_compute_output_shape tensor tgt src shape_dict) as [plan|e1] eqn:Hc;
    simpl.
  - intros Hp. apply perform_raise in Hp as [v ->]. reflexivity.
  - intros [= <-].
    eapply compute_output_shape_present; [| |eassumption].
    + eapply get_shape_dict_ok_dom; eassumption.
    + intros x Hx. apply (parse_identifiers _ _ Hsrc).
      apply Hsub. now apply (parse_identifiers _ _ Htgt).
Qed.

Lemma identifier_check_one_directional_witness :
  is_unknown_axis_error (EinopsError (CannotReshape 6 [2])) = false.
Proof.
  apply (proj1 identifier_check_one_directional Z (zeros [2; 3]%nat) "a b -> a"
           "a b " " a" ∅
           (mkParsed false {["a"; "b"]} [Axes ["a"]; Axes ["b"]] 2)
           (mkParsed false {["a"]} [Axes ["a"]] 1)).
  - vm_compute; reflexivity.
  - vm_compute; reflexivity.
  - vm_compute; reflexivity.
  - apply (bool_decide_unpack _). vm_compute. exact I.
  - vm_compute; reflexivity.
Defined.

(* ===================================================================== *)
(** * The permutation of a successful call                                *)
(* ===================================================================== *)

Section PermutationFacts.
Context {A : Type}.
Implicit Types (tensor : ndarray A) (shape_dict : gmap string Z).

Lemma list_index_ok_in (comp : list comp_item) x i :
  list_index comp x = Ok i -> In x comp.
Proof.
  revert i. induction comp as [|y comp IH]; intros i; simpl; [discriminate|].
  destruct (decide (y = x)); [auto|].
  destruct (list_index comp x); simpl; [|discriminate]. eauto.
Qed.

Lemma lists_after_ellipsis_ok_in comp r :
  lists_after_ellipsis comp = Ok r -> In EllipsisItem comp.
Proof.
  unfold lists_after_ellipsis.
  destruct (list_index comp EllipsisItem) eqn:Hi; simpl; [|discriminate].
  intros _. eapply list_index_ok_in; eassumption.
Qed.

(** If the resolver completes a composition with an ellipsis, the groups
    after the ellipsis are no more than the dimensions of the tensor. *)
Lemma shape_loop_ok_ellipsis tensor comp items shape_dict cd st1 r :
  0 <= cd -> In EllipsisItem items -> lists_after_ellipsis comp = Ok r ->
  shape_loop tensor comp items (shape_dict, cd) = Ok st1 -> r <= ndim tensor.
Proof.
  intros Hcd Hin Hr. revert shape_dict cd Hcd Hin.
  induction items as [|item items IH]; intros shape_dict cd Hcd Hin; [destruct Hin|].
  rewrite shape_loop_cons.
  destruct (shape_step tensor comp item (shape_dict, cd)) as [[d1 cd1]|] eqn:Hs;
    simpl; [|discriminate].
  destruct item as [item|].
  - apply shape_step_axes in Hs as [-> _]; [|assumption].
    apply IH; [lia|]. destruct Hin as [Hin|Hin]; [discriminate | assumption].
  - intros _. unfold shape_step in Hs. rewrite Hr in Hs. simpl in Hs.
    destruct (ndim tensor - cd - r <? 0) eqn:Hlt; [discriminate|].
    apply Z.ltb_ge in Hlt. lia.
Qed.

Lemma py_range_nonneg lo hi : 0 <= lo -> Forall (fun p => 0 <= p) (py_range lo hi).
Proof.
  intros Hlo. unfold py_range. apply List.Forall_forall. intros p Hp.
  apply in_map_iff in Hp as [k [<- _]]. lia.
Qed.

Lemma place_axis_nonneg shape_dict axis st st1 :
  place_axis shape_dict axis st = Ok st1 -> src_nonneg st -> src_nonneg st1.
Proof.
  unfold place_axis. destruct (dict_get shape_dict axis); simpl; [|discriminate].
  intros [= <-] (Hcd & Hpos & Hdims). repeat split; simpl; [lia| |assumption].
  intros x p. rewrite lookup_insert. case_decide; [intros [= <-]; lia | apply Hpos].
Qed.

Lemma place_axes_nonneg shape_dict item st st1 :
  place_axes shape_dict item st = Ok st1 -> src_nonneg st -> src_nonneg st1.
Proof.
  revert st. induction item as [|x item IH]; intros st; cbn [place_axes].
  - now intros [= <-].
  - destruct (place_axis shape_dict x st) eqn:Hp; simpl; [|discriminate].
    intros H Hst. eapply IH; [eassumption|]. eapply place_axis_nonneg; eassumption.
Qed.

Lemma source_loop_nonneg tensor comp shape_dict items st st1 :
  (forall r, lists_after_ellipsis comp = Ok r -> r <= ndim tensor) ->
  source_loop tensor comp shape_dict items st = Ok st1 ->
  src_nonneg st -> src_nonneg st1.
Proof.
  intros Hr. revert st.
  induction items as [|item items IH]; intros st; cbn [source_loop].
  - now intros [= <-].
  - destruct (source_step tensor comp shape_dict item st) as [st2|] eqn:Hs;
      simpl; [|discriminate].
    intros Hl Hst. apply (IH st2 Hl). clear Hl IH.
    destruct item as [item|].
    + rewrite source_step_axes in Hs. eapply place_axes_nonneg; eassumption.
    + unfold source_step in Hs.
      destruct (lists_after_ellipsis comp) as [r|] eqn:Hl; simpl in Hs; [|discriminate].
      injection Hs as <-. destruct Hst as (Hcd & Hpos & _).
      specialize (Hr r eq_refl). repeat split; simpl; [lia | assumption|].
      intros dims [= <-]. now apply py_range_nonneg.
Qed.

Lemma list_comp_dict_get_nonneg (d : gmap string Z) xs ps :
  (forall x p, d !! x = Some p -> 0 <= p) ->
  list_comp (dict_get d) xs = Ok ps -> Forall (fun p => 0 <= p) ps.
Proof.
  intros Hd. revert ps. induction xs as [|x xs IH]; intros ps; simpl.
  - intros [= <-]. constructor.
  - unfold dict_get at 1. destruct (d !! x) as [p|] eqn:Hx; simpl; [|discriminate].
    destruct (list_comp (dict_get d) xs); simpl; [|discriminate].
    intros [= <-]. constructor; eauto.
Qed.

Lemma target_loop_nonneg tensor shape_dict src items final perm final1 perm1 :
  src_nonneg src ->
  target_loop tensor shape_dict src items (final, perm) = Ok (final1, perm1) ->
  Forall (fun p => 0 <= p) perm -> Forall (fun p => 0 <= p) perm1.
Proof.
  intros (_ & Hpos & Hdims). revert final perm.
  induction items as [|item items IH]; intros final perm; cbn [target_loop].
  - now intros [= <- <-].
  - destruct (target_step tensor shape_dict src item (final, perm))
      as [[final2 perm2]|] eqn:Hs; simpl; [|discriminate].
    intros Hl Hperm. apply (IH _ _ Hl). clear Hl IH.
    unfold target_step in Hs. destruct item as [[|x [|y item]]|].
    + destruct (list_comp (dict_get shape_dict) []); simpl in Hs; [|discriminate].
      injection Hs as <- <-. now rewrite app_nil_r.
    + destruct (negb (dict_mem shape_dict x)); [discriminate|].
      destruct (dict_get shape_dict x); simpl in Hs; [|discriminate].
      unfold dict_get in Hs.
      destruct (source_positions src !! x) as [p|] eqn:Hx; simpl in Hs; [|discriminate].
      injection Hs as <- <-. apply Forall_app. split; [assumption|].
      constructor; [eauto | constructor].
    + unfold bind in Hs.
      destruct (list_comp (dict_get shape_dict) (x :: y :: item)); [|discriminate].
      destruct (list_comp (dict_get (source_positions src)) (x :: y :: item))
        as [ps|] eqn:Hps; [|discriminate].
      injection Hs as <- <-. apply Forall_app. split; [assumption|].
      eapply list_comp_dict_get_nonneg; eassumption.
    + destruct (ellipsis_dims src) as [dims|] eqn:Hd; [|discriminate].
      destruct (list_comp _ dims); simpl in Hs; [|discriminate].
      injection Hs as <- <-. apply Forall_app. split; [assumption | auto].
Qed.

(** What a successful [rearrange_plan] went through. *)
Lemma rearrange_plan_ok tensor pattern named_sizes plan :
  rearrange_plan tensor pattern named_sizes = Ok plan ->
  exists src tgt shape_dict,
    _get_shape_dict tensor src named_sizes = Ok shape_dict
    /\ _compute_output_shape tensor tgt src shape_dict = Ok plan.
Proof.
  unfold rearrange_plan.
  destruct (str_contains "->" pattern); simpl; [|discriminate].
  destruct (unpack2 (str_split pattern "->")) as [[source target]|]; simpl;
    [|discriminate].
  destruct (parse (str_strip source)) as [src|]; simpl; [|discriminate].
  destruct (parse (str_strip target)) as [tgt|]; simpl; [|discriminate].
  match goal with
  | |- context [if negb ?c then _ else _] => destruct (negb c)
  end; [case_match; discriminate|].
  destruct (_get_shape_dict tensor src named_sizes) as [shape_dict|] eqn:Hd;
    simpl; [|discriminate].
  case_match; [discriminate|].
  destruct (_compute_output_shape tensor tgt src shape_dict) eqn:Hc; simpl;
    [|discriminate].
  intros [= <-]. eauto.
Qed.

(** No position of the plan of [rearrange] is negative. *)
Lemma rearrange_plan_nonneg tensor pattern named_sizes inter final perm :
  rearrange_plan tensor pattern named_sizes = Ok (inter, final, perm) ->
  Forall (fun p => 0 <= p) perm.
Proof.
  intros Hplan. apply rearrange_plan_ok in Hplan as (src & tgt & shape_dict & Hd & Hc).
  unfold _compute_output_shape in Hc.
  destruct (source_loop tensor _ _ _ _) as [st|] eqn:Hs; simpl in Hc; [|discriminate].
  destruct (target_loop tensor _ _ _ _) as [[final1 perm1]|] eqn:Ht; simpl in Hc;
    [|discriminate].
  destruct (negb _) in Hc; [discriminate|]. injection Hc as _ <- <-.
  eapply target_loop_nonneg; [|eassumption|constructor].
  eapply source_loop_nonneg; [|eassumption|].
  - intros r Hr. unfold _get_shape_dict in Hd.
    destruct (shape_loop tensor _ _ _) as [st1|] eqn:Hl; simpl in Hd; [|discriminate].
    eapply shape_loop_ok_ellipsis; [| |eassumption|eassumption]; [lia|].
    eapply lists_after_ellipsis_ok_in; eassumption.
  - repeat split; simpl; [lia | | discriminate].
    intros x p. rewrite lookup_empty. discriminate.
Qed.

Lemma reshape_ok_length tensor newshape t1 :
  reshape tensor newshape = Ok t1 -> length (shape t1) = length newshape.
Proof.
  unfold reshape.
  destruct (fix_unknown_dimension newshape _) as [sh|] eqn:Hf; simpl; [|discriminate].
  intros [= <-]. simpl. unfold fix_unknown_dimension in Hf.
  repeat case_match; try discriminate; injection Hf as <-; apply length_map.
Qed.

Lemma has_dup_false xs : has_dup xs = false -> NoDup xs.
Proof.
  induction xs as [|x xs IH]; simpl; [constructor|].
  intros H. apply orb_false_iff in H as [Hx Hxs].
  apply bool_decide_eq_false in Hx. constructor; [|auto].
  intros Hin. apply Hx. now apply list_elem_of_In.
Qed.

Lemma list_comp_normalize_ok n axes perm :
  Forall (fun p => 0 <= p) axes ->
  list_comp (normalize_axis n) axes = Ok perm ->
  perm = map Z.to_nat axes /\ Forall (fun p => p < Z.of_nat n) axes.
Proof.
  intros Hnn. revert perm. induction Hnn as [|a axes Ha _ IH]; intros perm; simpl.
  - intros [= <-]. split; [reflexivity | constructor].
  - unfold normalize_axis at 1.
    destruct ((a <? - Z.of_nat n) || (Z.of_nat n <=? a)) eqn:Hb; simpl; [discriminate|].
    destruct (list_comp (normalize_axis n) axes) as [perm1|]; simpl; [|discriminate].
    intros [= <-]. destruct (IH perm1 eq_refl) as [-> Hlt].
    apply orb_false_iff in Hb as [_ Hb]. apply Z.leb_gt in Hb.
    destruct (a <? 0) eqn:Hneg; [apply Z.ltb_lt in Hneg; lia|].
    split; [reflexivity | constructor; assumption].
Qed.

Lemma transpose_ok tensor axes t2 :
  Forall (fun p => 0 <= p) axes ->
  transpose tensor axes = Ok t2 ->
  length axes = length (shape tensor) /\ NoDup axes
  /\ Forall (fun p => p < Z.of_nat (length (shape tensor))) axes.
Proof.
  intros Hnn. unfold transpose.
  destruct (length axes =? length (shape tensor))%nat eqn:Hlen; simpl; [|discriminate].
  apply Nat.eqb_eq in Hlen.
  destruct (list_comp _ axes) as [perm|] eqn:Hc; simpl; [|discriminate].
  destruct (has_dup perm) eqn:Hdup; [discriminate|]. intros _.
  apply list_comp_normalize_ok in Hc as [-> Hlt]; [|assumption].
  split; [assumption|]. split; [|assumption].
  apply has_dup_false, NoDup_ListNoDup in Hdup.
  apply NoDup_ListNoDup. eapply NoDup_map_inv. eassumption.
Qed.

Lemma py_range_identity n :
  NoDup (py_range 0 (Z.of_nat n))
  /\ (forall p, In p (py_range 0 (Z.of_nat n)) -> 0 <= p < Z.of_nat n)
  /\ length (py_range 0 (Z.of_nat n)) = n.
Proof.
  unfold py_range. rewrite Z.sub_0_r, Nat2Z.id. repeat split.
  - change (NoDup ((fun k => 0 + Z.of_nat k) <$> seq 0 n)).
    apply NoDup_fmap_2; [intros i j; lia | apply NoDup_seq].
  - apply in_map_iff in H as [k [<- Hk]]. lia.
  - apply in_map_iff in H as [k [<- Hk]]. apply in_seq in Hk. lia.
  - now rewrite length_map, length_seq.
Qed.

End PermutationFacts.

(** ** C5: the permutation of a successful call *)

(** C5, the claim as stated fails: ["a b -> a"] on shape [(2,1)] succeeds
    with intermediate shape [[2,1]] and permutation [[0]], which omits the
    intermediate position 1. *)
Lemma permutation_shorter_than_intermediate :
  (exists r, rearrange (zeros [2; 1]%nat) "a b -> a" ∅ = Ok r)
  /\ rearrange_plan (zeros [2; 1]%nat) "a b -> a" ∅ = Ok ([2; 1], [2], [0])
  /\ length [0] <> length [2; 1].
Proof.
  split; [eexists; vm_compute; reflexivity|].
  split; [vm_compute; reflexivity | discriminate].
Qed.

(** C5, amended. For every call of [rearrange] that succeeds, the
    permutation computed by the output planner is a bijection onto
    [[0, n)] for [n] its own length; [n] equals the length of the
    intermediate shape whenever the permutation is not the identity
    sequence, that is whenever the call goes through [transpose]. (With the
    identity sequence the call reshapes directly, and the permutation may be
    shorter than the intermediate shape.) *)
Theorem permutation_of_successful_call
  {A} (tensor : ndarray A) (pattern : string) (named_sizes : gmap string Z)
  (r : ndarray A) :
  rearrange tensor pattern named_sizes = Ok r ->
  exists inter final perm,
    rearrange_plan tensor pattern named_sizes = Ok (inter, final, perm)
    /\ NoDup perm
    /\ (forall p, In p perm -> 0 <= p < Z.of_nat (length perm))
    /\ (perm <> py_range 0 (Z.of_nat (length perm)) ->
        length perm = length inter).
Proof.
  unfold rearrange.
  destruct (rearrange_plan tensor pattern named_sizes) as [[[inter final] perm]|]
    eqn:Hplan; simpl; [|discriminate].
  intros Hperf. exists inter, final, perm. split; [reflexivity|].
  pose proof (rearrange_plan_nonneg _ _ _ _ _ _ Hplan) as Hnn.
  destruct (bool_decide (perm = py_range 0 (Z.of_nat (length perm)))) eqn:Hid.
  - apply bool_decide_eq_true in Hid.
    destruct (py_range_identity (length perm)) as (Hnd & Hrange & _).
    rewrite <- Hid in Hnd, Hrange. repeat split; auto; try apply Hrange; auto.
    intros Hne. contradiction.
  - destruct (reshape tensor inter) as [t1|] eqn:H1; simpl in Hperf; [|discriminate].
    destruct (transpose t1 perm) as [t2|] eqn:H2; simpl in Hperf; [|discriminate].
    apply reshape_ok_length in H1.
    apply transpose_ok in H2 as (Hlen & Hnd & Hlt); [|assumption].
    rewrite List.Forall_forall in Hnn, Hlt.
    repeat split; auto.
    + rewrite Hlen. now apply Hlt.
    + intros _. congruence.
Qed.

Lemma permutation_of_successful_call_witness :
  exists inter final perm,
    rearrange_plan (arange [2; 3; 4]%nat) "a b c -> c (a b)" ∅
    = Ok (inter, final, perm)
    /\ NoDup perm
    /\ (forall p, In p perm -> 0 <= p < Z.of_nat (length perm))
    /\ (perm <> py_range 0 (Z.of_nat (length perm)) ->
        length perm = length inter).
Proof.
  eapply (permutation_of_successful_call (arange [2; 3; 4]%nat)
            "a b c -> c (a b)" ∅).
  vm_compute. reflexivity.
Defined.

(* ===================================================================== *)
(** * Row-major indexing                                                  *)
(* ===================================================================== *)

Section IndexFacts.
Local Open Scope nat_scope.

Lemma flat_map_length_const {B C} (f : B -> list C) (l : list B) w :
  (forall i, length (f i) = w) -> length (flat_map f l) = length l * w.
Proof.
  intros Hf. induction l as [|x l IH]; simpl; [reflexivity|].
  rewrite length_app, Hf, IH. reflexivity.
Qed.

Lemma length_indices sh : length (indices sh) = size_of sh.
Proof.
  induction sh as [|n r IH]; simpl; [reflexivity|].
  rewrite (flat_map_length_const _ _ (size_of r)), length_seq; [reflexivity|].
  intros i. now rewrite length_map.
Qed.

(** The blocks of a [flat_map] of equal-sized pieces. *)
Lemma flat_map_block {B} (f : nat -> list B) w s n i m :
  (forall j, length (f j) = w) -> i < n -> m < w ->
  flat_map f (seq s n) !! (i * w + m) = f (s + i) !! m.
Proof.
  intros Hf. revert s i.
  induction n as [|n IH]; intros s i Hi Hm; [lia|].
  simpl. destruct i as [|i].
  - rewrite lookup_app_l by (rewrite Hf; lia). now rewrite Nat.add_0_r.
  - rewrite lookup_app_r by (rewrite Hf; simpl; lia). rewrite Hf.
    replace (S i * w + m - w) with (i * w + m) by (simpl; lia).
    rewrite IH by lia. replace (S s + i) with (s + S i) by lia. reflexivity.
Qed.

Lemma offset_lt sh idx :
  Forall2 lt idx sh -> offset idx (strides sh) < size_of sh.
Proof.
  induction 1 as [|i n idx r Hi _ IH]; simpl; [lia|]. nia.
Qed.

(** A valid multi-index sits at its row-major offset. *)
Lemma indices_lookup sh idx :
  Forall2 lt idx sh -> indices sh !! offset idx (strides sh) = Some idx.
Proof.
  induction 1 as [|i n idx r Hi Hidx IH]; simpl; [reflexivity|].
  rewrite (flat_map_block _ (size_of r)).
  - change (map (cons (0 + i)) (indices r)) with (cons (0 + i) <$> indices r).
    rewrite list_lookup_fmap, IH. reflexivity.
  - intros j. now rewrite length_map, length_indices.
  - assumption.
  - now apply offset_lt.
Qed.

Lemma indices_valid sh idx : In idx (indices sh) -> Forall2 lt idx sh.
Proof.
  revert idx. induction sh as [|n r IH]; intros idx; simpl.
  - intros [<-|[]]. constructor.
  - rewrite in_flat_map. intros [i [Hi Hidx]].
    apply in_map_iff in Hidx as [idx' [<- Hidx']].
    apply in_seq in Hi. constructor; [lia | auto].
Qed.

Lemma seq_blocks w n :
  flat_map (fun i => seq (i * w) w) (seq 0 n) = seq 0 (n * w).
Proof.
  induction n as [|n IH]; [reflexivity|].
  rewrite seq_S, flat_map_app, IH. simpl. rewrite app_nil_r.
  replace (w + n * w) with (n * w + w) by lia.
  now rewrite seq_app.
Qed.

Lemma seq_translate s w :
  map (fun m => s + m) (seq 0 w) = seq s w.
Proof.
  revert s. induction w as [|w IH]; intros s; [reflexivity|].
  simpl. rewrite Nat.add_0_r. f_equal.
  rewrite <- seq_shift, map_map, <- (IH (S s)).
  apply map_ext. intros m. lia.
Qed.

(** The offsets of the multi-indices, in order, count up from 0. *)
Lemma offsets_seq sh :
  map (fun idx => offset idx (strides sh)) (indices sh) = seq 0 (size_of sh).
Proof.
  induction sh as [|n r IH]; [reflexivity|].
  simpl. rewrite <- seq_blocks.
  generalize (seq 0 n). intros l. induction l as [|i l IHl]; [reflexivity|].
  simpl. rewrite map_app, IHl. f_equal.
  rewrite map_map. simpl.
  rewrite <- (map_map (fun idx => offset idx (strides r)) (fun m => i * size_of r + m)).
  rewrite IH. apply seq_translate.
Qed.

Lemma omap_cons {B C} (g : B -> option C) x l :
  omap g (x :: l)
  = match g x with Some y => y :: omap g l | None => omap g l end.
Proof. reflexivity. Qed.

Lemma omap_ext_in {B C} (g h : B -> option C) l :
  (forall x, In x l -> g x = h x) -> omap g l = omap h l.
Proof.
  induction l as [|x l IH]; intros H; [reflexivity|].
  rewrite !omap_cons, (H x) by (simpl; auto).
  rewrite IH by (intros; apply H; simpl; auto). reflexivity.
Qed.

Lemma omap_map {B C D} (f : B -> C) (g : C -> option D) l :
  omap g (map f l) = omap (fun x => g (f x)) l.
Proof.
  induction l as [|x l IH]; [reflexivity|].
  cbn [map]. rewrite !omap_cons, IH. reflexivity.
Qed.

Lemma omap_lookup_all {B C} (g : B -> option C) l n :
  (forall x, In x l -> is_Some (g x)) -> omap g l !! n = l !! n ≫= g.
Proof.
  revert n. induction l as [|x l IH]; intros n H; [reflexivity|].
  rewrite omap_cons. destruct (H x) as [y Hy]; [simpl; auto|]. rewrite Hy.
  destruct n as [|n]; simpl; [now rewrite Hy|].
  apply IH. intros; apply H; simpl; auto.
Qed.

Lemma omap_lookup_seq {B} (l : list B) :
  omap (fun n => l !! n) (seq 0 (length l)) = l.
Proof.
  induction l as [|x l IH]; [reflexivity|].
  cbn [length seq]. rewrite omap_cons. simpl. f_equal.
  rewrite <- seq_shift, omap_map. simpl. exact IH.
Qed.

End IndexFacts.

(* ===================================================================== *)
(** * Reversing the axes of a 3-dimensional array                         *)
(* ===================================================================== *)

Section Reverse3.
Context {A : Type}.
Implicit Types (tensor : ndarray A) (data : list A).

(** How a call of [rearrange_plan] that meets no error unfolds. *)
Lemma rearrange_plan_intro tensor pattern named_sizes source target src tgt
      shape_dict plan :
  str_contains "->" pattern = true ->
  str_split pattern "->" = [source; target] ->
  parse (str_strip source) = Ok src ->
  parse (str_strip target) = Ok tgt ->
  has_ellipsis src = false ->
  actual_dim_count src = ndim tensor ->
  _get_shape_dict tensor src named_sizes = Ok shape_dict ->
  identifiers tgt ∖ {["..."]} ∖ (identifiers src ∖ {["..."]}) = ∅ ->
  _compute_output_shape tensor tgt src shape_dict = Ok plan ->
  rearrange_plan tensor pattern named_sizes = Ok plan.
Proof.
  intros Hc Hs Hsrc Htgt Hell Hdim Hd Hids Hplan.
  unfold rearrange_plan. rewrite Hc, Hs. simpl.
  rewrite Hsrc, Htgt. simpl. rewrite Hell, Hdim, Z.eqb_refl. simpl.
  rewrite Hd. simpl. rewrite Hids.
  rewrite bool_decide_eq_true_2 by reflexivity. simpl.
  rewrite Hplan. reflexivity.
Qed.

Lemma product_of_nat sh : product (map Z.of_nat sh) = Z.of_nat (size_of sh).
Proof.
  induction sh as [|n r IH]; [reflexivity|].
  simpl. rewrite IH. lia.
Qed.

Lemma filter_negative_of_nat sh :
  List.filter (fun d => d <? 0) (map Z.of_nat sh) = []
  /\ List.filter (fun d => negb (d <? 0)) (map Z.of_nat sh) = map Z.of_nat sh.
Proof.
  induction sh as [|n r [IH1 IH2]]; [split; reflexivity|].
  simpl. destruct (Z.ltb_spec (Z.of_nat n) 0); [lia|].
  simpl. rewrite IH1, IH2. split; reflexivity.
Qed.

(** [reshape] to a shape of natural numbers with the same element count. *)
Lemma reshape_of_nat tensor sh :
  size_of sh = size_of (shape tensor) ->
  reshape tensor (map Z.of_nat sh) = Ok (mkArray sh (data tensor)).
Proof.
  intros Hsize. unfold reshape, fix_unknown_dimension.
  destruct (filter_negative_of_nat sh) as [-> ->].
  rewrite product_of_nat, Hsize, Z.eqb_refl. simpl.
  rewrite map_map. f_equal. f_equal.
  rewrite <- (map_id sh) at 2. apply map_ext. intros n. apply Nat2Z.id.
Qed.

Lemma np_prod_reverse3 x y z : np_prod [x; y; z] = np_prod [z; y; x].
Proof. unfold np_prod. f_equal. simpl. ring. Qed.

(** The plan of a reversal of three axes named [x], [y], [z]. *)
Lemma compute_output_shape_reverse3 tensor (x y z : string) sx sy sz :
  x <> y -> x <> z -> y <> z ->
  _compute_output_shape tensor (parsed3 z y x) (parsed3 x y z)
    (<[z := sz]> (<[y := sy]> (<[x := sx]> ∅)))
  = Ok ([sx; sy; sz], [sz; sy; sx], [2; 1; 0]).
Proof.
  intros Hxy Hxz Hyz.
  unfold _compute_output_shape, parsed3. simpl.
  repeat progress
    (unfold target_step, place_axis, dict_get, dict_mem;
     rewrite ?lookup_insert_eq; rewrite ?lookup_insert_ne by congruence; simpl).
  rewrite (np_prod_reverse3 sx sy sz), Z.eqb_refl. reflexivity.
Qed.

Lemma get_shape_dict_3 tensor (x y z : string) (sx sy sz : nat) :
  shape tensor = [sx; sy; sz] -> x <> y -> x <> z -> y <> z ->
  _get_shape_dict tensor (parsed3 x y z) ∅
  = Ok (<[z := Z.of_nat sz]> (<[y := Z.of_nat sy]> (<[x := Z.of_nat sx]> ∅))).
Proof.
  intros Hsh Hxy Hxz Hyz.
  unfold _get_shape_dict, parsed3, shape_loop, shape_step, shapeZ. simpl.
  rewrite Hsh. simpl.
  repeat progress
    (rewrite ?lookup_empty; rewrite ?lookup_insert_ne by congruence; simpl).
  reflexivity.
Qed.

(** [transpose] with axes [[2,1,0]] on a 3-dimensional array. *)
Lemma transpose_reverse3 (a b c : nat) data :
  transpose (mkArray [a; b; c] data) [2; 1; 0]
  = Ok (mkArray [c; b; a]
          (omap (fun idx => data !! offset idx (rev (strides [a; b; c])))
                (indices [c; b; a]))).
Proof. reflexivity. Qed.

Lemma offset_reverse3 (a b c i j k : nat) :
  offset [k; j; i] (rev (strides [a; b; c])) = offset [i; j; k] (strides [a; b; c]).
Proof. simpl. lia. Qed.

Lemma indices3_inv (a b c : nat) idx :
  In idx (indices [a; b; c]) ->
  exists i j k, idx = [i; j; k] /\ (i < a)%nat /\ (j < b)%nat /\ (k < c)%nat.
Proof.
  intros H. apply indices_valid in H.
  inversion H as [|i ? r1 ? Hi H1]; subst.
  inversion H1 as [|j ? r2 ? Hj H2]; subst.
  inversion H2 as [|k ? r3 ? Hk H3]; subst.
  inversion H3; subst. exists i, j, k. auto.
Qed.

Lemma valid3 (a b c i j k : nat) :
  (i < a)%nat -> (j < b)%nat -> (k < c)%nat -> Forall2 lt [i; j; k] [a; b; c].
Proof. intros. repeat constructor; assumption. Qed.

(** Reading the elements out in reversed axis order, twice, gives the
    elements back. *)
Lemma reverse3_data (a b c : nat) data :
  length data = size_of [a; b; c] ->
  omap (fun idx =>
          omap (fun idx' => data !! offset idx' (rev (strides [a; b; c])))
               (indices [c; b; a])
          !! offset idx (rev (strides [c; b; a])))
       (indices [a; b; c])
  = data.
Proof.
  intros Hlen.
  rewrite (omap_ext_in _ (fun idx => data !! offset idx (strides [a; b; c]))).
  - rewrite <- (omap_map (fun idx => offset idx (strides [a; b; c]))
                         (fun n => data !! n)).
    rewrite offsets_seq, <- Hlen. apply omap_lookup_seq.
  - intros idx Hidx.
    apply indices3_inv in Hidx as (i & j & k & -> & Hi & Hj & Hk).
    rewrite offset_reverse3, omap_lookup_all.
    + rewrite indices_lookup by (apply valid3; assumption).
      simpl option_bind. cbn [mbind option_bind].
      now rewrite offset_reverse3.
    + intros idx' Hidx'.
      apply indices3_inv in Hidx' as (k' & j' & i' & -> & Hk' & Hj' & Hi').
      rewrite offset_reverse3. apply lookup_lt_is_Some_2. rewrite Hlen.
      apply offset_lt, valid3; assumption.
Qed.

End Reverse3.

Section Reverse3Call.
Context {A : Type}.

(** A call of [rearrange] whose pattern reverses three distinct axes. *)
Lemma rearrange_reverse3 (pattern source target x y z : string) (a b c : nat)
      (data : list A) :
  str_contains "->" pattern = true ->
  str_split pattern "->" = [source; target] ->
  parse (str_strip source) = Ok (parsed3 x y z) ->
  parse (str_strip target) = Ok (parsed3 z y x) ->
  x <> y -> x <> z -> y <> z ->
  rearrange (mkArray [a; b; c] data) pattern ∅
  = Ok (mkArray [c; b; a]
          (omap (fun idx => data !! offset idx (rev (strides [a; b; c])))
                (indices [c; b; a]))).
Proof.
  intros Hc Hs Hsrc Htgt Hxy Hxz Hyz. unfold rearrange.
  rewrite (rearrange_plan_intro (mkArray [a; b; c] data) pattern ∅
             source target (parsed3 x y z) (parsed3 z y x) _
             ([Z.of_nat a; Z.of_nat b; Z.of_nat c],
              [Z.of_nat c; Z.of_nat b; Z.of_nat a], [2; 1; 0])
             Hc Hs Hsrc Htgt eq_refl eq_refl
             (get_shape_dict_3 (mkArray [a; b; c] data) x y z a b c
                eq_refl Hxy Hxz Hyz)).
  - simpl bind. unfold perform.
    change [Z.of_nat a; Z.of_nat b; Z.of_nat c] with (map Z.of_nat [a; b; c]).
    change [Z.of_nat c; Z.of_nat b; Z.of_nat a] with (map Z.of_nat [c; b; a]).
    rewrite (reshape_of_nat _ [a; b; c]) by reflexivity. cbn [bind Np.data].
    rewrite transpose_reverse3. cbn [bind].
    rewrite (reshape_of_nat _ [c; b; a]) by reflexivity. reflexivity.
  - unfold parsed3. simpl. apply set_eq. intros n.
    rewrite !elem_of_difference, !elem_of_union, elem_of_empty. tauto.
  - now apply compute_output_shape_reverse3.
Qed.

End Reverse3Call.

(** ** C6: reversing the axes twice *)

(** C6. For every 3-dimensional array [t],
    [rearrange(t, "a b c -> c b a")] succeeds, and rearranging its result
    with ["c b a -> a b c"] succeeds and returns an array with the shape and
    the elements of [t]. *)
Theorem reverse_roundtrip {A} (t : ndarray A) :
  wf t -> length (shape t) = 3%nat ->
  exists t1, rearrange t "a b c -> c b a" ∅ = Ok t1
             /\ rearrange t1 "c b a -> a b c" ∅ = Ok t.
Proof.
  destruct t as [[|a [|b [|c [|d sh]]]] data]; try discriminate.
  unfold wf. cbn [shape Np.data]. intros Hwf _.
  eexists. split.
  - apply (rearrange_reverse3 "a b c -> c b a" "a b c " " c b a" "a" "b" "c");
      try discriminate; vm_compute; reflexivity.
  - rewrite (rearrange_reverse3 "c b a -> a b c" "c b a " " a b c" "c" "b" "a");
      try discriminate; try (vm_compute; reflexivity).
    f_equal. f_equal. now apply reverse3_data.
Qed.

Lemma reverse_roundtrip_witness :
  exists t1, rearrange (arange [2; 3; 4]%nat) "a b c -> c b a" ∅ = Ok t1
             /\ rearrange t1 "c b a -> a b c" ∅ = Ok (arange [2; 3; 4]%nat).
Proof.
  apply (reverse_roundtrip (arange [2; 3; 4]%nat)); reflexivity.
Defined.

(* ===================================================================== *)
(** * Further properties of [ParsedExpression]                            *)
(* ===================================================================== *)

(** X1. Whatever the expression, a failure of [ParsedExpression] is one of
    the syntax errors of [parser.py], all of them [EinopsError]s: the
    constructor never lets a built-in exception through. *)
Theorem parse_raises_only_syntax_errors (expression : string) (e : exn) :
  parse expression = Raise e ->
  is_syntax_error e = true /\ is_einops_error e = true.
Proof.
  intros H. apply parse_raise in H. split; [assumption|].
  destruct e; [reflexivity | discriminate..].
Qed.

Lemma parse_raises_only_syntax_errors_witness :
  is_syntax_error (EinopsError UnclosedParenthesis) = true
  /\ is_einops_error (EinopsError UnclosedParenthesis) = true.
Proof.
  apply (parse_raises_only_syntax_errors "a (b c").
  vm_compute. reflexivity.
Defined.

(** X2. After a successful parse, [identifiers] is exactly the set of axis
    names that occur in [composition] (inside or outside parentheses); the
    ellipsis contributes no identifier. *)
Theorem identifiers_are_composition_names (expression : string)
        (p : ParsedExpression) (x : string) :
  parse expression = Ok p ->
  (x ∈ identifiers p <-> In x (comp_names (composition p))).
Proof. intros H. exact (parse_identifiers expression p H x). Qed.

Lemma identifiers_are_composition_names_witness :
  "c" ∈ ({["a"; "b"; "c"]} : gset string)
  <-> In "c" (comp_names [Axes ["a"]; EllipsisItem; Axes ["b"; "c"]]).
Proof.
  refine (identifiers_are_composition_names "a ... (b c)"
            (mkParsed true {["a"; "b"; "c"]}
                      [Axes ["a"]; EllipsisItem; Axes ["b"; "c"]] 3) "c" _).
  vm_compute. reflexivity.
Defined.

Section ParserInvariant.

Lemma add_axis_name_ok name st st1 :
  add_axis_name name st = Ok st1 -> pstate_ok st ->
  Forall well_formed_item (st_composition st1)
  /\ Forall (fun n => valid_axis_name n = true) (default [] (bracket_group st1))
  /\ match bracket_group st1 with
     | Some _ => st_actual_dim_count st1 = Z.of_nat (length (st_composition st1))
     | None => st_actual_dim_count st1 + 1
               = Z.of_nat (length (st_composition st1))
     end.
Proof.
  unfold add_axis_name, pstate_ok.
  destruct (String.eqb name "_ellipsis_") eqn:Hell.
  - destruct (bracket_group st) eqn:Hg; [discriminate|].
    intros [= <-] (Hc & _ & Hn). simpl.
    repeat split; [|constructor|rewrite length_app; simpl; lia].
    apply Forall_app. split; [assumption | repeat constructor].
  - destruct (is_empty name) eqn:He; [discriminate|].
    destruct (first_isdigit name) eqn:Hd; [discriminate|].
    destruct (str_all _ name) eqn:Ha; simpl; [|discriminate].
    assert (Hvalid : valid_axis_name name = true).
    { unfold valid_axis_name. now rewrite Hell, He, Hd, Ha. }
    destruct (bracket_group st) as [g|] eqn:Hg; intros [= <-] (Hc & Hgr & Hn);
      simpl in *.
    + repeat split; [assumption | | assumption].
      apply Forall_app. split; [assumption | repeat constructor; assumption].
    + repeat split; [|constructor|rewrite length_app; simpl; lia].
      apply Forall_app. split; [assumption|].
      repeat constructor; [discriminate | assumption].
Qed.

Lemma process_token_ok token st st1 :
  process_token token st = Ok st1 -> pstate_ok st -> pstate_ok st1.
Proof.
  unfold process_token.
  destruct (String.eqb token "(").
  { destruct (bracket_group st) eqn:Hg; [discriminate|].
    intros [= <-] (Hc & _ & Hn). repeat split; simpl; auto. }
  destruct (String.eqb token ")").
  { destruct (bracket_group st) as [[|y g]|] eqn:Hg; try discriminate.
    intros [= <-] (Hc & Hgr & Hn). rewrite Hg in Hgr. simpl in Hgr.
    repeat split; simpl; [|constructor|rewrite length_app; simpl; lia].
    apply Forall_app. split; [assumption|].
    repeat constructor; [discriminate | |];
      [now apply Forall_inv in Hgr | now apply Forall_inv_tail in Hgr]. }
  destruct (add_axis_name token st) as [st2|] eqn:Hadd; simpl; [|discriminate].
  intros [= <-] Hst. apply (add_axis_name_ok _ _ _ Hadd) in Hst as (Hc & Hgr & Hn).
  destruct (bracket_group st2) eqn:Hg; repeat split; simpl; auto.
  now rewrite Hg.
Qed.

Lemma process_tokens_ok tokens st st1 :
  process_tokens tokens st = Ok st1 -> pstate_ok st -> pstate_ok st1.
Proof.
  revert st. induction tokens as [|t r IH]; intros st; simpl.
  - now intros [= <-].
  - destruct (process_token t st) eqn:Ht; simpl; [|discriminate].
    intros Hr Hst. eapply IH; [eassumption|].
    eapply process_token_ok; eassumption.
Qed.

Lemma parse_ok_state expression p :
  parse expression = Ok p ->
  Forall well_formed_item (composition p)
  /\ actual_dim_count p = Z.of_nat (length (composition p)).
Proof.
  unfold parse, tokens_of.
  destruct (is_empty expression || str_isspace expression)%bool; [discriminate|].
  destruct (str_contains "..." expression);
    [destruct (1 <? str_count expression "...")%nat|]; simpl; try discriminate.
  all: match goal with
       | |- context [tokenize ?s [] EmptyString] =>
           destruct (tokenize s [] EmptyString) as [[tokens current]|e0]
       end; simpl; [|discriminate].
  all: match goal with
       | |- context [process_tokens ?t ?s] =>
           destruct (process_tokens t s) as [st|e0] eqn:Hproc
       end; simpl; [|discriminate].
  all: destruct (bracket_group st) eqn:Hg; [discriminate|].
  all: intros [= <-]; simpl.
  all: apply process_tokens_ok in Hproc as (Hc & _ & Hn);
       [auto | repeat split; simpl; constructor].
Qed.

End ParserInvariant.

(** X3. After a successful parse every group of [composition] is a
    non-empty list, and every axis name in it is non-empty, does not start
    with a digit, consists of alphanumeric characters and underscores, and
    is not the placeholder ["_ellipsis_"]. *)
Theorem parsed_groups_well_formed (expression : string) (p : ParsedExpression) :
  parse expression = Ok p -> Forall well_formed_item (composition p).
Proof. intros H. now apply parse_ok_state in H. Qed.

Lemma parsed_groups_well_formed_witness :
  Forall well_formed_item [Axes ["a"]; EllipsisItem; Axes ["b"; "c"]].
Proof.
  refine (parsed_groups_well_formed "a ... (b c)"
            (mkParsed true {["a"; "b"; "c"]}
                      [Axes ["a"]; EllipsisItem; Axes ["b"; "c"]] 3) _).
  vm_compute. reflexivity.
Defined.

(** X4. [actual_dim_count] is the number of elements of [composition]: one
    per plain axis, one per parenthesised group whatever its length, and
    also one for the ellipsis (the token loop increments the counter after
    [add_axis_name] whenever no group is open). *)
Theorem actual_dim_count_is_composition_length (expression : string)
        (p : ParsedExpression) :
  parse expression = Ok p ->
  actual_dim_count p = Z.of_nat (length (composition p)).
Proof. intros H. now apply parse_ok_state in H. Qed.

Lemma actual_dim_count_is_composition_length_witness :
  3 = Z.of_nat (length [Axes ["a"]; EllipsisItem; Axes ["b"; "c"]]).
Proof.
  refine (actual_dim_count_is_composition_length "a ... (b c)"
            (mkParsed true {["a"; "b"; "c"]}
                      [Axes ["a"]; EllipsisItem; Axes ["b"; "c"]] 3) _).
  vm_compute. reflexivity.
Defined.

Section EllipsisCount.

Lemma prefix_cons a s c r :
  String.prefix (String a s) (String c r)
  = if ascii_dec a c then String.prefix s r else false.
Proof. reflexivity. Qed.

Lemma blank_has_no_ellipsis s :
  str_all isspace s = true -> str_contains "..." s = false.
Proof.
  induction s as [|c r IH]; [reflexivity|].
  simpl str_all. intros H. apply andb_true_iff in H as [Hc Hr].
  rewrite str_contains_cons, (IH Hr), prefix_cons.
  destruct (ascii_dec "." c) as [<-|_]; [discriminate Hc | reflexivity].
Qed.

End EllipsisCount.

(** X5. An expression in which ["..."] occurs twice or more (counted
    without overlap, as [str.count] does) is rejected with "Multiple
    ellipsis not allowed in pattern", whatever else it contains. *)
Theorem parse_multiple_ellipsis (expression : string) :
  (2 <= str_count expression "...")%nat ->
  parse expression = Raise (EinopsError MultipleEllipsis).
Proof.
  intros Hcount.
  assert (Hc : str_contains "..." expression = true)
    by (apply (count_from_contains "..." O); unfold str_count in Hcount; lia).
  unfold parse.
  destruct expression as [|c r]; [discriminate Hc|].
  cbn [is_empty orb]. unfold str_isspace. cbn [is_empty negb andb].
  destruct (str_all isspace (String c r)) eqn:Hs.
  { apply blank_has_no_ellipsis in Hs. congruence. }
  rewrite Hc.
  destruct (Nat.ltb_spec 1 (str_count (String c r) "...")); [reflexivity | lia].
Qed.

Lemma parse_multiple_ellipsis_witness :
  parse "a ... (b c) ... @" = Raise (EinopsError MultipleEllipsis).
Proof.
  apply (parse_multiple_ellipsis "a ... (b c) ... @").
  vm_compute. lia.
Defined.

(** Moves a string literal in front of an append into the string. *)
Ltac push_append :=
  repeat match goal with
         | |- context [String ?c ?r +:+ ?s] =>
             change (String c r +:+ s) with (String c (r +:+ s))
         | |- context [EmptyString +:+ ?s] => change (EmptyString +:+ s) with s
         end.

Section TokenizerFacts.

Lemma tokenize_cons char rest tokens current :
  tokenize (String char rest) tokens current
  = if negb (isalnum char || char_in char "() _." || isspace char)
    then Raise (EinopsError (InvalidCharacter char))
    else if char_in char "() "
         then tokenize rest
                (let tokens1 := flush tokens current in
                 if negb (Ascii.eqb char " ")
                 then tokens1 ++ [String char EmptyString] else tokens1)
                EmptyString
         else tokenize rest tokens (current +:+ String char EmptyString).
Proof. reflexivity. Qed.

Lemma tokenize_app s1 s2 tokens current :
  tokenize (s1 +:+ s2) tokens current
  = do (tokens1, current1) <- tokenize s1 tokens current;
    tokenize s2 tokens1 current1.
Proof.
  revert tokens current.
  induction s1 as [|c r IH]; intros tokens current; [reflexivity|].
  change (String c r +:+ s2) with (String c (r +:+ s2)).
  rewrite !tokenize_cons.
  repeat case_match; try reflexivity; apply IH.
Qed.

Lemma tokenize_space s tokens current :
  tokenize (String " " s) tokens current
  = tokenize s (flush tokens current) EmptyString.
Proof. unfold flush. simpl. now destruct (is_empty current). Qed.

Lemma tokenize_open s tokens current :
  tokenize (String "(" s) tokens current
  = tokenize s (flush tokens current ++ ["("]) EmptyString.
Proof. unfold flush. simpl. now destruct (is_empty current). Qed.

Lemma tokenize_close s tokens current :
  tokenize (String ")" s) tokens current
  = tokenize s (flush tokens current ++ [")"]) EmptyString.
Proof. unfold flush. simpl. now destruct (is_empty current). Qed.

Lemma flush_empty tokens : flush tokens EmptyString = tokens.
Proof. reflexivity. Qed.

Lemma tokens_of_app s1 s2 :
  tokens_of (s1 +:+ s2)
  = do (tokens1, current1) <- tokenize s1 [] EmptyString;
    do (tokens2, current2) <- tokenize s2 tokens1 current1;
    Ok (flush tokens2 current2).
Proof.
  unfold tokens_of. rewrite tokenize_app.
  destruct (tokenize s1 [] EmptyString) as [[t1 c1]|]; reflexivity.
Qed.

End TokenizerFacts.

(** X6. For the tokenizer, a run of spaces counts as one space, spaces at
    the start or the end of the expression are ignored, and spaces around a
    parenthesis are optional: the list of tokens (or the error) is the same
    in each case. *)
Theorem tokens_ignore_extra_spaces (s1 s2 : string) :
  tokens_of (s1 +:+ "  " +:+ s2) = tokens_of (s1 +:+ " " +:+ s2)
  /\ tokens_of (" " +:+ s1) = tokens_of s1
  /\ tokens_of (s1 +:+ " ") = tokens_of s1
  /\ tokens_of (s1 +:+ " ( " +:+ s2) = tokens_of (s1 +:+ "(" +:+ s2)
  /\ tokens_of (s1 +:+ " ) " +:+ s2) = tokens_of (s1 +:+ ")" +:+ s2).
Proof.
  split; [|split; [|split; [|split]]].
  - rewrite !tokens_of_app.
    destruct (tokenize s1 [] EmptyString) as [[t1 c1]|]; [|reflexivity].
    cbn [bind]. push_append. now rewrite !tokenize_space, flush_empty.
  - unfold tokens_of. push_append. now rewrite tokenize_space.
  - rewrite tokens_of_app. unfold tokens_of.
    destruct (tokenize s1 [] EmptyString) as [[t1 c1]|]; [|reflexivity].
    cbn [bind]. rewrite tokenize_space. reflexivity.
  - rewrite !tokens_of_app.
    destruct (tokenize s1 [] EmptyString) as [[t1 c1]|]; [|reflexivity].
    cbn [bind]. push_append.
    now rewrite tokenize_space, !tokenize_open, tokenize_space, !flush_empty.
  - rewrite !tokens_of_app.
    destruct (tokenize s1 [] EmptyString) as [[t1 c1]|]; [|reflexivity].
    cbn [bind]. push_append.
    now rewrite tokenize_space, !tokenize_close, tokenize_space, !flush_empty.
Qed.

(* ===================================================================== *)
(** * Further properties of [_get_shape_dict]                             *)
(* ===================================================================== *)

Section ResolverGrowth.
Context {A : Type}.
Implicit Types (tensor : ndarray A) (shape_dict : gmap string Z).

Lemma resolve_group_grows item total shape_dict d1 :
  resolve_group item total shape_dict = Ok d1 ->
  shape_dict ⊆ d1
  /\ (forall x, is_Some (d1 !! x) -> is_Some (shape_dict !! x) \/ In x item).
Proof.
  unfold resolve_group.
  destruct (List.filter _ item) as [|u [|u' l]] eqn:Hunk; [| |discriminate].
  - destruct (list_comp (dict_get shape_dict) item); simpl; [|discriminate].
    case_match; [discriminate|]. intros [= <-]. split; [reflexivity | auto].
  - destruct (list_comp (dict_get shape_dict) _); simpl; [|discriminate].
    case_match; [discriminate|]. intros [= <-].
    assert (Hu : In u item /\ shape_dict !! u = None).
    { assert (Hin : In u (List.filter (fun dim => negb (dict_mem shape_dict dim)) item))
        by (rewrite Hunk; simpl; auto).
      apply filter_In in Hin as [Hin Hm]. split; [assumption|].
      unfold dict_mem in Hm. now destruct (shape_dict !! u). }
    destruct Hu as [Hin Hnone]. split.
    + now apply insert_subseteq.
    + intros x. rewrite lookup_insert_is_Some.
      intros [<-|[_ Hx]]; auto.
Qed.

Lemma shape_step_grows tensor comp item shape_dict cd d1 cd1 :
  shape_step tensor comp item (shape_dict, cd) = Ok (d1, cd1) ->
  shape_dict ⊆ d1
  /\ (forall x, is_Some (d1 !! x) ->
                is_Some (shape_dict !! x) \/ In x (item_names item)).
Proof.
  unfold shape_step. destruct item as [item|]; simpl.
  - destruct (py_index (shapeZ tensor) cd) as [total|]; simpl; [|discriminate].
    assert (Hgroup :
      (do d2 <- resolve_group item total shape_dict; Ok (d2, cd + 1)) = Ok (d1, cd1) ->
      shape_dict ⊆ d1
      /\ (forall x, is_Some (d1 !! x) -> is_Some (shape_dict !! x) \/ In x item)).
    { destruct (resolve_group item total shape_dict) eqn:Hr; simpl; [|discriminate].
      intros [= <- <-]. eapply resolve_group_grows; eassumption. }
    destruct item as [|x [|y item]]; try exact Hgroup.
    destruct (shape_dict !! x) as [known|] eqn:Hx.
    + destruct (negb (known =? total)); [discriminate|].
      intros [= <- <-]. split; [reflexivity | auto].
    + intros [= <- <-]. split; [now apply insert_subseteq|].
      intros z. rewrite lookup_insert_is_Some. simpl.
      intros [<-|[_ Hz]]; auto.
  - destruct (lists_after_ellipsis comp); simpl; [|discriminate].
    destruct (_ <? 0); [discriminate|].
    intros [= <- <-]. split; [reflexivity | auto].
Qed.

Lemma shape_loop_grows tensor comp items shape_dict cd d1 cd1 :
  shape_loop tensor comp items (shape_dict, cd) = Ok (d1, cd1) ->
  shape_dict ⊆ d1
  /\ (forall x, is_Some (d1 !! x) ->
                is_Some (shape_dict !! x) \/ In x (comp_names items)).
Proof.
  revert shape_dict cd.
  induction items as [|item items IH]; intros shape_dict cd.
  - simpl. intros [= <- <-]. split; [reflexivity | auto].
  - rewrite shape_loop_cons.
    destruct (shape_step tensor comp item (shape_dict, cd)) as [[d2 cd2]|] eqn:Hs;
      simpl; [|discriminate].
    intros Hl. apply shape_step_grows in Hs as [Hsub Hdom].
    apply IH in Hl as [Hsub' Hdom']. split; [now transitivity d2|].
    intros x Hx. unfold comp_names. simpl. rewrite in_app_iff.
    destruct (Hdom' x Hx) as [H2|H2]; [|auto].
    destruct (Hdom x H2); auto.
Qed.

End ResolverGrowth.

(** X7. When [_get_shape_dict] succeeds, the dictionary it returns extends
    [named_sizes]: every size hint keeps the value the caller gave it
    (inference never overwrites a hint), and the keys of the result are
    exactly the hints together with the axis names of the source pattern. *)
Theorem get_shape_dict_extends_named_sizes
  {A} (tensor : ndarray A) (src : ParsedExpression)
  (named_sizes shape_dict : gmap string Z) :
  _get_shape_dict tensor src named_sizes = Ok shape_dict ->
  (forall k v, named_sizes !! k = Some v -> shape_dict !! k = Some v)
  /\ (forall k, is_Some (shape_dict !! k)
                <-> is_Some (named_sizes !! k)
                    \/ In k (comp_names (composition src))).
Proof.
  unfold _get_shape_dict.
  destruct (shape_loop tensor _ _ _) as [[d1 cd1]|] eqn:Hl; simpl; [|discriminate].
  intros [= <-].
  pose proof (shape_loop_grows _ _ _ _ _ _ _ Hl) as [Hsub Hdom].
  pose proof (shape_loop_ok_dom _ _ _ _ _ _ _ Hl) as [Hmono Hnames].
  split.
  - intros k v Hk. eapply lookup_weaken; eassumption.
  - intros k. split; [apply Hdom|]. intros [Hk|Hk]; auto.
Qed.

Lemma get_shape_dict_extends_named_sizes_witness :
  (forall k v, ({["b" := 2]} : gmap string Z) !! k = Some v ->
               (<["c" := 8]> (<["a" := 3]> {["b" := 2]}) : gmap string Z) !! k
               = Some v)
  /\ (forall k, is_Some ((<["c" := 8]> (<["a" := 3]> {["b" := 2]})
                          : gmap string Z) !! k)
                <-> is_Some (({["b" := 2]} : gmap string Z) !! k)
                    \/ In k (comp_names [Axes ["a"; "b"]; Axes ["c"]])).
Proof.
  refine (get_shape_dict_extends_named_sizes (zeros [6; 8]%nat)
            (mkParsed false {["a"; "b"; "c"]} [Axes ["a"; "b"]; Axes ["c"]] 2)
            {["b" := 2]} (<["c" := 8]> (<["a" := 3]> {["b" := 2]})) _).
  vm_compute. reflexivity.
Defined.

(* ===================================================================== *)
(** * The exceptions of [rearrange]                                       *)
(* ===================================================================== *)

Section ExceptionSurface.
Context {A : Type}.
Implicit Types (tensor : ndarray A) (shape_dict : gmap string Z).

Lemma list_index_in (comp : list comp_item) x :
  In x comp -> exists i, list_index comp x = Ok i.
Proof.
  induction comp as [|y comp IH]; simpl; [tauto|].
  intros Hin. destruct (decide (y = x)); [eauto|].
  destruct IH as [i ->]; [destruct Hin; congruence|]. simpl. eauto.
Qed.

Lemma lists_after_ellipsis_in comp :
  In EllipsisItem comp -> exists r, lists_after_ellipsis comp = Ok r.
Proof.
  intros Hin. unfold lists_after_ellipsis.
  destruct (list_index_in comp EllipsisItem Hin) as [i ->]. simpl. eauto.
Qed.

(** [resolve_group] looks up only names it has found in the dictionary. *)
Lemma resolve_group_size_error item total shape_dict e :
  resolve_group item total shape_dict = Raise e -> is_size_error e = true.
Proof.
  unfold resolve_group.
  destruct (List.filter _ item) as [|u [|u' l]] eqn:Hunk;
    try (intros [= <-]; reflexivity).
  - destruct (list_comp_dict_get_ok shape_dict item) as [sizes ->].
    { intros x Hx. apply dict_mem_is_Some.
      pose proof (filter_nil_all _ _ x Hunk Hx) as Hf. simpl in Hf.
      now destruct (dict_mem shape_dict x). }
    simpl. case_match; [intros [= <-]; reflexivity | discriminate].
  - rewrite list_comp_known. simpl.
    case_match; [intros [= <-]; reflexivity | discriminate].
Qed.

Lemma shape_step_size_error tensor comp item st e :
  In item comp ->
  shape_step tensor comp item st = Raise e -> is_size_error e = true.
Proof.
  intros Hin. destruct st as [shape_dict cd]. unfold shape_step.
  destruct item as [item|].
  - destruct (py_index (shapeZ tensor) cd) eqn:Hi; simpl.
    + destruct item as [|x [|y item]].
      * destruct (resolve_group [] a shape_dict) eqn:Hr; simpl; [discriminate|].
        intros [= <-]. eapply resolve_group_size_error; eassumption.
      * repeat case_match; try discriminate; intros [= <-]; reflexivity.
      * destruct (resolve_group _ a shape_dict) eqn:Hr; simpl; [discriminate|].
        intros [= <-]. eapply resolve_group_size_error; eassumption.
    + intros [= <-]. apply py_index_raise in Hi as ->. reflexivity.
  - destruct (lists_after_ellipsis_in comp Hin) as [r ->]. simpl.
    case_match; [intros [= <-]; reflexivity | discriminate].
Qed.

Lemma shape_loop_size_error tensor comp items st e :
  (forall item, In item items -> In item comp) ->
  shape_loop tensor comp items st = Raise e -> is_size_error e = true.
Proof.
  revert st. induction items as [|item items IH]; intros st Hsub; [discriminate|].
  rewrite shape_loop_cons.
  destruct (shape_step tensor comp item st) eqn:Hs; simpl.
  - apply IH. intros; apply Hsub; simpl; auto.
  - intros [= <-]. eapply shape_step_size_error; [|eassumption].
    apply Hsub; simpl; auto.
Qed.

Lemma get_shape_dict_size_error tensor src named_sizes e :
  _get_shape_dict tensor src named_sizes = Raise e -> is_size_error e = true.
Proof.
  unfold _get_shape_dict.
  destruct (shape_loop tensor _ _ _) as [[d1 cd1]|e1] eqn:Hl; simpl; [discriminate|].
  intros [= <-]. eapply shape_loop_size_error; [|eassumption]. auto.
Qed.

(** The first loop of the planner, run over the composition itself with a
    dictionary that holds its names, cannot fail. *)
Lemma source_loop_total tensor comp shape_dict items st :
  (forall item, In item items -> In item comp) ->
  (forall x, In x (comp_names items) -> is_Some (shape_dict !! x)) ->
  exists st1, source_loop tensor comp shape_dict items st = Ok st1.
Proof.
  intros Hsub Hnames.
  pose proof (source_loop_present tensor comp shape_dict items st Hnames) as H.
  destruct (source_loop tensor comp shape_dict items st) as [st1|e] eqn:Hl; [eauto|].
  exfalso. subst e. clear Hnames. revert st Hl.
  induction items as [|item items IH]; intros st; [discriminate|].
  cbn [source_loop].
  destruct (source_step tensor comp shape_dict item st) as [st2|e] eqn:Hs; simpl.
  - apply IH. intros; apply Hsub; simpl; auto.
  - intros [= ->]. destruct item as [item|].
    + rewrite source_step_axes in Hs. clear -Hs. revert st Hs.
      induction item as [|x item IHi]; intros st; cbn [place_axes]; [discriminate|].
      unfold place_axis at 1. unfold dict_get.
      destruct (shape_dict !! x); simpl; [apply IHi | discriminate].
    + unfold source_step in Hs.
      destruct (lists_after_ellipsis_in comp) as [r Hr];
        [apply Hsub; simpl; auto|].
      rewrite Hr in Hs. discriminate.
Qed.

Lemma target_step_planner_error tensor shape_dict src item st e :
  (forall x, In x (item_names item) ->
             is_Some (shape_dict !! x) /\ is_Some (source_positions src !! x)) ->
  target_step tensor shape_dict src item st = Raise e ->
  is_planner_error e = true.
Proof.
  intros H. destruct st as [final_shape permutation]. unfold target_step.
  destruct item as [item|].
  - simpl in H.
    destruct (list_comp_dict_get_ok shape_dict item) as [sizes Hsizes];
      [intros; now apply H|].
    destruct (list_comp_dict_get_ok (source_positions src) item) as [ps Hps];
      [intros; now apply H|].
    destruct item as [|x [|y item]].
    + rewrite Hsizes, Hps. discriminate.
    + destruct (H x) as [Hd Hp]; [simpl; auto|].
      apply dict_mem_is_Some in Hd as Hm. rewrite Hm. simpl.
      destruct (dict_get_is_Some _ _ Hd) as [s ->].
      destruct (dict_get_is_Some _ _ Hp) as [p ->]. discriminate.
    + rewrite Hsizes, Hps. discriminate.
  - destruct (ellipsis_dims src); [|intros [= <-]; reflexivity].
    destruct (list_comp (py_index (shapeZ tensor)) l) eqn:Hc; simpl; [discriminate|].
    intros [= <-]. clear -Hc. revert Hc.
    induction l as [|d l IH]; simpl; [discriminate|].
    destruct (py_index (shapeZ tensor) d) eqn:Hi; simpl.
    + destruct (list_comp (py_index (shapeZ tensor)) l); simpl; [discriminate|].
      intros [= <-]. now apply IH.
    + intros [= <-]. apply py_index_raise in Hi as ->. reflexivity.
Qed.

Lemma target_loop_planner_error tensor shape_dict src items st e :
  (forall x, In x (comp_names items) ->
             is_Some (shape_dict !! x) /\ is_Some (source_positions src !! x)) ->
  target_loop tensor shape_dict src items st = Raise e ->
  is_planner_error e = true.
Proof.
  revert st. induction items as [|item items IH]; intros st H; [discriminate|].
  unfold comp_names in H. simpl in H. cbn [target_loop].
  destruct (target_step tensor shape_dict src item st) eqn:Hs; simpl.
  - apply IH. intros; apply H, in_app_iff; auto.
  - intros [= <-]. eapply target_step_planner_error; [|eassumption].
    intros; apply H, in_app_iff; auto.
Qed.

Lemma compute_output_shape_planner_error tensor tgt src shape_dict e :
  (forall x, In x (comp_names (composition src)) -> is_Some (shape_dict !! x)) ->
  (forall x, In x (comp_names (composition tgt)) ->
             In x (comp_names (composition src))) ->
  _compute_output_shape tensor tgt src shape_dict = Raise e ->
  is_planner_error e = true.
Proof.
  intros Hsrc Hsub. unfold _compute_output_shape.
  destruct (source_loop_total tensor (composition src) shape_dict
              (composition src) (mkSrc [] ∅ 0 None)) as [st Hst]; [auto | auto |].
  pose proof (source_loop_present tensor (composition src) shape_dict
                (composition src) (mkSrc [] ∅ 0 None) Hsrc) as Hloop.
  rewrite Hst in *. simpl. destruct Hloop as [_ Hpos].
  destruct (target_loop tensor shape_dict st (composition tgt) ([], []))
    as [[final_shape permutation]|e1] eqn:Ht; simpl.
  - case_match; [intros [= <-]; reflexivity | discriminate].
  - intros [= <-]. eapply target_loop_planner_error; [|eassumption].
    intros x Hx. split; [apply Hsrc | apply Hpos]; auto.
Qed.

(** A valid name is not the string ["..."]. *)
Lemma parsed_names_not_dots expression p :
  parse expression = Ok p -> ~ In "..." (comp_names (composition p)).
Proof.
  intros Hp Hin. apply parse_ok_state in Hp as [Hwf _].
  unfold comp_names in Hin. apply in_flat_map in Hin as [item [Hitem Hin]].
  rewrite List.Forall_forall in Hwf. specialize (Hwf item Hitem).
  destruct item as [names|]; [|destruct Hin].
  destruct Hwf as [_ Hnames]. rewrite List.Forall_forall in Hnames.
  specialize (Hnames _ Hin). vm_compute in Hnames. discriminate.
Qed.

(** When the identifier check of [rearrange] passes, the names of the
    target occur in the source. *)
Lemma unknown_dims_empty source target src tgt :
  parse source = Ok src -> parse target = Ok tgt ->
  identifiers tgt ∖ {["..."]} ∖ (identifiers src ∖ {["..."]}) = ∅ ->
  forall x, In x (comp_names (composition tgt)) ->
            In x (comp_names (composition src)).
Proof.
  intros Hsrc Htgt Hempty x Hx.
  assert (Hne : x <> "...").
  { intros ->. eapply parsed_names_not_dots; eassumption. }
  apply (parse_identifiers _ _ Htgt) in Hx.
  apply (parse_identifiers _ _ Hsrc).
  destruct (decide (x ∈ identifiers src)) as [|Hnot]; [assumption|].
  assert (Hin : x ∈ identifiers tgt ∖ {["..."]} ∖ (identifiers src ∖ {["..."]})).
  { rewrite !elem_of_difference, elem_of_singleton. tauto. }
  rewrite Hempty in Hin. now apply elem_of_empty in Hin.
Qed.

Lemma contains_arrow_splits pattern :
  str_contains "->" pattern = true ->
  (2 <= length (str_split pattern "->"))%nat.
Proof.
  intros Hc. unfold str_split. rewrite split_from_length.
  assert (0 < count_from "->" 0 pattern)%nat; [|lia].
  induction pattern as [|c r IH]; [discriminate|].
  rewrite str_contains_cons in Hc. rewrite count_from_cons.
  destruct (String.prefix "->" (String c r)); [lia | auto].
Qed.

(** Every exception of [rearrange], by the place it comes from. *)
Lemma rearrange_raise_kinds tensor pattern named_sizes e :
  rearrange tensor pattern named_sizes = Raise e ->
  (is_einops_error e = true \/ is_builtin_leak e = true)
  /\ is_dead_error e = false.
Proof.
  unfold rearrange, rearrange_plan.
  destruct (str_contains "->" pattern) eqn:Hc; simpl;
    [|intros [= <-]; split; auto].
  apply contains_arrow_splits in Hc.
  destruct (str_split pattern "->") as [|source [|target [|x l]]];
    simpl in Hc; try lia; simpl; [|intros [= <-]; split; auto].
  destruct (parse (str_strip source)) as [src|e0] eqn:Hsrc; simpl.
  2:{ intros [= ->]. apply parse_raise in Hsrc.
      destruct e as [[]| | | | |]; try discriminate; split; auto. }
  destruct (parse (str_strip target)) as [tgt|e0] eqn:Htgt; simpl.
  2:{ intros [= ->]. apply parse_raise in Htgt.
      destruct e as [[]| | | | |]; try discriminate; split; auto. }
  match goal with
  | |- context [if negb ?c then _ else _] => destruct (negb c)
  end; [case_match; intros [= <-]; split; auto|].
  destruct (_get_shape_dict tensor src named_sizes) as [shape_dict|e0] eqn:Hd;
    simpl.
  2:{ intros [= <-]. apply get_shape_dict_size_error in Hd.
      destruct e0 as [[]|[]| | | |]; try discriminate; split; auto. }
  destruct (bool_decide _) eqn:Hids; simpl; [|intros [= <-]; split; auto].
  apply bool_decide_eq_true in Hids.
  destruct (_compute_output_shape tensor tgt src shape_dict) as [plan|e1] eqn:Hp;
    simpl.
  - intros Hperf. apply perform_raise in Hperf as [v ->]. split; auto.
  - intros [= <-].
    apply compute_output_shape_planner_error in Hp.
    + destruct e1 as [[]|[]| | | |]; try discriminate; split; auto.
    + eapply get_shape_dict_ok_dom; eassumption.
    + eapply unknown_dims_empty; eassumption.
Qed.

End ExceptionSurface.

(** X8. For size hints in the signed 64-bit range (the integers numpy
    holds as [int64], on which the arithmetic of [np.prod], [%] and [//] is
    the one modelled here), an exception raised by [rearrange] is an
    [EinopsError] or one of three built-in exceptions: the [ValueError] of
    unpacking a pattern with several arrows, [IndexError], or
    [UnboundLocalError]. In particular no [KeyError] and no [ValueError] of
    [reshape] or [transpose] reaches the caller. *)
Theorem rearrange_exception_surface
  {A} (tensor : ndarray A) (pattern : string) (named_sizes : gmap string Z)
  (e : exn) :
  (forall k v, named_sizes !! k = Some v -> in_int64 v) ->
  rearrange tensor pattern named_sizes = Raise e ->
  is_einops_error e = true \/ is_builtin_leak e = true.
Proof. intros _ H. now apply rearrange_raise_kinds in H. Qed.

Lemma rearrange_exception_surface_witness :
  is_einops_error (EinopsError (CannotDivide 4 3)) = true
  \/ is_builtin_leak (EinopsError (CannotDivide 4 3)) = true.
Proof.
  apply (rearrange_exception_surface (zeros [4; 4]%nat) "(a b) c -> a b c"
           {["a" := 3]}).
  - intros k v Hk. apply lookup_singleton_Some in Hk as [_ <-].
    unfold in_int64. lia.
  - vm_compute. reflexivity.
Defined.

(** X9. Three error paths of [rearrange] are never taken: the handler that
    turns a [ValueError] of [_get_shape_dict] into "Cannot infer sizes"
    (lines 150-151), the "Unknown dimension" raised inside
    [_compute_output_shape] (line 102) and the handler that turns its
    [KeyError] into "Unknown dimension" (lines 162-163). The identifier
    check of lines 153-157 catches every unknown target axis first. *)
Theorem rearrange_dead_error_paths
  {A} (tensor : ndarray A) (pattern : string) (named_sizes : gmap string Z)
  (e : exn) :
  rearrange tensor pattern named_sizes = Raise e -> is_dead_error e = false.
Proof. intros H. now apply rearrange_raise_kinds in H. Qed.

Lemma rearrange_dead_error_paths_witness :
  is_dead_error (EinopsError (UnknownDimensions {["d"]})) = false.
Proof.
  apply (rearrange_dead_error_paths (zeros [2; 3; 4]%nat) "a b c -> a (b d)" ∅).
  vm_compute. reflexivity.
Defined.

(* ===================================================================== *)
(** * An ellipsis in the source and the dimension check                   *)
(* ===================================================================== *)

Section EllipsisReached.
Context {A : Type}.
Implicit Types (tensor : ndarray A) (shape_dict : gmap string Z).

Lemma shape_loop_app tensor comp pre items st :
  shape_loop tensor comp (pre ++ items) st
  = do st1 <- shape_loop tensor comp pre st; shape_loop tensor comp items st1.
Proof.
  revert st. induction pre as [|item pre IH]; intros st; [reflexivity|].
  change ((item :: pre) ++ items) with (item :: pre ++ items).
  rewrite !shape_loop_cons.
  destruct (shape_step tensor comp item st); simpl; [apply IH | reflexivity].
Qed.

(** Groups before the first ellipsis advance [current_dim] by one each. *)
Lemma shape_loop_groups_count tensor comp pre shape_dict cd d1 cd1 :
  ~ In EllipsisItem pre -> 0 <= cd ->
  shape_loop tensor comp pre (shape_dict, cd) = Ok (d1, cd1) ->
  cd1 = cd + Z.of_nat (length pre).
Proof.
  revert shape_dict cd.
  induction pre as [|item pre IH]; intros shape_dict cd Hpre Hcd.
  - simpl. intros [= _ <-]. lia.
  - rewrite shape_loop_cons.
    destruct item as [item|]; [|exfalso; apply Hpre; simpl; auto].
    destruct (shape_step tensor comp (Axes item) (shape_dict, cd))
      as [[d2 cd2]|] eqn:Hs; simpl; [|discriminate].
    apply shape_step_axes in Hs as [-> _]; [|assumption].
    intros Hl. apply IH in Hl; [|intros H; apply Hpre; simpl; auto | lia].
    simpl length. lia.
Qed.

Lemma named_groups_split pre post :
  ~ In EllipsisItem pre ->
  named_groups (pre ++ EllipsisItem :: post)
  = Z.of_nat (length pre) + named_groups post.
Proof.
  intros Hpre. unfold named_groups.
  rewrite List.filter_app, length_app. simpl.
  replace (List.filter is_list pre) with pre; [lia|].
  induction pre as [|item pre IH]; [reflexivity|].
  destruct item as [item|]; [|exfalso; apply Hpre; simpl; auto].
  simpl. f_equal. apply IH. intros H; apply Hpre; simpl; auto.
Qed.

(** With more groups than dimensions, the resolver stops at the first
    ellipsis it reaches. *)
Lemma shape_loop_stops_at_ellipsis tensor comp pre post shape_dict st :
  comp = pre ++ EllipsisItem :: post -> ~ In EllipsisItem pre ->
  ndim tensor < named_groups comp ->
  shape_loop tensor comp pre (shape_dict, 0) = Ok st ->
  shape_loop tensor comp comp (shape_dict, 0)
  = Raise (EinopsError PatternHasMoreDimensionsThanTensor).
Proof.
  intros Hcomp Hpre Hmany Hl. destruct st as [d1 cd1].
  apply shape_loop_groups_count in Hl as Hcd; [|assumption | lia].
  replace (shape_loop tensor comp comp (shape_dict, 0))
    with (shape_loop tensor comp (pre ++ EllipsisItem :: post) (shape_dict, 0))
    by congruence.
  rewrite shape_loop_app, Hl. cbn [bind]. rewrite shape_loop_cons.
  unfold shape_step. rewrite Hcomp at 1.
  rewrite lists_after_ellipsis_first by assumption. cbn [bind].
  rewrite Hcomp, named_groups_split in Hmany by assumption.
  destruct (Z.ltb_spec (ndim tensor - cd1 - named_groups post) 0); [|lia].
  reflexivity.
Qed.

(** With an ellipsis in the source, no exception of [rearrange] comes from
    the dimension check. *)
Lemma rearrange_ellipsis_raise tensor pattern source target named_sizes src e :
  str_split pattern "->" = [source; target] ->
  parse (str_strip source) = Ok src ->
  has_ellipsis src = true ->
  rearrange tensor pattern named_sizes = Raise e ->
  is_dimension_count_error e = false.
Proof.
  intros Hsplit Hsrc Hell.
  unfold rearrange, rearrange_plan.
  destruct (str_contains "->" pattern); simpl; [|intros [= <-]; reflexivity].
  rewrite Hsplit. simpl. rewrite Hsrc. simpl.
  destruct (parse (str_strip target)) as [tgt|e0] eqn:Htgt; simpl.
  2:{ intros [= ->]. apply syntax_error_not_dimension_count.
      eapply parse_raise; eassumption. }
  rewrite Hell.
  replace (actual_dim_count src + (ndim tensor - actual_dim_count src))
    with (ndim tensor) by lia.
  rewrite Z.eqb_refl. simpl.
  destruct (_get_shape_dict tensor src named_sizes) as [shape_dict|e0] eqn:Hd;
    simpl.
  2:{ intros [= <-]. apply get_shape_dict_size_error in Hd.
      destruct e0 as [[]|[]| | | |]; try discriminate; reflexivity. }
  destruct (bool_decide _) eqn:Hids; simpl; [|intros [= <-]; reflexivity].
  apply bool_decide_eq_true in Hids.
  destruct (_compute_output_shape tensor tgt src shape_dict) as [plan|e1] eqn:Hp;
    simpl.
  - intros Hperf. apply perform_raise in Hperf as [v ->]. reflexivity.
  - intros [= <-].
    apply compute_output_shape_planner_error in Hp.
    + destruct e1 as [[]|[]| | | |]; try discriminate; reflexivity.
    + eapply get_shape_dict_ok_dom; eassumption.
    + eapply unknown_dims_empty; eassumption.
Qed.

End EllipsisReached.

(** ** C2: an ellipsis and more groups than dimensions *)

(** C2, the claim as stated fails: the source ["... a b c"] has an ellipsis
    and three named groups, the array has rank 2, and the call raises
    "Pattern has more dimensions than tensor" from the shape resolver, not
    the "Pattern requires more dimensions" error of the dimension check. *)
Lemma ellipsis_source_other_error :
  (exists src, parse "... a b c" = Ok src /\ has_ellipsis src = true
               /\ named_groups (composition src) = 3)
  /\ ndim (zeros [2; 3]%nat) = 2
  /\ rearrange (zeros [2; 3]%nat) "... a b c -> a b c" ∅
     = Raise (EinopsError PatternHasMoreDimensionsThanTensor)
  /\ rearrange (zeros [2; 3]%nat) "... a b c -> a b c" ∅
     <> Raise (EinopsError PatternRequiresMoreDimensions).
Proof.
  split; [eexists; split; [vm_compute; reflexivity|split; reflexivity]|].
  split; [reflexivity|].
  split; [vm_compute; reflexivity | vm_compute; discriminate].
Qed.

(** C2, amended. When the source pattern contains an ellipsis, the effective
    dimension count computed by [rearrange] equals the rank of the array
    whatever the pattern, so the dimension check never fires: no exception
    of the call is one of the two "Pattern requires fewer/more dimensions"
    errors. If moreover the source has more named groups than the array has
    dimensions, the call never returns an array; and when the target parses
    and the shape resolver gets through the groups written before the
    ellipsis, the exception is "Pattern has more dimensions than tensor",
    raised as the resolver reaches the ellipsis. *)
Theorem ellipsis_source_too_many_groups
  {A} (tensor : ndarray A) (pattern source target : string)
  (named_sizes : gmap string Z) (src : ParsedExpression) :
  str_split pattern "->" = [source; target] ->
  parse (str_strip source) = Ok src ->
  has_ellipsis src = true ->
  (forall e, rearrange tensor pattern named_sizes = Raise e ->
             is_dimension_count_error e = false)
  /\ (ndim tensor < named_groups (composition src) ->
      (exists e, rearrange tensor pattern named_sizes = Raise e)
      /\ (forall tgt pre post st,
             parse (str_strip target) = Ok tgt ->
             composition src = pre ++ EllipsisItem :: post ->
             ~ In EllipsisItem pre ->
             shape_loop tensor (composition src) pre (named_sizes, 0) = Ok st ->
             rearrange tensor pattern named_sizes
             = Raise (EinopsError PatternHasMoreDimensionsThanTensor))).
Proof.
  intros Hsplit Hsrc Hell.
  assert (Hc : str_contains "->" pattern = true).
  { apply (count_from_contains "->" O).
    pose proof (split_from_length "->" O EmptyString pattern) as Hl.
    fold (str_split pattern "->") in Hl. rewrite Hsplit in Hl. simpl in Hl. lia. }
  assert (Hcheck : actual_dim_count src + (ndim tensor - actual_dim_count src)
                   = ndim tensor) by lia.
  split; [intros e; now apply (rearrange_ellipsis_raise _ _ _ _ _ _ _ Hsplit Hsrc)|].
  intros Hmany. split.
  - unfold rearrange, rearrange_plan. rewrite Hc, Hsplit. simpl.
    rewrite Hsrc. simpl.
    destruct (parse (str_strip target)) as [tgt|e] eqn:Htgt; simpl; [|eauto].
    rewrite Hell, Hcheck, Z.eqb_refl. simpl.
    destruct (shape_loop_too_many_groups tensor (composition src) (composition src)
                [] named_sizes 0) as [e He].
    + reflexivity.
    + simpl; tauto.
    + unfold ndim; lia.
    + lia.
    + unfold _get_shape_dict. rewrite He. simpl. eauto.
  - intros tgt pre post st Htgt Hcomp Hpre Hl.
    unfold rearrange, rearrange_plan. rewrite Hc, Hsplit. simpl.
    rewrite Hsrc, Htgt. simpl. rewrite Hell, Hcheck, Z.eqb_refl. simpl.
    unfold _get_shape_dict.
    rewrite (shape_loop_stops_at_ellipsis _ _ _ _ _ _ Hcomp Hpre Hmany Hl).
    reflexivity.
Qed.

Lemma ellipsis_source_too_many_groups_witness :
  (forall e, rearrange (zeros [2; 3]%nat) "a ... b c -> a b c" ∅ = Raise e ->
             is_dimension_count_error e = false)
  /\ (exists e, rearrange (zeros [2; 3]%nat) "a ... b c -> a b c" ∅ = Raise e)
  /\ rearrange (zeros [2; 3]%nat) "a ... b c -> a b c" ∅
     = Raise (EinopsError PatternHasMoreDimensionsThanTensor).
Proof.
  pose proof (ellipsis_source_too_many_groups (zeros [2; 3]%nat)
                "a ... b c -> a b c" "a ... b c " " a b c" ∅
                (mkParsed true {["a"; "b"; "c"]}
                   [Axes ["a"]; EllipsisItem; Axes ["b"]; Axes ["c"]] 4)
                ltac:(vm_compute; reflexivity) ltac:(vm_compute; reflexivity)
                eq_refl) as [Hnever Hmany].
  split; [exact Hnever|].
  destruct (Hmany ltac:(vm_compute; reflexivity)) as [Hraise Hwhich].
  split; [exact Hraise|].
  apply (Hwhich (mkParsed false {["a"; "b"; "c"]}
                   [Axes ["a"]; Axes ["b"]; Axes ["c"]] 3)
                [Axes ["a"]] [Axes ["b"]; Axes ["c"]] (<["a" := 2]> ∅, 1)).
  - vm_compute; reflexivity.
  - reflexivity.
  - simpl. intros [H|[]]; discriminate H.
  - vm_compute; reflexivity.
Defined.

Section NoEllipsis.
Context {A : Type}.
Implicit Types (tensor : ndarray A) (shape_dict : gmap string Z).

Lemma py_index_in_range {B} (xs : list B) i :
  0 <= i < Z.of_nat (length xs) -> exists x, py_index xs i = Ok x.
Proof.
  intros Hi. unfold py_index.
  destruct (Z.ltb_spec i 0); [lia|].
  destruct (Z.ltb_spec i 0); [lia|].
  destruct (Z.leb_spec (Z.of_nat (length xs)) i); [lia|]. simpl.
  destruct (lookup_lt_is_Some_2 xs (Z.to_nat i)) as [x ->]; [lia | eauto].
Qed.

Lemma resolve_group_einops item total shape_dict e :
  resolve_group item total shape_dict = Raise e -> is_einops_error e = true.
Proof.
  unfold resolve_group.
  destruct (List.filter _ item) as [|u [|u' l]] eqn:Hunk;
    try (intros [= <-]; reflexivity).
  - destruct (list_comp_dict_get_ok shape_dict item) as [sizes ->].
    { intros x Hx. apply dict_mem_is_Some.
      pose proof (filter_nil_all _ _ x Hunk Hx) as Hf. simpl in Hf.
      now destruct (dict_mem shape_dict x). }
    simpl. case_match; [intros [= <-]; reflexivity | discriminate].
  - rewrite list_comp_known. simpl.
    case_match; [intros [= <-]; reflexivity | discriminate].
Qed.

(** A group read within the bounds of [tensor.shape] fails only with an
    [EinopsError]. *)
Lemma shape_step_axes_einops tensor comp item shape_dict cd e :
  0 <= cd < ndim tensor ->
  shape_step tensor comp (Axes item) (shape_dict, cd) = Raise e ->
  is_einops_error e = true.
Proof.
  intros Hcd. unfold shape_step.
  destruct (py_index_in_range (shapeZ tensor) cd) as [total ->].
  { unfold shapeZ. rewrite length_map. exact Hcd. }
  simpl.
  assert (Hg : (do d2 <- resolve_group item total shape_dict; Ok (d2, cd + 1))
               = Raise e -> is_einops_error e = true).
  { destruct (resolve_group item total shape_dict) eqn:Hr; simpl; [discriminate|].
    intros [= <-]. eapply resolve_group_einops; eassumption. }
  destruct item as [|x [|y item]]; try exact Hg.
  repeat case_match; try discriminate; intros [= <-]; reflexivity.
Qed.

(** Without an ellipsis and with no more groups left than dimensions left,
    the loop of [_get_shape_dict] reads [tensor.shape] within bounds. *)
Lemma shape_loop_no_ellipsis tensor comp items shape_dict cd e :
  ~ In EllipsisItem items -> 0 <= cd ->
  cd + Z.of_nat (length items) <= ndim tensor ->
  shape_loop tensor comp items (shape_dict, cd) = Raise e ->
  is_einops_error e = true.
Proof.
  revert shape_dict cd.
  induction items as [|item items IH]; intros shape_dict cd Hno Hcd Hlen;
    [discriminate|].
  rewrite shape_loop_cons. simpl length in Hlen.
  destruct item as [item|]; [|exfalso; apply Hno; simpl; auto].
  destruct (shape_step tensor comp (Axes item) (shape_dict, cd))
    as [[d1 cd1]|e1] eqn:Hs; simpl.
  - apply shape_step_axes in Hs as [-> _]; [|assumption].
    apply IH; [intros H; apply Hno; simpl; auto | lia | lia].
  - intros [= ->]. eapply shape_step_axes_einops; [|eassumption]. lia.
Qed.

Lemma target_loop_no_ellipsis tensor shape_dict src items st e :
  ~ In EllipsisItem items ->
  (forall x, In x (comp_names items) ->
             is_Some (shape_dict !! x) /\ is_Some (source_positions src !! x)) ->
  target_loop tensor shape_dict src items st = Raise e -> False.
Proof.
  revert st. induction items as [|item items IH]; intros st Hno H; [discriminate|].
  unfold comp_names in H. simpl in H. cbn [target_loop].
  destruct item as [item|]; [|exfalso; apply Hno; simpl; auto].
  destruct (target_step tensor shape_dict src (Axes item) st)
    as [st1|e1] eqn:Hs; simpl.
  - apply IH; [intros Hin; apply Hno; simpl; auto|].
    intros; apply H, in_app_iff; auto.
  - intros _. destruct st as [final_shape permutation]. unfold target_step in Hs.
    destruct (list_comp_dict_get_ok shape_dict item) as [sizes Hsizes];
      [intros; apply H, in_app_iff; auto|].
    destruct (list_comp_dict_get_ok (source_positions src) item) as [ps Hps];
      [intros; apply H, in_app_iff; auto|].
    destruct item as [|x [|y item]].
    + rewrite Hsizes, Hps in Hs. discriminate.
    + destruct (H x) as [Hd Hp]; [simpl; auto|].
      apply dict_mem_is_Some in Hd as Hm. rewrite Hm in Hs. simpl in Hs.
      destruct (dict_get_is_Some _ _ Hd) as [s Hs1].
      destruct (dict_get_is_Some _ _ Hp) as [p Hp1].
      rewrite Hs1, Hp1 in Hs. discriminate.
    + rewrite Hsizes, Hps in Hs. discriminate.
Qed.

End NoEllipsis.

(** X10. For size hints in the signed 64-bit range and a pattern with
    exactly one arrow and no ellipsis on either side, every failure of
    [rearrange] is an [EinopsError]: the built-in exceptions of X8 can only
    come from a second arrow or from an ellipsis. *)
Theorem rearrange_without_ellipsis_raises_einops
  {A} (tensor : ndarray A) (pattern source target : string)
  (named_sizes : gmap string Z) (e : exn) :
  (forall k v, named_sizes !! k = Some v -> in_int64 v) ->
  str_split pattern "->" = [source; target] ->
  (forall src, parse (str_strip source) = Ok src ->
               has_ellipsis src = false /\ ~ In EllipsisItem (composition src)) ->
  (forall tgt, parse (str_strip target) = Ok tgt ->
               ~ In EllipsisItem (composition tgt)) ->
  rearrange tensor pattern named_sizes = Raise e ->
  is_einops_error e = true.
Proof.
  intros _ Hsplit Hsource Htarget.
  unfold rearrange, rearrange_plan.
  destruct (str_contains "->" pattern); simpl; [|intros [= <-]; reflexivity].
  rewrite Hsplit. simpl.
  destruct (parse (str_strip source)) as [src|e0] eqn:Hsrc; simpl.
  2:{ intros [= ->]. apply parse_raise in Hsrc.
      destruct e; [reflexivity | discriminate..]. }
  destruct (parse (str_strip target)) as [tgt|e0] eqn:Htgt; simpl.
  2:{ intros [= ->]. apply parse_raise in Htgt.
      destruct e; [reflexivity | discriminate..]. }
  destruct (Hsource src eq_refl) as [Hflag Hnos].
  specialize (Htarget tgt eq_refl). rewrite Hflag.
  destruct (Z.eqb_spec (actual_dim_count src) (ndim tensor)) as [Hdim|_]; simpl;
    [|case_match; intros [= <-]; reflexivity].
  destruct (_get_shape_dict tensor src named_sizes) as [shape_dict|e0] eqn:Hd;
    simpl.
  2:{ intros [= <-]. unfold _get_shape_dict in Hd.
      destruct (shape_loop tensor _ _ _) as [[d1 cd1]|e1] eqn:Hl;
        simpl in Hd; [discriminate|]. injection Hd as <-.
      apply shape_loop_no_ellipsis in Hl as He; [|assumption|lia|].
      - destruct e1; [reflexivity | discriminate..].
      - apply parse_ok_state in Hsrc as [_ Hn]. lia. }
  destruct (bool_decide _) eqn:Hids; simpl; [|intros [= <-]; reflexivity].
  apply bool_decide_eq_true in Hids.
  destruct (_compute_output_shape tensor tgt src shape_dict) as [plan|e1] eqn:Hp;
    simpl.
  - intros Hperf. apply perform_raise in Hperf as [v ->]. reflexivity.
  - intros [= <-]. unfold _compute_output_shape in Hp.
    pose proof (get_shape_dict_ok_dom _ _ _ _ Hd) as Hdom.
    destruct (source_loop_total tensor (composition src) shape_dict
                (composition src) (mkSrc [] ∅ 0 None)) as [st Hst]; [auto | auto |].
    pose proof (source_loop_present tensor (composition src) shape_dict
                  (composition src) (mkSrc [] ∅ 0 None) Hdom) as Hloop.
    rewrite Hst in *. simpl in Hp. destruct Hloop as [_ Hpos].
    destruct (target_loop tensor shape_dict st (composition tgt) ([], []))
      as [[final_shape permutation]|e2] eqn:Ht; simpl in Hp.
    + destruct (negb _) in Hp; [injection Hp as <-; reflexivity | discriminate].
    + exfalso. eapply target_loop_no_ellipsis; [| |eassumption]; [assumption|].
      intros x Hx.
      pose proof (unknown_dims_empty _ _ _ _ Hsrc Htgt Hids x Hx) as Hin.
      split; [apply Hdom | apply Hpos]; assumption.
Qed.

Lemma rearrange_without_ellipsis_raises_einops_witness :
  is_einops_error (EinopsError (CannotReshape 6 [2])) = true.
Proof.
  apply (rearrange_without_ellipsis_raises_einops (zeros [2; 3]%nat)
           "a b -> a" "a b " " a" ∅).
  - intros k v Hk. rewrite lookup_empty in Hk. discriminate Hk.
  - vm_compute; reflexivity.
  - intros src Hsrc. vm_compute in Hsrc. injection Hsrc as <-.
    split; [reflexivity|]. simpl. intros [H|[H|[]]]; discriminate H.
  - intros tgt Htgt. vm_compute in Htgt. injection Htgt as <-.
    simpl. intros [H|[]]; discriminate H.
  - vm_compute; reflexivity.
Defined.

(** X11. For a source pattern without ["..."] that parses, with a target
    that parses too, [rearrange] compares the number of elements of the
    source composition with the rank of the array: fewer elements raise
    "Pattern requires fewer dimensions", more raise "Pattern requires more
    dimensions", before any size is looked at. *)
Theorem rearrange_dimension_count_mismatch
  {A} (tensor : ndarray A) (pattern source target : string)
  (named_sizes : gmap string Z) (src tgt : ParsedExpression) :
  str_split pattern "->" = [source; target] ->
  parse (str_strip source) = Ok src ->
  parse (str_strip target) = Ok tgt ->
  has_ellipsis src = false ->
  length (composition src) <> length (shape tensor) ->
  rearrange tensor pattern named_sizes
  = Raise (EinopsError
             (if (length (composition src) <? length (shape tensor))%nat
              then PatternRequiresFewerDimensions
              else PatternRequiresMoreDimensions)).
Proof.
  intros Hsplit Hsrc Htgt Hflag Hne.
  unfold rearrange, rearrange_plan.
  assert (Hc : str_contains "->" pattern = true).
  { apply (count_from_contains "->" O).
    pose proof (split_from_length "->" O EmptyString pattern) as Hl.
    fold (str_split pattern "->") in Hl. rewrite Hsplit in Hl. simpl in Hl. lia. }
  rewrite Hc, Hsplit. simpl. rewrite Hsrc, Htgt. simpl. rewrite Hflag.
  apply parse_ok_state in Hsrc as [_ Hn]. rewrite Hn. unfold ndim.
  destruct (Z.eqb_spec (Z.of_nat (length (composition src)))
                       (Z.of_nat (length (shape tensor)))) as [Heq|_];
    [lia|]. simpl.
  destruct (Z.ltb_spec (Z.of_nat (length (composition src)))
                       (Z.of_nat (length (shape tensor))));
    destruct (Nat.ltb_spec (length (composition src)) (length (shape tensor)));
    try lia; reflexivity.
Qed.

Lemma rearrange_dimension_count_mismatch_witness :
  rearrange (zeros [2; 3; 4]%nat) "a b -> b a" ∅
  = Raise (EinopsError PatternRequiresFewerDimensions).
Proof.
  refine (rearrange_dimension_count_mismatch (zeros [2; 3; 4]%nat) "a b -> b a"
            "a b " " b a" ∅
            (mkParsed false {["a"; "b"]} [Axes ["a"]; Axes ["b"]] 2)
            (mkParsed false {["a"; "b"]} [Axes ["b"]; Axes ["a"]] 2)
            _ _ _ _ _).
  - vm_compute; reflexivity.
  - vm_compute; reflexivity.
  - vm_compute; reflexivity.
  - reflexivity.
  - simpl; lia.
Defined.

(* ===================================================================== *)
(** * Further properties of [_compute_output_shape]                       *)
(* ===================================================================== *)

Section Positions.
Context {A : Type}.
Implicit Types (tensor : ndarray A) (shape_dict : gmap string Z).

Lemma py_slice_length {B} (xs : list B) lo hi :
  0 <= lo -> 0 <= hi <= Z.of_nat (length xs) ->
  Z.of_nat (length (py_slice xs lo hi)) = Z.max 0 (hi - lo).
Proof.
  intros Hlo Hhi. unfold py_slice, clamp_bound.
  destruct (Z.ltb_spec lo 0); [lia|]. destruct (Z.ltb_spec hi 0); [lia|].
  rewrite length_take, length_drop. lia.
Qed.

Lemma lists_after_ellipsis_nonneg comp r :
  lists_after_ellipsis comp = Ok r -> 0 <= r.
Proof.
  unfold lists_after_ellipsis.
  destruct (list_index comp EllipsisItem); simpl; [|discriminate].
  intros [= <-]. lia.
Qed.

Lemma py_range_bounded lo hi : Forall (fun p => p < hi) (py_range lo hi).
Proof.
  unfold py_range. apply List.Forall_forall. intros p Hp.
  apply in_map_iff in Hp as [k [<- Hk]]. apply in_seq in Hk. lia.
Qed.

Lemma Forall_lt_weaken (l : list Z) a b :
  a <= b -> Forall (fun p => p < a) l -> Forall (fun p => p < b) l.
Proof. intros Hab. apply List.Forall_impl. intros p Hp. lia. Qed.

Lemma place_axis_bounded shape_dict axis st st1 :
  place_axis shape_dict axis st = Ok st1 -> src_bounded st -> src_bounded st1.
Proof.
  unfold place_axis. destruct (dict_get shape_dict axis); simpl; [|discriminate].
  intros [= <-]. unfold src_bounded. simpl. rewrite length_app. simpl.
  intros (Hcd & Hpos & Hdims). repeat split; try lia.
  - intros x p. rewrite lookup_insert. case_decide; [intros [= <-]; lia|].
    intros Hx. specialize (Hpos x p Hx). lia.
  - intros dims Hd. eapply Forall_lt_weaken; [|apply Hdims; assumption]. lia.
Qed.

Lemma place_axes_bounded shape_dict item st st1 :
  place_axes shape_dict item st = Ok st1 -> src_bounded st -> src_bounded st1.
Proof.
  revert st. induction item as [|x item IH]; intros st; cbn [place_axes].
  - now intros [= <-].
  - destruct (place_axis shape_dict x st) eqn:Hp; simpl; [|discriminate].
    intros H Hst. eapply IH; [eassumption|]. eapply place_axis_bounded; eassumption.
Qed.

Lemma source_loop_bounded tensor comp shape_dict items st st1 :
  (forall r, lists_after_ellipsis comp = Ok r -> r <= ndim tensor) ->
  source_loop tensor comp shape_dict items st = Ok st1 ->
  src_bounded st -> src_bounded st1.
Proof.
  intros Hr. revert st.
  induction items as [|item items IH]; intros st; cbn [source_loop].
  - now intros [= <-].
  - destruct (source_step tensor comp shape_dict item st) as [st2|] eqn:Hs;
      simpl; [|discriminate].
    intros Hl Hst. apply (IH st2 Hl). clear Hl IH.
    destruct item as [item|].
    + rewrite source_step_axes in Hs. eapply place_axes_bounded; eassumption.
    + unfold source_step in Hs.
      destruct (lists_after_ellipsis comp) as [r|] eqn:Hl; simpl in Hs; [|discriminate].
      injection Hs as <-. destruct Hst as (Hcd & Hpos & Hdims).
      specialize (Hr r eq_refl). apply lists_after_ellipsis_nonneg in Hl.
      assert (Hlen : Z.of_nat (length (py_slice (shapeZ tensor) (current_dim st)
                                                (ndim tensor - r)))
                     = Z.max 0 (ndim tensor - r - current_dim st)).
      { apply py_slice_length; [lia|]. unfold shapeZ. rewrite length_map.
        unfold ndim in *. lia. }
      unfold src_bounded. simpl. rewrite length_app, Nat2Z.inj_add, Hlen.
      repeat split; try lia.
      * intros x p Hx. specialize (Hpos x p Hx). lia.
      * intros dims [= <-].
        eapply Forall_lt_weaken; [|apply py_range_bounded]. lia.
Qed.

Lemma list_comp_dict_get_bounded (d : gmap string Z) xs ps len :
  (forall x p, d !! x = Some p -> p < len) ->
  list_comp (dict_get d) xs = Ok ps -> Forall (fun p => p < len) ps.
Proof.
  intros Hd. revert ps. induction xs as [|x xs IH]; intros ps; simpl.
  - intros [= <-]. constructor.
  - unfold dict_get at 1. destruct (d !! x) as [p|] eqn:Hx; simpl; [|discriminate].
    destruct (list_comp (dict_get d) xs); simpl; [|discriminate].
    intros [= <-]. constructor; eauto.
Qed.

Lemma target_loop_bounded tensor shape_dict src items final perm final1 perm1 :
  src_bounded src ->
  target_loop tensor shape_dict src items (final, perm) = Ok (final1, perm1) ->
  Forall (fun p => p < Z.of_nat (length (intermediate_shape src))) perm ->
  Forall (fun p => p < Z.of_nat (length (intermediate_shape src))) perm1.
Proof.
  intros (_ & Hpos & Hdims). revert final perm.
  induction items as [|item items IH]; intros final perm; cbn [target_loop].
  - now intros [= <- <-].
  - destruct (target_step tensor shape_dict src item (final, perm))
      as [[final2 perm2]|] eqn:Hs; simpl; [|discriminate].
    intros Hl Hperm. apply (IH _ _ Hl). clear Hl IH.
    unfold target_step in Hs. destruct item as [[|x [|y item]]|].
    + destruct (list_comp (dict_get shape_dict) []); simpl in Hs; [|discriminate].
      injection Hs as <- <-. now rewrite app_nil_r.
    + destruct (negb (dict_mem shape_dict x)); [discriminate|].
      destruct (dict_get shape_dict x); simpl in Hs; [|discriminate].
      unfold dict_get in Hs.
      destruct (source_positions src !! x) as [p|] eqn:Hx; simpl in Hs; [|discriminate].
      injection Hs as <- <-. apply Forall_app. split; [assumption|].
      constructor; [eauto | constructor].
    + unfold bind in Hs.
      destruct (list_comp (dict_get shape_dict) (x :: y :: item)); [|discriminate].
      destruct (list_comp (dict_get (source_positions src)) (x :: y :: item))
        as [ps|] eqn:Hps; [|discriminate].
      injection Hs as <- <-. apply Forall_app. split; [assumption|].
      eapply list_comp_dict_get_bounded; eassumption.
    + destruct (ellipsis_dims src) as [dims|] eqn:Hd; [|discriminate].
      destruct (list_comp _ dims); simpl in Hs; [|discriminate].
      injection Hs as <- <-. apply Forall_app. split; [assumption | auto].
Qed.

Lemma rearrange_plan_bounded tensor pattern named_sizes inter final perm :
  rearrange_plan tensor pattern named_sizes = Ok (inter, final, perm) ->
  Forall (fun p => p < Z.of_nat (length inter)) perm.
Proof.
  intros Hplan. apply rearrange_plan_ok in Hplan as (src & tgt & shape_dict & Hd & Hc).
  unfold _compute_output_shape in Hc.
  destruct (source_loop tensor _ _ _ _) as [st|] eqn:Hs; simpl in Hc; [|discriminate].
  destruct (target_loop tensor _ _ _ _) as [[final1 perm1]|] eqn:Ht; simpl in Hc;
    [|discriminate].
  destruct (negb _) in Hc; [discriminate|]. injection Hc as <- <- <-.
  eapply target_loop_bounded; [|eassumption|constructor].
  eapply source_loop_bounded; [|eassumption|].
  - intros r Hr. unfold _get_shape_dict in Hd.
    destruct (shape_loop tensor _ _ _) as [st1|] eqn:Hl; simpl in Hd; [|discriminate].
    eapply shape_loop_ok_ellipsis; [| |eassumption|eassumption]; [lia|].
    eapply lists_after_ellipsis_ok_in; eassumption.
  - unfold src_bounded. simpl. repeat split; try lia; [|discriminate].
    intros x p. rewrite lookup_empty. discriminate.
Qed.

End Positions.

(** X12. Whenever [rearrange] gets as far as a plan, every entry of the
    permutation is a position of the intermediate shape: it is at least 0
    and less than the length of [intermediate_shape]. The axes handed to
    [transpose] are therefore never out of bounds, and never negative. *)
Theorem permutation_entries_are_positions
  {A} (tensor : ndarray A) (pattern : string) (named_sizes : gmap string Z)
  (inter final perm : list Z) (p : Z) :
  rearrange_plan tensor pattern named_sizes = Ok (inter, final, perm) ->
  In p perm -> 0 <= p < Z.of_nat (length inter).
Proof.
  intros Hplan Hin.
  pose proof (rearrange_plan_nonneg _ _ _ _ _ _ Hplan) as Hnn.
  pose proof (rearrange_plan_bounded _ _ _ _ _ _ Hplan) as Hb.
  rewrite List.Forall_forall in Hnn, Hb. split; auto.
Qed.

Lemma permutation_entries_are_positions_witness :
  0 <= 2 < Z.of_nat (length [2; 3; 4]).
Proof.
  apply (permutation_entries_are_positions (arange [2; 3; 4]%nat)
           "a b c -> c (a b)" ∅ [2; 3; 4] [4; 6] [2; 0; 1] 2).
  - vm_compute; reflexivity.
  - simpl; auto.
Defined.

(* ===================================================================== *)
(** * What a successful call returns                                      *)
(* ===================================================================== *)

Section ResultShape.
Context {A : Type}.
Implicit Types (tensor : ndarray A).
Local Open Scope nat_scope.

Lemma size_of_permutation sh1 sh2 : Permutation sh1 sh2 -> size_of sh1 = size_of sh2.
Proof. induction 1; simpl; lia. Qed.

Lemma map_nth_seq {B} (l : list B) d :
  map (fun i => nth i l d) (seq 0 (length l)) = l.
Proof.
  induction l as [|x l IH]; [reflexivity|].
  simpl. f_equal. rewrite <- seq_shift, map_map. exact IH.
Qed.

(** A duplicate-free list of [n] numbers below [n] is a rearrangement of
    [0 .. n-1]. *)
Lemma permutation_of_seq (perm : list nat) n :
  NoDup perm -> length perm = n -> Forall (fun a => a < n) perm ->
  Permutation perm (seq 0 n).
Proof.
  intros Hnd Hlen Hlt. apply NoDup_Permutation_bis.
  - now apply NoDup_ListNoDup.
  - rewrite length_seq. lia.
  - intros a Ha. apply in_seq. rewrite List.Forall_forall in Hlt.
    specialize (Hlt a Ha). lia.
Qed.

Lemma list_comp_normalize_lt n axes perm :
  list_comp (normalize_axis n) axes = Ok perm ->
  length perm = length axes /\ Forall (fun a => a < n) perm.
Proof.
  revert perm. induction axes as [|a axes IH]; intros perm; simpl.
  - intros [= <-]. split; [reflexivity | constructor].
  - unfold normalize_axis at 1.
    destruct ((a <? - Z.of_nat n)%Z || (Z.of_nat n <=? a)%Z) eqn:Hb; simpl;
      [discriminate|].
    destruct (list_comp (normalize_axis n) axes) as [perm1|]; simpl; [|discriminate].
    intros [= <-]. destruct (IH perm1 eq_refl) as [Hlen Hlt].
    apply orb_false_iff in Hb as [Hb1 Hb2].
    apply Z.ltb_ge in Hb1. apply Z.leb_gt in Hb2.
    split; [simpl; lia|]. constructor; [|assumption].
    destruct (a <? 0)%Z eqn:Hneg; [apply Z.ltb_lt in Hneg | apply Z.ltb_ge in Hneg];
      lia.
Qed.

(** What a successful [transpose] did: a rearrangement [perm] of the axes. *)
Lemma transpose_inv tensor axes r :
  transpose tensor axes = Ok r ->
  exists perm,
    Permutation perm (seq 0 (length (shape tensor)))
    /\ shape r = map (fun a => nth a (shape tensor) 0) perm
    /\ data r = omap (fun idx =>
                        data tensor
                        !! offset idx (map (fun a => nth a (strides (shape tensor)) 0)
                                           perm))
                     (indices (shape r)).
Proof.
  unfold transpose.
  destruct (length axes =? length (shape tensor)) eqn:Hlen; simpl; [|discriminate].
  apply Nat.eqb_eq in Hlen.
  destruct (list_comp _ axes) as [perm|] eqn:Hc; simpl; [|discriminate].
  destruct (has_dup perm) eqn:Hdup; [discriminate|]. intros [= <-].
  apply list_comp_normalize_lt in Hc as [Hl Hlt].
  exists perm. split; [|split; reflexivity].
  apply permutation_of_seq; [now apply has_dup_false | lia | assumption].
Qed.

Lemma transpose_size tensor axes r :
  transpose tensor axes = Ok r -> size_of (shape r) = size_of (shape tensor).
Proof.
  intros H. apply transpose_inv in H as (perm & Hperm & -> & _).
  transitivity (size_of (map (fun a => nth a (shape tensor) 0)
                             (seq 0 (length (shape tensor))))).
  - apply size_of_permutation, Permutation_map, Hperm.
  - now rewrite map_nth_seq.
Qed.

Lemma product_filter_nonneg (l : list Z) :
  List.filter (fun d => (d <? 0)%Z) l = [] ->
  List.filter (fun d => negb (d <? 0)%Z) l = l
  /\ Z.of_nat (size_of (map Z.to_nat l)) = product l.
Proof.
  induction l as [|d l IH]; simpl; [split; reflexivity|].
  destruct (Z.ltb_spec d 0); simpl; [discriminate|].
  intros Hl. destruct (IH Hl) as [-> Heq]. split; [reflexivity|].
  rewrite Nat2Z.inj_mul, Heq, Z2Nat.id; lia.
Qed.

Lemma size_of_inferred (l : list Z) (q : Z) x :
  (0 <= q)%Z -> List.filter (fun d => (d <? 0)%Z) l = [x] ->
  Z.of_nat (size_of (map (fun d => if (d <? 0)%Z then Z.to_nat q else Z.to_nat d) l))
  = (q * product (List.filter (fun d => negb (d <? 0)%Z) l))%Z.
Proof.
  intros Hq. induction l as [|d l IH]; simpl; [discriminate|].
  destruct (Z.ltb_spec d 0); simpl.
  - intros [= _ Hl]. apply product_filter_nonneg in Hl as [Hf Heq].
    rewrite Hf, Nat2Z.inj_mul, Z2Nat.id by lia. f_equal.
    rewrite <- Heq. f_equal. f_equal. apply map_ext_in. intros d' Hd'.
    assert (Hin : In d' (List.filter (fun d => negb (d <? 0)%Z) l))
      by (rewrite Hf; exact Hd').
    apply filter_In in Hin as [_ Hn]. now destruct (d' <? 0)%Z.
  - intros Hl. rewrite Nat2Z.inj_mul, (IH Hl), Z2Nat.id by lia. ring.
Qed.

Lemma fix_unknown_dimension_size newshape size sh :
  fix_unknown_dimension newshape size = Ok sh -> size_of sh = size.
Proof.
  unfold fix_unknown_dimension.
  destruct (List.filter (fun d => (d <? 0)%Z) newshape) as [|x [|y l]] eqn:Hneg;
    [| |discriminate].
  - destruct (Z.eqb_spec (product (List.filter (fun d => negb (d <? 0)%Z) newshape))
                         (Z.of_nat size)) as [Heq|]; [|discriminate].
    intros [= <-]. apply product_filter_nonneg in Hneg as [Hf Hsz].
    rewrite Hf in Heq. lia.
  - set (known := product (List.filter (fun d => negb (d <? 0)%Z) newshape)).
    destruct (Z.eqb_spec known 0); simpl; [discriminate|].
    destruct (Z.eqb_spec (Z.of_nat size mod known) 0) as [Hmod|]; simpl;
      [|discriminate].
    intros [= <-].
    assert (Hpos : (0 < known)%Z).
    { assert (0 <= known)%Z; [|lia]. unfold known.
      clear. induction newshape as [|d l IH]; simpl; [lia|].
      destruct (Z.ltb_spec d 0); simpl; [assumption | nia]. }
    assert (Hq : (0 <= Z.of_nat size / known)%Z) by (apply Z.div_pos; lia).
    apply Nat2Z.inj. rewrite (size_of_inferred _ _ x Hq Hneg). fold known.
    apply Z.div_exact in Hmod; lia.
Qed.

Lemma reshape_inv tensor newshape r :
  reshape tensor newshape = Ok r ->
  size_of (shape r) = size_of (shape tensor) /\ data r = data tensor.
Proof.
  unfold reshape.
  destruct (fix_unknown_dimension newshape _) as [sh|] eqn:Hf; simpl; [|discriminate].
  intros [= <-]. simpl. split; [|reflexivity].
  eapply fix_unknown_dimension_size; eassumption.
Qed.

(** The offset of a valid multi-index never exceeds [max_offset]. *)
Lemma offset_le_max idx (axes : list (nat * nat)) :
  Forall2 (fun i ax => i < fst ax) idx axes ->
  offset idx (map snd axes) <= max_offset axes.
Proof.
  induction 1 as [|i [d s] idx axes Hi _ IH]; simpl in *; [lia|]. nia.
Qed.

Lemma max_offset_permutation a1 a2 :
  Permutation a1 a2 -> max_offset a1 = max_offset a2.
Proof. induction 1; simpl; lia. Qed.

Lemma max_offset_strides sh :
  Forall (fun d => 0 < d) sh ->
  S (max_offset (combine sh (strides sh))) = size_of sh.
Proof.
  induction 1 as [|d r Hd _ IH]; simpl; [reflexivity|].
  rewrite <- IH. destruct d; simpl; lia.
Qed.

Lemma length_strides sh : length (strides sh) = length sh.
Proof. induction sh; simpl; congruence. Qed.

Lemma map_fst_combine {B C} (l : list B) (k : list C) :
  length l = length k -> map fst (combine l k) = l.
Proof.
  revert k. induction l as [|x l IH]; intros [|y k]; simpl; try discriminate;
    [reflexivity|]. intros [= H]. now rewrite IH.
Qed.

Lemma map_snd_combine {B C} (l : list B) (k : list C) :
  length l = length k -> map snd (combine l k) = k.
Proof.
  revert k. induction l as [|x l IH]; intros [|y k]; simpl; try discriminate;
    [reflexivity|]. intros [= H]. now rewrite IH.
Qed.

Lemma combine_map_nth (sh st perm : list nat) :
  length sh = length st ->
  Forall (fun a => a < length sh) perm ->
  combine (map (fun a => nth a sh 0) perm) (map (fun a => nth a st 0) perm)
  = map (fun a => nth a (combine sh st) (0, 0)) perm.
Proof.
  intros Hlen. induction 1 as [|a perm Ha _ IH]; simpl; [reflexivity|].
  rewrite IH. f_equal. symmetry. apply combine_nth. exact Hlen.
Qed.

(** Under permuted shape and strides, a valid multi-index stays within the
    elements of the array. *)
Lemma permuted_offset_lt (sh perm idx : list nat) :
  Permutation perm (seq 0 (length sh)) ->
  Forall2 lt idx (map (fun a => nth a sh 0) perm) ->
  offset idx (map (fun a => nth a (strides sh) 0) perm) < size_of sh.
Proof.
  intros Hperm Hidx.
  assert (Hlt : Forall (fun a => a < length sh) perm).
  { apply List.Forall_forall. intros a Ha.
    apply (Permutation_in _ Hperm), in_seq in Ha. lia. }
  pose proof (combine_map_nth sh (strides sh) perm
                (eq_sym (length_strides sh)) Hlt) as Hcomb.
  set (axes := map (fun a => nth a (combine sh (strides sh)) (0, 0)) perm) in *.
  assert (Haxes : Permutation axes (combine sh (strides sh))).
  { unfold axes.
    transitivity (map (fun a => nth a (combine sh (strides sh)) (0, 0))
                      (seq 0 (length (combine sh (strides sh))))).
    - rewrite length_combine, length_strides, Nat.min_id.
      apply Permutation_map, Hperm.
    - now rewrite map_nth_seq. }
  assert (Hfst : map fst axes = map (fun a => nth a sh 0) perm).
  { rewrite <- Hcomb. apply map_fst_combine. now rewrite !length_map. }
  assert (Hsnd : map snd axes = map (fun a => nth a (strides sh) 0) perm).
  { rewrite <- Hcomb. apply map_snd_combine. now rewrite !length_map. }
  rewrite <- Hsnd. rewrite <- Hfst in Hidx.
  assert (Hle : offset idx (map snd axes) <= max_offset axes).
  { apply offset_le_max. clear -Hidx. revert idx Hidx.
    induction axes as [|ax axes IH]; intros idx Hidx; inversion Hidx; subst;
      constructor; auto. }
  assert (Hpos : Forall (fun d => 0 < d) sh).
  { assert (Hall : Forall (fun d => 0 < d) (map fst axes)).
    { clear -Hidx. induction Hidx; constructor; [lia | assumption]. }
    assert (Hp : Permutation (map fst axes) sh).
    { rewrite (Permutation_map fst Haxes), map_fst_combine;
        [reflexivity | now rewrite length_strides]. }
    rewrite List.Forall_forall in *. intros d Hd.
    apply Hall. eapply Permutation_in; [symmetry; exact Hp | exact Hd]. }
  rewrite (max_offset_permutation _ _ Haxes) in Hle.
  pose proof (max_offset_strides sh Hpos). lia.
Qed.

Lemma length_omap_all {B C} (g : B -> option C) l :
  (forall x, In x l -> is_Some (g x)) -> length (omap g l) = length l.
Proof.
  induction l as [|x l IH]; intros H; [reflexivity|].
  rewrite omap_cons. destruct (H x) as [y ->]; [simpl; auto|].
  simpl. f_equal. apply IH. intros; apply H; simpl; auto.
Qed.

Lemma transpose_wf tensor axes r :
  wf tensor -> transpose tensor axes = Ok r -> wf r.
Proof.
  intros Hwf H. pose proof (transpose_size _ _ _ H) as Hsize.
  apply transpose_inv in H as (perm & Hperm & Hsh & Hdata).
  unfold wf in *. rewrite Hdata, length_omap_all, length_indices; [reflexivity|].
  intros idx Hidx. apply lookup_lt_is_Some_2. rewrite Hwf.
  apply permuted_offset_lt; [assumption|].
  rewrite <- Hsh. now apply indices_valid.
Qed.

Lemma reshape_wf tensor newshape r :
  wf tensor -> reshape tensor newshape = Ok r -> wf r.
Proof.
  intros Hwf H. apply reshape_inv in H as [Hs Hd]. unfold wf in *. congruence.
Qed.

Lemma perform_inv tensor plan r :
  perform tensor plan = Ok r ->
  size_of (shape r) = size_of (shape tensor) /\ (wf tensor -> wf r).
Proof.
  destruct plan as [[inter final] perm]. unfold perform.
  destruct (bool_decide _).
  - destruct (reshape tensor final) as [t1|] eqn:H1; simpl; [|discriminate].
    intros [= <-]. split; [eapply reshape_inv | intros; eapply reshape_wf]; eauto.
  - destruct (reshape tensor inter) as [t1|] eqn:H1; simpl; [|discriminate].
    destruct (transpose t1 perm) as [t2|] eqn:H2; simpl; [|discriminate].
    destruct (reshape t2 final) as [t3|] eqn:H3; simpl; [|discriminate].
    intros [= <-]. split.
    + apply reshape_inv in H1 as [H1 _]. apply reshape_inv in H3 as [H3 _].
      apply transpose_size in H2. lia.
    + intros Hwf. eapply reshape_wf; [|eassumption].
      eapply transpose_wf; [|eassumption]. eapply reshape_wf; eassumption.
Qed.

End ResultShape.

(** X13. A successful [rearrange] returns an array whose shape holds as
    many elements as the shape of its argument, and, when the argument has
    exactly as many elements as its shape says, so has the result. *)
Theorem rearrange_preserves_element_count
  {A} (tensor r : ndarray A) (pattern : string) (named_sizes : gmap string Z) :
  rearrange tensor pattern named_sizes = Ok r ->
  size_of (shape r) = size_of (shape tensor) /\ (wf tensor -> wf r).
Proof.
  unfold rearrange.
  destruct (rearrange_plan tensor pattern named_sizes) as [plan|]; simpl;
    [|discriminate].
  apply perform_inv.
Qed.

Lemma rearrange_preserves_element_count_witness :
  size_of [4; 6]%nat = size_of (shape (arange [2; 3; 4]%nat))
  /\ (wf (arange [2; 3; 4]%nat) ->
      wf (mkArray [4; 6]%nat
            [0; 4; 8; 12; 16; 20; 1; 5; 9; 13; 17; 21;
             2; 6; 10; 14; 18; 22; 3; 7; 11; 15; 19; 23])).
Proof.
  refine (rearrange_preserves_element_count (arange [2; 3; 4]%nat)
            (mkArray [4; 6]%nat
               [0; 4; 8; 12; 16; 20; 1; 5; 9; 13; 17; 21;
                2; 6; 10; 14; 18; 22; 3; 7; 11; 15; 19; 23])
            "a b c -> c (a b)" ∅ _).
  vm_compute. reflexivity.
Defined.

Section IdentityShortcut.
Context {A : Type}.
Implicit Types (tensor : ndarray A).

Lemma to_nat_py_range n : map Z.to_nat (py_range 0 (Z.of_nat n)) = seq 0 n.
Proof.
  unfold py_range. rewrite Z.sub_0_r, Nat2Z.id, map_map.
  rewrite <- (map_id (seq 0 n)) at 2. apply map_ext. intros k. lia.
Qed.

(** Transposing by [0, 1, ..., n-1] changes nothing. *)
Lemma transpose_identity tensor axes r :
  wf tensor -> axes = py_range 0 (Z.of_nat (length axes)) ->
  transpose tensor axes = Ok r -> r = tensor.
Proof.
  intros Hwf Hid. unfold transpose.
  destruct (length axes =? length (shape tensor))%nat eqn:Hlen; simpl;
    [|discriminate].
  apply Nat.eqb_eq in Hlen.
  destruct (list_comp _ axes) as [perm|] eqn:Hc; simpl; [|discriminate].
  apply list_comp_normalize_ok in Hc as [-> _].
  2:{ rewrite Hid. apply py_range_nonneg. lia. }
  rewrite Hid, Hlen, to_nat_py_range.
  destruct (has_dup _); [discriminate|]. intros [= <-].
  rewrite map_nth_seq.
  rewrite <- (length_strides (shape tensor)), map_nth_seq.
  rewrite <- (omap_map (fun idx => offset idx (strides (shape tensor)))
                       (fun k => data tensor !! k)).
  rewrite offsets_seq. unfold wf in Hwf. rewrite <- Hwf, omap_lookup_seq.
  now destruct tensor.
Qed.

Lemma reshape_only_size tensor t1 newshape :
  size_of (shape t1) = size_of (shape tensor) -> data t1 = data tensor ->
  reshape t1 newshape = reshape tensor newshape.
Proof. intros Hs Hd. unfold reshape. now rewrite Hs, Hd. Qed.

End IdentityShortcut.

(** X14. The shortcut of lines 167-168 does not change what [rearrange]
    computes: for an array with as many elements as its shape says, when
    the permutation is the identity sequence and the general expression of
    line 169, [reshape(intermediate).transpose(permutation).reshape(final)],
    returns an array, the shortcut [reshape(final)] returns the same array,
    and its elements are those of the argument in the same row-major
    order. *)
Theorem identity_shortcut_agrees_with_general_path
  {A} (tensor r : ndarray A) (inter final perm : list Z) :
  wf tensor ->
  perm = py_range 0 (Z.of_nat (length perm)) ->
  general_path tensor inter final perm = Ok r ->
  perform tensor (inter, final, perm) = Ok r /\ data r = data tensor.
Proof.
  intros Hwf Hid. unfold general_path, perform.
  rewrite bool_decide_eq_true_2 by assumption.
  destruct (reshape tensor inter) as [t1|] eqn:H1; cbn [bind]; [|discriminate].
  destruct (transpose t1 perm) as [t2|] eqn:H2; cbn [bind]; [|discriminate].
  pose proof (reshape_wf _ _ _ Hwf H1) as Hwf1.
  apply (transpose_identity _ _ _ Hwf1 Hid) in H2 as ->.
  apply reshape_inv in H1 as [Hs Hd].
  rewrite (reshape_only_size tensor t1 final Hs Hd).
  intros H3. rewrite H3. split; [reflexivity|].
  now apply reshape_inv in H3.
Qed.

Lemma identity_shortcut_agrees_with_general_path_witness :
  perform (arange [2; 3; 4]%nat) ([2; 3; 4], [2; 12], [0; 1; 2])
  = Ok (mkArray [2; 12]%nat (map Z.of_nat (seq 0 24)))
  /\ data (mkArray [2; 12]%nat (map Z.of_nat (seq 0 24)))
     = data (arange [2; 3; 4]%nat).
Proof.
  apply (identity_shortcut_agrees_with_general_path (arange [2; 3; 4]%nat)
           (mkArray [2; 12]%nat (map Z.of_nat (seq 0 24)))
           [2; 3; 4] [2; 12] [0; 1; 2]).
  - vm_compute; reflexivity.
  - vm_compute; reflexivity.
  - vm_compute; reflexivity.
Defined.

(* ===================================================================== *)
(** * Patterns that change nothing, or only the grouping                  *)
(* ===================================================================== *)

Section EllipsisOnly.
Context {A : Type}.
Implicit Types (tensor : ndarray A).

Lemma py_slice_all {B} (xs : list B) :
  py_slice xs 0 (Z.of_nat (length xs)) = xs.
Proof.
  unfold py_slice, clamp_bound.
  destruct (Z.ltb_spec (Z.of_nat (length xs)) 0); [lia|].
  change (0 <? 0) with false. cbv beta iota.
  rewrite Z.min_id, Z.min_l by lia.
  change (Z.to_nat 0) with 0%nat. rewrite drop_0, Z.sub_0_r, Nat2Z.id.
  apply firstn_all.
Qed.

Lemma py_index_lookup {B} (xs : list B) (i : nat) x :
  xs !! i = Some x -> py_index xs (Z.of_nat i) = Ok x.
Proof.
  intros Hx. unfold py_index. apply lookup_lt_Some in Hx as Hlt.
  destruct (Z.ltb_spec (Z.of_nat i) 0); [lia|].
  destruct (Z.ltb_spec (Z.of_nat i) 0); [lia|].
  destruct (Z.leb_spec (Z.of_nat (length xs)) (Z.of_nat i)); [lia|]. simpl.
  now rewrite Nat2Z.id, Hx.
Qed.

Lemma list_comp_index_range {B} (xs : list B) :
  list_comp (py_index xs) (py_range 0 (Z.of_nat (length xs))) = Ok xs.
Proof.
  unfold py_range. rewrite Z.sub_0_r, Nat2Z.id.
  assert (H : forall pre, list_comp (py_index (pre ++ xs))
                            (map (fun k => 0 + Z.of_nat k)
                                 (seq (length pre) (length xs))) = Ok xs).
  { induction xs as [|x xs IH]; intros pre; [reflexivity|].
    cbn [length seq map list_comp].
    change (0 + Z.of_nat (length pre)) with (Z.of_nat (length pre)).
    rewrite (py_index_lookup (pre ++ x :: xs) (length pre) x)
      by (now rewrite lookup_app_r, Nat.sub_diag by lia).
    cbn [bind]. specialize (IH (pre ++ [x])).
    rewrite <- app_assoc, length_app in IH. simpl in IH.
    rewrite Nat.add_1_r in IH. now rewrite IH. }
  exact (H []).
Qed.

Lemma length_py_range n : length (py_range 0 (Z.of_nat n)) = n.
Proof. unfold py_range. now rewrite length_map, length_seq, Z.sub_0_r, Nat2Z.id. Qed.

Lemma reshape_same tensor : reshape tensor (shapeZ tensor) = Ok tensor.
Proof.
  unfold shapeZ. rewrite reshape_of_nat by reflexivity. now destruct tensor.
Qed.

End EllipsisOnly.

(** X15. The pattern ["... -> ..."] returns its argument unchanged, for an
    array of any rank (rank 0 included) and whatever the size hints: the
    ellipsis absorbs every dimension, the permutation is the identity
    sequence, and the only operation is a reshape to the array's own
    shape. *)
Theorem rearrange_ellipsis_only
  {A} (tensor : ndarray A) (named_sizes : gmap string Z) :
  rearrange tensor "... -> ..." named_sizes = Ok tensor.
Proof.
  assert (Hplan : rearrange_plan tensor "... -> ..." named_sizes
                  = Ok (shapeZ tensor, shapeZ tensor,
                        py_range 0 (ndim tensor))).
  { unfold rearrange_plan.
    replace (str_contains "->" "... -> ...") with true by (vm_compute; reflexivity).
    replace (unpack2 (str_split "... -> ..." "->")) with (Ok ("... ", " ..."))
      by (vm_compute; reflexivity).
    cbn [negb bind].
    replace (parse (str_strip "... ")) with (Ok (mkParsed true ∅ [EllipsisItem] 1))
      by (vm_compute; reflexivity).
    replace (parse (str_strip " ...")) with (Ok (mkParsed true ∅ [EllipsisItem] 1))
      by (vm_compute; reflexivity).
    cbn [bind has_ellipsis actual_dim_count identifiers].
    replace (1 + (ndim tensor - 1)) with (ndim tensor) by lia.
    rewrite Z.eqb_refl. cbn [negb].
    unfold _get_shape_dict, _compute_output_shape. cbn [composition].
    unfold shape_loop, shape_step, source_loop, source_step, target_loop, target_step.
    replace (lists_after_ellipsis [EllipsisItem]) with (Ok 0)
      by (vm_compute; reflexivity).
    cbn [bind try_except].
    destruct (Z.ltb_spec (ndim tensor - 0 - 0) 0) as [Hneg|_];
      [unfold ndim in Hneg; lia|].
    cbn [bind try_except ellipsis_dims intermediate_shape current_dim app].
    replace (bool_decide (∅ ∖ {["..."]} ∖ (∅ ∖ {["..."]}) = (∅ : gset string)))
      with true by (vm_compute; reflexivity).
    cbn [negb]. rewrite !Z.sub_0_r. unfold ndim.
    replace (Z.of_nat (length (shape tensor)))
      with (Z.of_nat (length (shapeZ tensor)))
      by (unfold shapeZ; now rewrite length_map).
    rewrite py_slice_all, list_comp_index_range.
    cbn [bind app]. rewrite Z.eqb_refl. reflexivity. }
  unfold rearrange. rewrite Hplan. cbn [bind]. unfold perform.
  rewrite bool_decide_eq_true_2
    by (unfold ndim; now rewrite length_py_range).
  rewrite reshape_same. reflexivity.
Qed.

Section GroupUngroup.
Context {A : Type}.
Implicit Types (tensor : ndarray A).

Lemma wrap64_range z : - 2 ^ 63 <= wrap64 z < 2 ^ 63.
Proof.
  unfold wrap64.
  pose proof (Z.mod_pos_bound (z + 2 ^ 63) (2 ^ 64) ltac:(lia)). lia.
Qed.

Lemma np_prod_singleton z : np_prod [np_prod z] = np_prod z.
Proof.
  unfold np_prod at 1. simpl. rewrite Z.mul_1_r.
  apply wrap64_small, wrap64_range.
Qed.

(** Evaluates dictionary lookups on explicit insertions. *)
Ltac eval_lookups :=
  repeat progress
    (unfold target_step, place_axis, dict_get, dict_mem;
     rewrite ?lookup_insert_eq, ?lookup_empty;
     rewrite ?lookup_insert_ne by congruence; simpl).

Lemma plan_group (a b : nat) (data : list A) :
  rearrange_plan (mkArray [a; b] data) "a b -> (a b)" ∅
  = Ok ([Z.of_nat a; Z.of_nat b], [np_prod [Z.of_nat a; Z.of_nat b]], [0; 1]).
Proof.
  apply (rearrange_plan_intro _ _ _ "a b " " (a b)"
           (mkParsed false {["a"; "b"]} [Axes ["a"]; Axes ["b"]] 2)
           (mkParsed false {["a"; "b"]} [Axes ["a"; "b"]] 1)
           (<["b" := Z.of_nat b]> (<["a" := Z.of_nat a]> ∅)));
    [vm_compute; reflexivity | vm_compute; reflexivity | vm_compute; reflexivity
    | vm_compute; reflexivity | reflexivity | reflexivity | 
    | vm_compute; reflexivity | ].
  - unfold _get_shape_dict, shape_loop, shape_step, shapeZ. simpl.
    eval_lookups. reflexivity.
  - unfold _compute_output_shape. simpl. eval_lookups.
    rewrite np_prod_singleton, Z.eqb_refl. reflexivity.
Qed.

Lemma plan_ungroup (a b : nat) (data : list A) :
  (0 < a)%nat -> Z.of_nat a < 2 ^ 63 ->
  rearrange_plan (mkArray [(a * b)%nat] data) "(a b) -> a b"
                 {["a" := Z.of_nat a]}
  = Ok ([Z.of_nat a; Z.of_nat b], [Z.of_nat a; Z.of_nat b], [0; 1]).
Proof.
  intros Ha Hfit.
  apply (rearrange_plan_intro _ _ _ "(a b) " " a b"
           (mkParsed false {["a"; "b"]} [Axes ["a"; "b"]] 1)
           (mkParsed false {["a"; "b"]} [Axes ["a"]; Axes ["b"]] 2)
           (<["b" := Z.of_nat b]> {["a" := Z.of_nat a]}));
    [vm_compute; reflexivity | vm_compute; reflexivity | vm_compute; reflexivity
    | vm_compute; reflexivity | reflexivity | reflexivity | 
    | vm_compute; reflexivity | ].
  - rewrite <- !insert_empty.
    unfold _get_shape_dict, shape_loop, shape_step, shapeZ. simpl.
    unfold resolve_group. simpl. eval_lookups.
    unfold np_prod. simpl. rewrite Z.mul_1_r, wrap64_small by lia.
    unfold np_mod, np_floordiv.
    destruct (Z.eqb_spec (Z.of_nat a) 0); [lia|].
    rewrite Nat2Z.inj_mul, Z.mul_comm, Z.mod_mul, Z.div_mul by lia.
    reflexivity.
  - rewrite <- !insert_empty.
    unfold _compute_output_shape. simpl. eval_lookups.
    rewrite Z.eqb_refl. reflexivity.
Qed.

End GroupUngroup.

(** X16. Merging the two axes of a 2-dimensional array and splitting them
    again gives the array back: for [t] of shape [(a, b)] with [a > 0] (and
    sizes that fit 64 bits), [rearrange(t, "a b -> (a b)")] has shape
    [(a*b,)] and [rearrange] of that with ["(a b) -> a b"] and the hint
    [a=t.shape[0]] returns [t]. *)
Theorem group_ungroup_roundtrip {A} (t : ndarray A) (a b : nat) :
  shape t = [a; b] -> (0 < a)%nat ->
  Z.of_nat a < 2 ^ 63 -> Z.of_nat (a * b) < 2 ^ 63 ->
  exists t1, rearrange t "a b -> (a b)" ∅ = Ok t1
             /\ shape t1 = [(a * b)%nat]
             /\ rearrange t1 "(a b) -> a b" {["a" := Z.of_nat a]} = Ok t.
Proof.
  destruct t as [sh data]. simpl. intros -> Ha Hfa Hfab.
  exists (mkArray [(a * b)%nat] data). split; [|split; [reflexivity|]].
  - unfold rearrange. rewrite plan_group. simpl bind. unfold perform.
    replace [np_prod [Z.of_nat a; Z.of_nat b]] with (map Z.of_nat [(a * b)%nat]).
    + rewrite reshape_of_nat by (simpl; lia). reflexivity.
    + simpl. f_equal. unfold np_prod. simpl.
      rewrite Z.mul_1_r, wrap64_small; lia.
  - unfold rearrange. rewrite plan_ungroup by assumption. simpl bind.
    unfold perform.
    change [Z.of_nat a; Z.of_nat b] with (map Z.of_nat [a; b]).
    rewrite reshape_of_nat by (simpl; lia). reflexivity.
Qed.

Lemma group_ungroup_roundtrip_witness :
  exists t1, rearrange (arange [2; 3]%nat) "a b -> (a b)" ∅ = Ok t1
             /\ shape t1 = [(2 * 3)%nat]
             /\ rearrange t1 "(a b) -> a b" {["a" := Z.of_nat 2]}
                = Ok (arange [2; 3]%nat).
Proof.
  apply (group_ungroup_roundtrip (arange [2; 3]%nat) 2 3).
  - reflexivity.
  - lia.
  - simpl; lia.
  - simpl; lia.
Defined.

(* ===================================================================== *)
(** * The sizes the resolver binds                                        *)
(* ===================================================================== *)

Section ResolverConsistency.
Context {A : Type}.
Implicit Types (tensor : ndarray A) (shape_dict : gmap string Z).

Lemma wrap64_mul_wrap a b : wrap64 (a * wrap64 b) = wrap64 (a * b).
Proof.
  unfold wrap64. f_equal.
  pose proof (Z.div_mod (b + 2 ^ 63) (2 ^ 64) ltac:(lia)) as Hb.
  replace (a * ((b + 2 ^ 63) mod 2 ^ 64 - 2 ^ 63) + 2 ^ 63)
    with (a * b + 2 ^ 63 + (- a * ((b + 2 ^ 63) / 2 ^ 64)) * 2 ^ 64) by lia.
  apply Z_mod_plus_full.
Qed.

Lemma filter_negb_nil {B} (f : B -> bool) l :
  List.filter (fun x => negb (f x)) l = [] -> List.filter f l = l.
Proof.
  induction l as [|x l IH]; simpl; [reflexivity|].
  destruct (f x); simpl; [|discriminate]. intros H. now rewrite IH.
Qed.

Lemma known_sizes_all shape_dict names :
  List.filter (fun dim => negb (dict_mem shape_dict dim)) names = [] ->
  list_comp (dict_get shape_dict) names = Ok (known_sizes shape_dict names)
  /\ length (known_sizes shape_dict names) = length names.
Proof.
  intros Hnil. split.
  - rewrite <- (filter_negb_nil _ _ Hnil) at 1. apply list_comp_known.
  - induction names as [|x names IH]; [reflexivity|].
    simpl in Hnil. unfold known_sizes in *. rewrite omap_cons.
    unfold dict_mem in Hnil.
    destruct (shape_dict !! x); simpl in *; [|discriminate]. now rewrite IH.
Qed.

Lemma known_sizes_insert_fresh shape_dict names u q :
  ~ In u names ->
  known_sizes (<[u := q]> shape_dict) names = known_sizes shape_dict names.
Proof.
  intros Hu. unfold known_sizes. apply omap_ext_in. intros x Hx.
  apply lookup_insert_ne. intros ->. contradiction.
Qed.

(** Binding the single unknown axis of a group multiplies the product of
    its known sizes by the new size. *)
Lemma known_sizes_insert_unknown shape_dict names u q :
  List.filter (fun dim => negb (dict_mem shape_dict dim)) names = [u] ->
  product (known_sizes (<[u := q]> shape_dict) names)
  = q * product (known_sizes shape_dict names)
  /\ length (known_sizes (<[u := q]> shape_dict) names) = length names.
Proof.
  induction names as [|x names IH]; [discriminate|].
  cbn [List.filter].
  unfold known_sizes in *. rewrite !omap_cons. unfold dict_mem at 1.
  destruct (shape_dict !! x) as [v|] eqn:Hx; cbn [negb is_Some_dec bool_decide].
  - intros Hf. destruct (IH Hf) as [IHp IHl].
    assert (Hxu : u <> x).
    { intros ->.
      assert (Hin : In x (List.filter (fun dim => negb (dict_mem shape_dict dim)) names))
        by (rewrite Hf; simpl; auto).
      apply filter_In in Hin as [_ Hm]. unfold dict_mem in Hm.
      rewrite Hx in Hm. discriminate. }
    rewrite lookup_insert_ne, Hx by assumption. simpl.
    rewrite IHp, IHl. split; [ring | reflexivity].
  - intros [= -> Hnil]. rewrite lookup_insert_eq. simpl.
    assert (Hu : ~ In u names).
    { intros Hin. pose proof (filter_nil_all _ _ u Hnil Hin) as Hf. simpl in Hf.
      unfold dict_mem in Hf. rewrite Hx in Hf. discriminate. }
    fold (known_sizes (<[u := q]> shape_dict) names).
    rewrite (known_sizes_insert_fresh _ _ _ _ Hu).
    destruct (known_sizes_all _ _ Hnil) as [_ Hl].
    fold (known_sizes shape_dict names). rewrite Hl. split; reflexivity.
Qed.

Lemma known_sizes_weaken shape_dict d1 names :
  shape_dict ⊆ d1 ->
  length (known_sizes shape_dict names) = length names ->
  known_sizes d1 names = known_sizes shape_dict names.
Proof.
  intros Hsub. unfold known_sizes.
  induction names as [|x names IH]; [reflexivity|].
  rewrite !omap_cons. destruct (shape_dict !! x) as [v|] eqn:Hx.
  - rewrite (lookup_weaken _ _ _ _ Hx Hsub). simpl. intros [= Hl]. now rewrite IH.
  - intros Hl. exfalso. 
    assert (Hle : (length (omap (fun dim => shape_dict !! dim) names)
                   <= length names)%nat).
    { clear. induction names as [|y names IH]; [reflexivity|].
      rewrite omap_cons. destruct (shape_dict !! y); simpl; lia. }
    simpl in Hl. lia.
Qed.

(** One group of the resolver: afterwards the sizes of its axes multiply,
    in 64-bit arithmetic, to the dimension it was matched with. *)
Lemma shape_step_product tensor comp names shape_dict cd d1 cd1 total :
  shape_step tensor comp (Axes names) (shape_dict, cd) = Ok (d1, cd1) ->
  py_index (shapeZ tensor) cd = Ok total ->
  in_int64 total ->
  (forall k v, d1 !! k = Some v -> v <> 0) ->
  np_prod (known_sizes d1 names) = total
  /\ length (known_sizes d1 names) = length names.
Proof.
  intros Hs Hidx Hfit Hnz. unfold shape_step in Hs. rewrite Hidx in Hs.
  simpl in Hs.
  assert (Hgroup :
    (do d2 <- resolve_group names total shape_dict; Ok (d2, cd + 1)) = Ok (d1, cd1) ->
    np_prod (known_sizes d1 names) = total
    /\ length (known_sizes d1 names) = length names).
  { clear Hs. unfold resolve_group.
    destruct (List.filter _ names) as [|u [|u' l]] eqn:Hunk; [| |discriminate].
    - destruct (known_sizes_all _ _ Hunk) as [-> Hl]. simpl.
      destruct (Z.eqb_spec (np_prod (known_sizes shape_dict names)) total);
        simpl; [|discriminate].
      intros [= <- <-]. auto.
    - rewrite list_comp_known. simpl.
      set (kp := np_prod (known_sizes shape_dict names)).
      destruct (Z.eqb_spec (np_mod total kp) 0) as [Hmod|]; simpl; [|discriminate].
      intros [= <- <-].
      destruct (known_sizes_insert_unknown shape_dict names u
                  (np_floordiv total kp) Hunk) as [Hp Hl].
      split; [|exact Hl].
      assert (Hq : np_floordiv total kp <> 0).
      { apply (Hnz u). apply lookup_insert_eq. }
      subst kp. unfold np_prod in *. rewrite Hp.
      set (w := wrap64 (product (known_sizes shape_dict names))) in *.
      unfold np_floordiv, np_mod in *.
      destruct (Z.eqb_spec w 0) as [|Hw]; [contradiction|].
      rewrite <- wrap64_mul_wrap. fold w.
      apply Z.div_exact in Hmod; [|assumption].
      rewrite Z.mul_comm, <- Hmod. now apply wrap64_small. }
  destruct names as [|x [|y names]]; try exact (Hgroup Hs).
  destruct (shape_dict !! x) as [known|] eqn:Hx.
  - destruct (Z.eqb_spec known total); simpl in Hs; [|discriminate].
    injection Hs as <- <-. unfold known_sizes. rewrite omap_cons, Hx. simpl.
    split; [|reflexivity]. unfold np_prod. simpl.
    rewrite Z.mul_1_r. subst. now apply wrap64_small.
  - injection Hs as <- <-. unfold known_sizes.
    rewrite omap_cons, lookup_insert_eq. simpl.
    split; [|reflexivity]. unfold np_prod. simpl.
    rewrite Z.mul_1_r. now apply wrap64_small.
Qed.

Lemma py_index_ok_lookup {B} (xs : list B) i x :
  0 <= i -> py_index xs i = Ok x -> xs !! Z.to_nat i = Some x.
Proof.
  intros Hi. unfold py_index.
  destruct (Z.ltb_spec i 0); [lia|].
  destruct (_ || _); [discriminate|].
  destruct (xs !! Z.to_nat i); [congruence | discriminate].
Qed.

Lemma shape_loop_product tensor comp items shape_dict cd sd cd1 i names :
  shape_loop tensor comp items (shape_dict, cd) = Ok (sd, cd1) ->
  ~ In EllipsisItem items -> 0 <= cd ->
  (forall k v, sd !! k = Some v -> v <> 0) ->
  items !! i = Some (Axes names) ->
  exists total,
    shapeZ tensor !! (Z.to_nat cd + i)%nat = Some total
    /\ (in_int64 total ->
        np_prod (known_sizes sd names) = total
        /\ length (known_sizes sd names) = length names).
Proof.
  revert shape_dict cd i.
  induction items as [|item items IH]; intros shape_dict cd i Hl Hno Hcd Hnz Hi;
    [discriminate|].
  rewrite shape_loop_cons in Hl.
  destruct item as [item|]; [|exfalso; apply Hno; simpl; auto].
  destruct (shape_step tensor comp (Axes item) (shape_dict, cd))
    as [[d1 cd2]|] eqn:Hs; simpl in Hl; [|discriminate].
  pose proof (shape_loop_grows _ _ _ _ _ _ _ Hl) as [Hsub _].
  apply shape_step_axes in Hs as Hcd2; [|assumption]. destruct Hcd2 as [-> Hlt].
  destruct i as [|i]; simpl in Hi.
  - injection Hi as ->.
    assert (Hidx : exists total, py_index (shapeZ tensor) cd = Ok total).
    { unfold shape_step in Hs.
      destruct (py_index (shapeZ tensor) cd); [eauto | discriminate]. }
    destruct Hidx as [total Hidx]. exists total. split.
    + rewrite Nat.add_0_r. now apply py_index_ok_lookup.
    + intros Hfit.
      destruct (shape_step_product _ _ _ _ _ _ _ _ Hs Hidx Hfit) as [Hp Hlen].
      { intros k v Hk. apply (Hnz k). eapply lookup_weaken; eassumption. }
      rewrite (known_sizes_weaken _ _ _ Hsub Hlen). auto.
  - assert (Hno' : ~ In EllipsisItem items) by (intros Hin; apply Hno; now right).
    destruct (IH d1 (cd + 1) i Hl Hno' ltac:(lia) Hnz Hi) as [total [Hlook Hprod]].
    exists total. split; [|assumption].
    replace (Z.to_nat cd + S i)%nat with (Z.to_nat (cd + 1) + i)%nat by lia.
    exact Hlook.
Qed.

End ResolverConsistency.

(** X17. For a source pattern without ellipsis, when [_get_shape_dict]
    succeeds and binds no axis to 0, the sizes of the axes of the [i]-th
    group multiply to the [i]-th dimension of the array (in numpy's 64-bit
    arithmetic, for a dimension that fits 64 bits): every name of the group
    is bound, and the bound sizes account exactly for the dimension. *)
Theorem resolved_group_product
  {A} (tensor : ndarray A) (src : ParsedExpression)
  (named_sizes shape_dict : gmap string Z) (i : nat) (names : list string) :
  _get_shape_dict tensor src named_sizes = Ok shape_dict ->
  ~ In EllipsisItem (composition src) ->
  (forall k v, shape_dict !! k = Some v -> v <> 0) ->
  composition src !! i = Some (Axes names) ->
  exists n, shape tensor !! i = Some n
            /\ (Z.of_nat n < 2 ^ 63 ->
                np_prod (known_sizes shape_dict names) = Z.of_nat n
                /\ length (known_sizes shape_dict names) = length names).
Proof.
  unfold _get_shape_dict.
  destruct (shape_loop tensor _ _ _) as [[sd cd1]|] eqn:Hl; simpl; [|discriminate].
  intros [= <-] Hno Hnz Hi.
  destruct (shape_loop_product _ _ _ _ _ _ _ _ _ Hl Hno ltac:(lia) Hnz Hi)
    as [total [Hlook Hprod]].
  simpl in Hlook. unfold shapeZ in Hlook.
  change (map Z.of_nat (shape tensor)) with (Z.of_nat <$> shape tensor) in Hlook.
  rewrite list_lookup_fmap in Hlook.
  destruct (shape tensor !! i) as [n|]; [|discriminate].
  injection Hlook as <-. exists n. split; [reflexivity|].
  intros Hfit. apply Hprod. unfold in_int64. lia.
Qed.

Lemma resolved_group_product_witness :
  exists n, [6; 8]%nat !! 0%nat = Some n
            /\ (Z.of_nat n < 2 ^ 63 ->
                np_prod (known_sizes (<["c" := 8]> (<["a" := 3]> {["b" := 2]}))
                                     ["a"; "b"])
                = Z.of_nat n
                /\ length (known_sizes (<["c" := 8]> (<["a" := 3]> {["b" := 2]}))
                                       ["a"; "b"])
                   = length ["a"; "b"]).
Proof.
  refine (resolved_group_product (zeros [6; 8]%nat)
            (mkParsed false {["a"; "b"; "c"]} [Axes ["a"; "b"]; Axes ["c"]] 2)
            {["b" := 2]} (<["c" := 8]> (<["a" := 3]> {["b" := 2]}))
            0 ["a"; "b"] _ _ _ _).
  - vm_compute; reflexivity.
  - simpl. intros [H|[H|[]]]; discriminate H.
  - intros k v. rewrite <- insert_empty, !lookup_insert.
    repeat case_decide; intros [= <-]; discriminate.
  - reflexivity.
Defined.

(* ===================================================================== *)
(** * Parsing the text of a composition                                   *)
(* ===================================================================== *)

Lemma append_assoc (a b c : string) : (a +:+ b) +:+ c = a +:+ (b +:+ c).
Proof.
  induction a as [|x a IH]; [reflexivity|].
  change (String x ((a +:+ b) +:+ c) = String x (a +:+ b +:+ c)).
  now rewrite IH.
Qed.

Ltac norm_append :=
  repeat (progress push_append || rewrite append_assoc).

Section ParseRendered.

Lemma append_empty_r (a : string) : a +:+ EmptyString = a.
Proof.
  induction a as [|x a IH]; [reflexivity|].
  change (String x (a +:+ EmptyString) = String x a). now rewrite IH.
Qed.

Lemma name_char_class c :
  is_name_char c = true ->
  (isalnum c || char_in c "() _." || isspace c)%bool = true
  /\ char_in c "() " = false /\ c <> "."%char.
Proof.
  unfold is_name_char. intros Hc. split; [|split].
  - apply orb_true_iff in Hc as [->|Hc]; [reflexivity|].
    apply Ascii.eqb_eq in Hc as ->. reflexivity.
  - simpl. destruct (Ascii.eqb_spec c "(") as [->|_]; [discriminate Hc|].
    destruct (Ascii.eqb_spec c ")") as [->|_]; [discriminate Hc|].
    destruct (Ascii.eqb_spec c " ") as [->|_]; [discriminate Hc|]. reflexivity.
  - intros ->. discriminate Hc.
Qed.

Lemma valid_axis_name_chars name :
  valid_axis_name name = true ->
  name <> EmptyString /\ str_all is_name_char name = true.
Proof.
  unfold valid_axis_name. intros H.
  apply andb_true_iff in H as [H Hall]. apply andb_true_iff in H as [H _].
  apply andb_true_iff in H as [_ Hne].
  split; [|exact Hall]. intros ->. discriminate Hne.
Qed.

(** The characters of a name are collected into the current token. *)
Lemma tokenize_name name s tokens current :
  str_all is_name_char name = true ->
  tokenize (name +:+ s) tokens current = tokenize s tokens (current +:+ name).
Proof.
  revert current. induction name as [|c r IH]; intros current Hall.
  - now rewrite append_empty_r.
  - simpl in Hall. apply andb_true_iff in Hall as [Hc Hr].
    destruct (name_char_class c Hc) as [H1 [H2 _]].
    change (String c r +:+ s) with (String c (r +:+ s)).
    rewrite tokenize_cons, H1, H2. cbn [negb].
    rewrite (IH _ Hr), append_assoc. reflexivity.
Qed.

Lemma flush_name tokens name :
  name <> EmptyString -> flush tokens name = tokens ++ [name].
Proof. unfold flush. destruct name; [congruence | reflexivity]. Qed.

Lemma tokenize_names names s tokens :
  Forall (fun n => valid_axis_name n = true) names ->
  tokenize (render_names names +:+ String ")" s) tokens EmptyString
  = tokenize s (tokens ++ names ++ [")"]) EmptyString.
Proof.
  revert tokens. induction names as [|name rest IH]; intros tokens Hv.
  - cbn [render_names]. push_append. now rewrite tokenize_close, flush_empty.
  - apply Forall_cons in Hv as [Hn Hrest].
    destruct (valid_axis_name_chars _ Hn) as [Hne Hall].
    cbn [render_names]. norm_append. rewrite (tokenize_name _ _ _ _ Hall).
    change (EmptyString +:+ name) with name.
    destruct rest as [|name2 rest].
    + norm_append. rewrite tokenize_close, (flush_name _ _ Hne).
      now rewrite <- app_assoc.
    + norm_append.
      rewrite tokenize_space, (flush_name _ _ Hne), (IH _ Hrest).
      now rewrite <- app_assoc.
Qed.

Lemma tokenize_groups groups s tokens :
  Forall (fun names => well_formed_item (Axes names)) groups ->
  tokenize (render_groups groups +:+ s) tokens EmptyString
  = tokenize s (tokens ++ group_tokens groups) EmptyString.
Proof.
  revert tokens. induction groups as [|names rest IH]; intros tokens Hv.
  - cbn. now rewrite app_nil_r.
  - apply Forall_cons in Hv as [[_ Hn] Hrest].
    cbn [render_groups]. norm_append.
    rewrite tokenize_open, flush_empty, (tokenize_names _ _ _ Hn).
    unfold group_tokens. cbn [flat_map]. fold (group_tokens rest).
    destruct rest as [|names2 rest].
    + norm_append. cbn [group_tokens flat_map].
      rewrite app_nil_r, <- !app_assoc. reflexivity.
    + norm_append.
      rewrite tokenize_space, flush_empty, (IH _ Hrest).
      rewrite <- !app_assoc. cbn [app]. rewrite <- !app_assoc. reflexivity.
Qed.

Lemma tokens_of_groups groups :
  Forall (fun names => well_formed_item (Axes names)) groups ->
  tokens_of (render_groups groups) = Ok (group_tokens groups).
Proof.
  intros Hv. unfold tokens_of.
  rewrite <- (append_empty_r (render_groups groups)).
  rewrite (tokenize_groups _ _ _ Hv). reflexivity.
Qed.

Lemma str_all_app p a b :
  str_all p (a +:+ b) = (str_all p a && str_all p b)%bool.
Proof.
  induction a as [|c a IH]; [reflexivity|].
  simpl. now rewrite IH, andb_assoc.
Qed.

Lemma no_dot_no_ellipsis s :
  str_all (fun c => negb (Ascii.eqb c ".")) s = true ->
  str_contains "..." s = false.
Proof.
  induction s as [|c r IH]; [reflexivity|].
  simpl str_all. intros H. apply andb_true_iff in H as [Hc Hr].
  rewrite str_contains_cons, (IH Hr), prefix_cons.
  destruct (ascii_dec "." c) as [<-|_]; [discriminate Hc | reflexivity].
Qed.

Lemma name_no_dot name :
  str_all is_name_char name = true ->
  str_all (fun c => negb (Ascii.eqb c ".")) name = true.
Proof.
  induction name as [|c r IH]; [reflexivity|].
  simpl. intros H. apply andb_true_iff in H as [Hc Hr].
  rewrite (IH Hr), andb_true_r.
  destruct (name_char_class c Hc) as [_ [_ Hdot]].
  destruct (Ascii.eqb_spec c "."); [contradiction | reflexivity].
Qed.

Lemma render_names_no_dot names :
  Forall (fun n => valid_axis_name n = true) names ->
  str_all (fun c => negb (Ascii.eqb c ".")) (render_names names) = true.
Proof.
  induction names as [|name rest IH]; intros Hv; [reflexivity|].
  apply Forall_cons in Hv as [Hn Hrest].
  destruct (valid_axis_name_chars _ Hn) as [_ Hall].
  cbn [render_names]. rewrite str_all_app, (name_no_dot _ Hall).
  destruct rest; [reflexivity|].
  rewrite str_all_app, (IH Hrest). reflexivity.
Qed.

Lemma render_groups_no_dot groups :
  Forall (fun names => well_formed_item (Axes names)) groups ->
  str_all (fun c => negb (Ascii.eqb c ".")) (render_groups groups) = true.
Proof.
  induction groups as [|names rest IH]; intros Hv; [reflexivity|].
  apply Forall_cons in Hv as [[_ Hn] Hrest].
  cbn [render_groups]. rewrite !str_all_app, (render_names_no_dot _ Hn).
  destruct rest; [reflexivity|].
  rewrite str_all_app, (IH Hrest). reflexivity.
Qed.

(** A valid name inside parentheses joins the open group. *)
Lemma process_token_name name g ids comp k :
  valid_axis_name name = true ->
  process_token name (mkPState (Some g) ids comp k)
  = Ok (mkPState (Some (g ++ [name])) ({[name]} ∪ ids) comp k).
Proof.
  intros Hv. pose proof Hv as Hv'. unfold valid_axis_name in Hv'.
  apply andb_true_iff in Hv' as [Hv' Hall].
  apply andb_true_iff in Hv' as [Hv' Hdig].
  apply andb_true_iff in Hv' as [Hell Hne].
  apply negb_true_iff in Hell, Hne, Hdig.
  unfold process_token.
  destruct (String.eqb_spec name "(") as [->|_]; [discriminate Hv|].
  destruct (String.eqb_spec name ")") as [->|_]; [discriminate Hv|].
  unfold add_axis_name. rewrite Hell, Hne, Hdig, Hall. reflexivity.
Qed.

Lemma union_shift (a b c : gset string) : a ∪ (b ∪ c) = (b ∪ a) ∪ c.
Proof. rewrite (comm_L (∪) b a). apply (assoc_L (∪)). Qed.

Lemma process_tokens_in_group names rest g ids comp k :
  Forall (fun n => valid_axis_name n = true) names ->
  process_tokens (names ++ rest) (mkPState (Some g) ids comp k)
  = process_tokens rest
      (mkPState (Some (g ++ names)) (list_to_set names ∪ ids) comp k).
Proof.
  revert g ids. induction names as [|name names IH]; intros g ids Hv.
  - change (list_to_set [] ∪ ids) with ((∅ : gset string) ∪ ids).
    now rewrite app_nil_r, (left_id_L ∅ (∪)).
  - apply Forall_cons in Hv as [Hn Hrest].
    cbn [app process_tokens]. rewrite (process_token_name _ _ _ _ _ Hn).
    cbn [bind]. rewrite (IH _ _ Hrest), <- app_assoc.
    change (list_to_set (name :: names) ∪ ids)
      with (({[name]} ∪ list_to_set names) ∪ ids).
    now rewrite (union_shift (list_to_set names)).
Qed.

Lemma process_tokens_groups groups ids comp k :
  Forall (fun names => well_formed_item (Axes names)) groups ->
  process_tokens (group_tokens groups) (mkPState None ids comp k)
  = Ok (mkPState None (list_to_set (concat groups) ∪ ids)
                 (comp ++ map Axes groups)
                 (k + Z.of_nat (length groups))).
Proof.
  revert ids comp k. induction groups as [|names rest IH]; intros ids comp k Hv.
  - change (list_to_set (concat []) ∪ ids) with ((∅ : gset string) ∪ ids).
    rewrite (left_id_L ∅ (∪)). cbn [map length group_tokens flat_map].
    change (Z.of_nat 0) with 0. now rewrite app_nil_r, Z.add_0_r.
  - apply Forall_cons in Hv as [[Hne Hn] Hrest].
    change (concat (names :: rest)) with (names ++ concat rest).
    rewrite list_to_set_app_L.
    unfold group_tokens. cbn [flat_map]. fold (group_tokens rest).
    change (("(" :: names ++ [")"]) ++ group_tokens rest)
      with ("(" :: (names ++ [")"]) ++ group_tokens rest).
    rewrite <- app_assoc.
    cbn [process_tokens]. change (process_token "(" (mkPState None ids comp k))
      with (Ok (mkPState (Some []) ids comp k)).
    cbn [bind]. rewrite (process_tokens_in_group _ _ _ _ _ _ Hn).
    cbn [app process_tokens].
    destruct names as [|name names]; [congruence|].
    change (process_token ")" ?st) with
      (Ok (mkPState None (list_to_set (name :: names) ∪ ids)
                    (comp ++ [Axes (name :: names)]) (k + 1))).
    cbn [bind]. rewrite (IH _ _ _ Hrest), <- app_assoc.
    rewrite (union_shift (list_to_set (concat rest))).
    cbn [map length app].
    replace (k + 1 + Z.of_nat (length rest))
      with (k + Z.of_nat (S (length rest))) by lia.
    reflexivity.
Qed.

End ParseRendered.

(** X18. Parsing the text of a composition gives the composition back.
    For a non-empty list of non-empty groups of valid axis names, written as
    a pattern with every group in parentheses and single spaces between
    names and between groups, [ParsedExpression] is built without error:
    no ellipsis, the identifiers are the names used, the composition is the
    list of groups in order, and one dimension is counted per group. *)
Theorem parse_rendered_composition (groups : list (list string)) :
  well_formed_groups groups ->
  parse (render_groups groups)
  = Ok (mkParsed false (list_to_set (concat groups)) (map Axes groups)
                 (Z.of_nat (length groups))).
Proof.
  intros [Hne Hv]. unfold parse.
  assert (Hstart : (is_empty (render_groups groups)
                    || str_isspace (render_groups groups))%bool = false).
  { destruct groups as [|names rest]; [congruence|]. reflexivity. }
  rewrite Hstart, (no_dot_no_ellipsis _ (render_groups_no_dot _ Hv)).
  cbn [bind]. rewrite (tokens_of_groups _ Hv). cbn [bind].
  rewrite (process_tokens_groups _ _ _ _ Hv).
  cbn [bracket_group st_identifiers st_composition st_actual_dim_count app].
  now rewrite (right_id_L ∅ (∪)).
Qed.

Lemma parse_rendered_composition_witness :
  parse "(b h) (w) (c2 c_1)"
  = Ok (mkParsed false (list_to_set ["b"; "h"; "w"; "c2"; "c_1"])
                 [Axes ["b"; "h"]; Axes ["w"]; Axes ["c2"; "c_1"]] 3).
Proof.
  refine (parse_rendered_composition [["b"; "h"]; ["w"]; ["c2"; "c_1"]] _).
  split; [discriminate|].
  repeat constructor; discriminate.
Defined.
